(** * xreserve-relay indexer: a shallow embedding and its properties

    The development follows the TypeScript sources under [indexer/src]:
    - [types.ts]     the [RelayJob] row and the [RelayStatus] enumeration;
    - [store.ts]     the relational store, keyed by [tx_hash];
    - [api.ts]       the intake and query endpoints;
    - [poller.ts]    the attested-message validator and the poller loop;
    - [submitter.ts] the submitter loop, outcome and failure classifiers;
    - [ratelimit.ts] the token bucket in front of the attestation API;
    - [abis.ts]      the four event discriminants.

    Asynchronous code is embedded with explicit state passing: every store
    call is a function on the table, and every suspension point ([await])
    is a transition of a small step relation, so that the interleavings of
    the three loops are the traces of that relation. *)

From Stdlib Require Import ZArith NArith QArith Qminmax Lqa Lia List String Ascii.
From Stdlib.Strings Require Import Byte.
From stdpp Require Import base option list sorting strings gmap fin_maps pretty.

Local Open Scope string_scope.
Local Open Scope list_scope.

(** ** JavaScript strings, restricted to what the indexer uses *)

Module Js.

(** [c.toLowerCase()] on one code unit; only the ASCII letters matter for
    hexadecimal strings, every other code unit is left as it is. *)
Definition lowerChar (c : ascii) : ascii :=
  let n := nat_of_ascii c in
  if (65 <=? n)%nat && (n <=? 90)%nat then ascii_of_nat (n + 32) else c.

Fixpoint toLowerCase (s : string) : string :=
  match s with
  | EmptyString => EmptyString
  | String c r => String (lowerChar c) (toLowerCase r)
  end.

(** [s.includes(sub)] *)
Fixpoint includes (s sub : string) : bool :=
  String.prefix sub s ||
  match s with
  | EmptyString => false
  | String _ r => includes r sub
  end.

(** [s.slice(-n)]: the last [n] code units, the whole string when it is
    shorter. *)
Definition sliceLast (n : nat) (s : string) : string :=
  String.substring (String.length s - n) n s.

(** The character classes of the regular expressions in [api.ts] and of
    ethers' hex-string test. *)
Definition isDigit (c : ascii) : bool :=
  let n := nat_of_ascii c in (48 <=? n)%nat && (n <=? 57)%nat.
Definition isLowerHexLetter (c : ascii) : bool :=
  let n := nat_of_ascii c in (97 <=? n)%nat && (n <=? 102)%nat.
Definition isUpperHexLetter (c : ascii) : bool :=
  let n := nat_of_ascii c in (65 <=? n)%nat && (n <=? 70)%nat.
Definition isHexDigit (c : ascii) : bool :=
  isDigit c || isLowerHexLetter c || isUpperHexLetter c.

Fixpoint allChars (p : ascii -> bool) (s : string) : bool :=
  match s with
  | EmptyString => true
  | String c r => p c && allChars p r
  end.

(** Truthiness of a value that is an object or [undefined]. *)
Definition defined {A : Type} (o : option A) : bool :=
  match o with
  | Some _ => true
  | None => false
  end.

(** Values found in a parsed JSON body, as far as [typeof] and the
    membership tests of the intake handler tell them apart: an integral
    number, a string, or anything else (a fractional number, a boolean,
    [null], an object, an array, or an absent key). *)
Inductive value : Type :=
| VInt (n : Z)
| VString (s : string)
| VOther.

End Js.

(** ** The part of ethers the indexer calls on byte strings *)

Module Ethers.

Definition hexChar (n : N) : ascii :=
  if (n <? 10)%N then ascii_of_N (48 + n) else ascii_of_N (87 + n).

Definition hexOfByte (b : byte) : string :=
  let n := Byte.to_N b in
  String (hexChar (n / 16)) (String (hexChar (n mod 16)) EmptyString).

(** [ethers.hexlify(bytes)]: ["0x"] and two lower-case digits a byte. *)
Definition hexDigits (bs : list byte) : string :=
  foldr (fun b digits => hexOfByte b +:+ digits) "" bs.

Definition hexlify (bs : list byte) : string := "0x" +:+ hexDigits bs.

Definition nibble (c : ascii) : option N :=
  let n := N_of_ascii c in
  if Js.isDigit c then Some (n - 48)%N
  else if Js.isLowerHexLetter c then Some (n - 87)%N
  else if Js.isUpperHexLetter c then Some (n - 55)%N
  else None.

Fixpoint parsePairs (s : string) : option (list byte) :=
  match s with
  | EmptyString => Some []
  | String _ EmptyString => None
  | String h (String l r) =>
      hi ← nibble h; lo ← nibble l;
      b ← Byte.of_N (hi * 16 + lo);
      bs ← parsePairs r;
      Some (b :: bs)
  end.

(** [ethers.getBytes(hex)]: the bytes of a string that matches
    [/^0x(?:[0-9a-f][0-9a-f])*$/i]; any other string makes it throw,
    which is [None] here. *)
Definition getBytes (hex : string) : option (list byte) :=
  match hex with
  | String "0" (String "x" r) => parsePairs r
  | _ => None
  end.

(** [bytes.slice(from, to)] on a [Uint8Array]. *)
Definition slice (from to : nat) (bs : list byte) : list byte :=
  take (to - from) (drop from bs).

(** Big-endian value of a byte string: [ethers.toBigInt(bytes)], and
    [DataView.getUint32(0)] on four bytes. *)
Definition toBigInt (bs : list byte) : N :=
  fold_left (fun acc b => (acc * 256 + Byte.to_N b)%N) bs 0%N.

Definition zeroBytes (n : nat) : list byte := repeat x00 n.

#[global] Instance byte_eq_dec : EqDecision byte := Byte.byte_eq_dec.


End Ethers.

(** ** [types.ts]: relay jobs *)

Module Types.

Inductive RelayStatus : Type :=
| Pending | Polling | Attested | Submitted | Confirmed | Failed.

Inductive Outcome : Type :=
| Forwarded | Fallback | OperatorRouted.

#[global] Instance RelayStatus_eq_dec : EqDecision RelayStatus.
Proof. solve_decision. Defined.

#[global] Instance Outcome_eq_dec : EqDecision Outcome.
Proof. solve_decision. Defined.

(** The string each status and outcome is in the TypeScript union. *)
Definition statusName (st : RelayStatus) : string :=
  match st with
  | Pending => "pending" | Polling => "polling" | Attested => "attested"
  | Submitted => "submitted" | Confirmed => "confirmed" | Failed => "failed"
  end.

Definition outcomeName (o : Outcome) : string :=
  match o with
  | Forwarded => "forwarded" | Fallback => "fallback"
  | OperatorRouted => "operator_routed"
  end.

(** Timestamps are the ISO-8601 strings of [Date.prototype.toISOString];
    [null] is [None]. *)
Record RelayJob : Type := {
  txHash : string;
  sourceDomain : Z;
  attestedMessage : option string;
  attestation : option string;
  irisNonce : option string;
  mintRecipient : option string;
  destinationDomain : option N;
  amount : option string;
  ethTxHash : option string;
  ethBlockNumber : option Z;
  status : RelayStatus;
  outcome : option Outcome;
  error : option string;
  pollAttempts : Z;
  retryCount : Z;
  createdAt : string;
  attestedAt : option string;
  submittedAt : option string;
  confirmedAt : option string;
  updatedAt : string
}.

End Types.

Export Types.

(** ** [store.ts]: the [relay_jobs] table

    [tx_hash] is the primary key, so the table is a finite map from that
    column to the other columns of the row. *)

Module Row.

(** The columns of [CREATE_TABLE] next to [tx_hash]; a [NULL] is
    [None]. *)
Record t : Type := {
  source_domain : Z;
  attested_message : option string;
  attestation : option string;
  iris_nonce : option string;
  mint_recipient : option string;
  destination_domain : option N;
  amount : option string;
  eth_tx_hash : option string;
  eth_block_number : option Z;
  status : RelayStatus;
  outcome : option Outcome;
  error : option string;
  poll_attempts : Z;
  retry_count : Z;
  created_at : string;
  attested_at : option string;
  submitted_at : option string;
  confirmed_at : option string;
  updated_at : string
}.

End Row.

Abbreviation Store := (gmap string Row.t).

(** One key of a [Partial<RelayJob>] passed to [updateJob]; the keys are
    those of [columnMap]. *)
Inductive Assignment : Type :=
| SetSourceDomain (v : Z)
| SetAttestedMessage (v : option string)
| SetAttestation (v : option string)
| SetIrisNonce (v : option string)
| SetMintRecipient (v : option string)
| SetDestinationDomain (v : option N)
| SetAmount (v : option string)
| SetEthTxHash (v : option string)
| SetEthBlockNumber (v : option Z)
| SetStatus (v : RelayStatus)
| SetOutcome (v : option Outcome)
| SetError (v : option string)
| SetPollAttempts (v : Z)
| SetRetryCount (v : Z)
| SetAttestedAt (v : option string)
| SetSubmittedAt (v : option string)
| SetConfirmedAt (v : option string).

Module Store.

Definition rowToJob (tx_hash : string) (row : Row.t) : RelayJob :=
  {| txHash := tx_hash;
     sourceDomain := Row.source_domain row;
     attestedMessage := Row.attested_message row;
     attestation := Row.attestation row;
     irisNonce := Row.iris_nonce row;
     mintRecipient := Row.mint_recipient row;
     destinationDomain := Row.destination_domain row;
     amount := Row.amount row;
     ethTxHash := Row.eth_tx_hash row;
     ethBlockNumber := Row.eth_block_number row;
     status := Row.status row;
     outcome := Row.outcome row;
     error := Row.error row;
     pollAttempts := Row.poll_attempts row;
     retryCount := Row.retry_count row;
     createdAt := Row.created_at row;
     attestedAt := Row.attested_at row;
     submittedAt := Row.submitted_at row;
     confirmedAt := Row.confirmed_at row;
     updatedAt := Row.updated_at row |}.

(** The column values that [insertStmt.run] binds. *)
Definition jobToRow (job : RelayJob) : Row.t :=
  {| Row.source_domain := sourceDomain job;
     Row.attested_message := attestedMessage job;
     Row.attestation := attestation job;
     Row.iris_nonce := irisNonce job;
     Row.mint_recipient := mintRecipient job;
     Row.destination_domain := destinationDomain job;
     Row.amount := amount job;
     Row.eth_tx_hash := ethTxHash job;
     Row.eth_block_number := ethBlockNumber job;
     Row.status := status job;
     Row.outcome := outcome job;
     Row.error := error job;
     Row.poll_attempts := pollAttempts job;
     Row.retry_count := retryCount job;
     Row.created_at := createdAt job;
     Row.attested_at := attestedAt job;
     Row.submitted_at := submittedAt job;
     Row.confirmed_at := confirmedAt job;
     Row.updated_at := updatedAt job |}.

(** [key in updates ? updates[key] : old], for the key that [sel]
    recognises. *)
Fixpoint pick {A : Type} (sel : Assignment -> option A)
    (updates : list Assignment) (old : A) : A :=
  match updates with
  | [] => old
  | a :: rest =>
      match sel a with
      | Some v => v
      | None => pick sel rest old
      end
  end.

(** The [SET] clause that [updateJob] builds: [updated_at] always, and
    one column for each key of [columnMap] present in [updates]. *)
Definition applyUpdates (now : string) (updates : list Assignment)
    (row : Row.t) : Row.t :=
  {| Row.source_domain :=
       pick (fun a => match a with SetSourceDomain v => Some v | _ => None end)
            updates (Row.source_domain row);
     Row.attested_message :=
       pick (fun a => match a with SetAttestedMessage v => Some v | _ => None end)
            updates (Row.attested_message row);
     Row.attestation :=
       pick (fun a => match a with SetAttestation v => Some v | _ => None end)
            updates (Row.attestation row);
     Row.iris_nonce :=
       pick (fun a => match a with SetIrisNonce v => Some v | _ => None end)
            updates (Row.iris_nonce row);
     Row.mint_recipient :=
       pick (fun a => match a with SetMintRecipient v => Some v | _ => None end)
            updates (Row.mint_recipient row);
     Row.destination_domain :=
       pick (fun a => match a with SetDestinationDomain v => Some v | _ => None end)
            updates (Row.destination_domain row);
     Row.amount :=
       pick (fun a => match a with SetAmount v => Some v | _ => None end)
            updates (Row.amount row);
     Row.eth_tx_hash :=
       pick (fun a => match a with SetEthTxHash v => Some v | _ => None end)
            updates (Row.eth_tx_hash row);
     Row.eth_block_number :=
       pick (fun a => match a with SetEthBlockNumber v => Some v | _ => None end)
            updates (Row.eth_block_number row);
     Row.status :=
       pick (fun a => match a with SetStatus v => Some v | _ => None end)
            updates (Row.status row);
     Row.outcome :=
       pick (fun a => match a with SetOutcome v => Some v | _ => None end)
            updates (Row.outcome row);
     Row.error :=
       pick (fun a => match a with SetError v => Some v | _ => None end)
            updates (Row.error row);
     Row.poll_attempts :=
       pick (fun a => match a with SetPollAttempts v => Some v | _ => None end)
            updates (Row.poll_attempts row);
     Row.retry_count :=
       pick (fun a => match a with SetRetryCount v => Some v | _ => None end)
            updates (Row.retry_count row);
     Row.created_at := Row.created_at row;
     Row.attested_at :=
       pick (fun a => match a with SetAttestedAt v => Some v | _ => None end)
            updates (Row.attested_at row);
     Row.submitted_at :=
       pick (fun a => match a with SetSubmittedAt v => Some v | _ => None end)
            updates (Row.submitted_at row);
     Row.confirmed_at :=
       pick (fun a => match a with SetConfirmedAt v => Some v | _ => None end)
            updates (Row.confirmed_at row);
     Row.updated_at := now |}.

(** [createJob]: the [INSERT] fails on a primary-key conflict (the
    driver throws; [None] here) and changes nothing then. *)
Definition createJob (job : RelayJob) (s : Store) : option Store :=
  match s !! txHash job with
  | Some _ => None
  | None => Some (<[txHash job := jobToRow job]> s)
  end.

Definition getJob (k : string) (s : Store) : option RelayJob :=
  rowToJob k <$> s !! k.

(** [updateJob]: [UPDATE ... WHERE tx_hash = k], the clock reading
    [now] going to [updated_at]; no row, no change. *)
Definition updateJob (now : string) (k : string)
    (updates : list Assignment) (s : Store) : Store :=
  match s !! k with
  | Some row => <[k := applyUpdates now updates row]> s
  | None => s
  end.

Definition jobs (s : Store) : list RelayJob :=
  (fun kv => rowToJob kv.1 kv.2) <$> map_to_list s.

Definition olderOrSame (a b : RelayJob) : Prop :=
  String.leb (createdAt a) (createdAt b) = true.

#[global] Instance olderOrSame_dec a b : Decision (olderOrSame a b).
Proof. unfold olderOrSame. apply _. Defined.

(** [SELECT ... WHERE status IN (...) ORDER BY created_at ASC]. SQL
    leaves the order of rows with equal [created_at] open; the merge
    sort keeps the order of the enumeration of the table for them. *)
Definition selectByStatus (statuses : list RelayStatus) (s : Store)
    : list RelayJob :=
  merge_sort olderOrSame
    (filter (fun j => status j ∈ statuses) (jobs s)).

Definition getJobsByStatus (statuses : list RelayStatus) (limit : nat)
    (s : Store) : list RelayJob :=
  take limit (selectByStatus statuses s).

Definition getOldestByStatus (st : RelayStatus) (s : Store)
    : option RelayJob :=
  head (take 1 (selectByStatus [st] s)).

(** [countStmt.all()], for [SELECT status, COUNT( * ) as cnt ... GROUP
    BY status]: one result row for each status that occurs in the
    table, with the number of rows in it. SQL leaves the order of the
    groups open; they come in the order of the status names here. *)
Definition countStmt (s : Store) : list (string * Z) :=
  omap (fun st =>
          let cnt := length (filter (fun job => status job = st) (jobs s)) in
          if (0 <? cnt)%nat then Some (statusName st, Z.of_nat cnt) else None)
       [Attested; Confirmed; Failed; Pending; Polling; Submitted].

(** [countByStatus]: the loop [result[row.status] = row.cnt] over the
    result rows. *)
Definition countByStatus (s : Store) : gmap string Z :=
  foldl (fun result row => <[row.1 := row.2]> result) ∅ (countStmt s).

End Store.

(** ** [api.ts]: the intake and query endpoints *)

Module Api.

(** JSON values of the response bodies. *)
Inductive json : Type :=
| JNull
| JString (s : string)
| JNumber (n : Z).

Definition nullable {A : Type} (f : A -> json) (o : option A) : json :=
  match o with
  | Some a => f a
  | None => JNull
  end.

(** [res.status(code).json(body)]; the body is an object literal, kept
    as its keys in source order with their values. *)
Record Response : Type := {
  code : nat;
  body : list (string * json)
}.

(** Known CCTP v2 source domains (excludes 0 = Ethereum, the
    destination). *)
Definition VALID_SOURCE_DOMAINS : gset Z :=
  list_to_set
    [1; 2; 3; 6; 7; 10; 11; 12; 13; 14; 15; 16; 18; 19; 21; 22]%Z.

(** [TX_HASH_REGEX.test(s)] for [/^0x[a-fA-F0-9]{64}$/]. *)
Definition TX_HASH_REGEX (s : string) : bool :=
  match s with
  | String "0" (String "x" digits) =>
      (String.length digits =? 64)%nat && Js.allChars Js.isHexDigit digits
  | _ => false
  end.

(** The language of [/^0x[a-fA-F0-9]{64}$/]. *)
Definition MatchesTxHashRegex (s : string) : Prop :=
  exists digits : string,
    s = "0x" +:+ digits /\ String.length digits = 64%nat /\
    forall c, In c (list_ascii_of_string digits) -> Js.isHexDigit c = true.

(** [typeof sourceDomain === "number" && VALID_SOURCE_DOMAINS.has(sourceDomain)] *)
Definition sourceDomainOk (v : Js.value) : option Z :=
  match v with
  | Js.VInt n => if bool_decide (n ∈ VALID_SOURCE_DOMAINS) then Some n else None
  | _ => None
  end.

(** [typeof txHash === "string" && TX_HASH_REGEX.test(txHash)] *)
Definition txHashOk (v : Js.value) : option string :=
  match v with
  | Js.VString s => if TX_HASH_REGEX s then Some s else None
  | _ => None
  end.

(** The row [POST /relay] inserts. *)
Definition newJob (now : string) (normalizedTxHash : string) (domain : Z)
    : RelayJob :=
  {| txHash := normalizedTxHash;
     sourceDomain := domain;
     attestedMessage := None;
     attestation := None;
     irisNonce := None;
     mintRecipient := None;
     destinationDomain := None;
     amount := None;
     ethTxHash := None;
     ethBlockNumber := None;
     status := Pending;
     outcome := None;
     error := None;
     pollAttempts := 0;
     retryCount := 0;
     createdAt := now;
     attestedAt := None;
     submittedAt := None;
     confirmedAt := None;
     updatedAt := now |}.

(** [app.post("/relay", ...)]: [now] is what [new Date().toISOString()]
    gives during the call; the two values are the [sourceDomain] and
    [txHash] keys destructured from [req.body], the object that
    [express.json()] parsed. The result is the response and the table
    after the call. *)
Definition postRelay (now : string) (bodySourceDomain bodyTxHash : Js.value)
    (s : Store) : Response * Store :=
  match sourceDomainOk bodySourceDomain with
  | None => ({| code := 400;
                body := [("error", JString "Invalid sourceDomain")] |}, s)
  | Some domain =>
      match txHashOk bodyTxHash with
      | None => ({| code := 400;
                    body := [("error", JString "Invalid txHash format")] |}, s)
      | Some tx =>
          let normalizedTxHash := Js.toLowerCase tx in
          match Store.getJob normalizedTxHash s with
          | Some existing =>
              ({| code := 200;
                  body := [("txHash", JString (txHash existing));
                           ("status", JString (statusName (status existing)));
                           ("message", JString "Relay job already exists.")] |},
               s)
          | None =>
              match Store.createJob (newJob now normalizedTxHash domain) s with
              | Some s' =>
                  ({| code := 201;
                      body := [("txHash", JString normalizedTxHash);
                               ("status", JString "pending");
                               ("message",
                                JString "Relay job created. Poll GET /relay/:txHash for status.")] |},
                   s')
              | None =>
                  ({| code := 500;
                      body := [("error", JString "Internal server error")] |}, s)
              end
          end
      end
  end.

(** [app.get("/relay/:txHash", ...)] *)
Definition getRelay (rawParam : string) (s : Store) : Response :=
  match Store.getJob (Js.toLowerCase rawParam) s with
  | None => {| code := 404; body := [("error", JString "Job not found")] |}
  | Some job =>
      {| code := 200;
         body := [("txHash", JString (txHash job));
                  ("sourceDomain", JNumber (sourceDomain job));
                  ("status", JString (statusName (status job)));
                  ("outcome", nullable (fun o => JString (outcomeName o)) (outcome job));
                  ("error", nullable JString (error job));
                  ("ethTxHash", nullable JString (ethTxHash job));
                  ("createdAt", JString (createdAt job));
                  ("attestedAt", nullable JString (attestedAt job));
                  ("submittedAt", nullable JString (submittedAt job));
                  ("confirmedAt", nullable JString (confirmedAt job))] |}
  end.

(** A client that repeats the same [POST /relay], once at each instant
    of [times]: the responses in order, and the table at the end. *)
Fixpoint postRelayRepeated (times : list string)
    (bodySourceDomain bodyTxHash : Js.value) (s : Store)
    : list Response * Store :=
  match times with
  | [] => ([], s)
  | now :: later =>
      let '(r, s1) := postRelay now bodySourceDomain bodyTxHash s in
      let '(rs, s2) := postRelayRepeated later bodySourceDomain bodyTxHash s1 in
      (r :: rs, s2)
  end.

(** The answer of [GET /health]: the HTTP status, the [status] key,
    and the [jobs] key, which is absent in the [500] answer. *)
Record HealthResponse : Type := {
  healthCode : nat;
  healthStatus : string;
  healthJobs : option (gmap string Z)
}.

(** [app.get("/health", ...)]. The [catch] branch answers [500] with
    [unhealthy] when [countByStatus] throws, which the query on an
    open database does not. *)
Definition getHealth (s : Store) : HealthResponse :=
  {| healthCode := 200; healthStatus := "healthy";
     healthJobs := Some (Store.countByStatus s) |}.

End Api.

(** ** [poller.ts]: the attested-message validator *)

Module Validation.

(** [interface Validation]; an absent optional key is [None]. *)
Record t : Type := {
  valid : bool;
  reason : option string;
  mintRecipient : option string;
  destinationDomain : option N;
  amount : option string
}.

(** [{ valid: false, reason }] *)
Definition rejected (why : string) : t :=
  {| valid := false; reason := Some why; mintRecipient := None;
     destinationDomain := None; amount := None |}.

(** [{ valid: true, mintRecipient, destinationDomain, amount }] *)
Definition accepted (recipient : string) (domain : N) (amt : string) : t :=
  {| valid := true; reason := None; mintRecipient := Some recipient;
     destinationDomain := Some domain; amount := Some amt |}.

End Validation.

Module Validator.

Definition BYTES32_ZERO : string :=
  "0x0000000000000000000000000000000000000000000000000000000000000000".

Definition OPEN_CALLER_WARNING : string :=
  "destinationCaller is zero (open) — nonce front-run risk".

Section WithEthers.

(** [ethers.getAddress]: the EIP-55 checksum spelling of an address.
    It is a library function (it hashes the address), so it is a
    parameter of the validator here. *)
Variable getAddress : string -> string.

(** [validateAttestedMessage]. The result is [None] when
    [ethers.getBytes] throws; otherwise the lines written with
    [console.warn], and the [Validation] returned. *)
Definition validateAttestedMessage
    (messageHex routerAddress routerBytes32 : string)
    : option (list string * Validation.t) :=
  message ← Ethers.getBytes messageHex;
  if (length message <? 248)%nat then
    Some ([], Validation.rejected "message too short")
  else
    let destinationDomain := Ethers.toBigInt (Ethers.slice 8 12 message) in
    if negb (destinationDomain =? 0)%N then
      Some ([], Validation.rejected
                  ("destination domain " +:+ pretty destinationDomain
                   +:+ " != 0 (Ethereum)"))
    else
      let destinationCaller := Ethers.hexlify (Ethers.slice 108 140 message) in
      if negb (String.eqb destinationCaller BYTES32_ZERO)
         && negb (String.eqb (Js.toLowerCase destinationCaller)
                             (Js.toLowerCase routerBytes32))
      then
        Some ([], Validation.rejected
                    ("destinationCaller " +:+ destinationCaller
                     +:+ " != router or zero"))
      else
        let warnings :=
          if String.eqb destinationCaller BYTES32_ZERO
          then [OPEN_CALLER_WARNING] else [] in
        let mintRecipientBytes32 :=
          Ethers.hexlify (Ethers.slice 184 216 message) in
        let mintRecipient :=
          getAddress ("0x" +:+ Js.sliceLast 40 mintRecipientBytes32) in
        if negb (String.eqb (Js.toLowerCase mintRecipient)
                            (Js.toLowerCase routerAddress))
        then
          Some (warnings,
                Validation.rejected
                  ("mintRecipient " +:+ mintRecipient +:+ " != router "
                   +:+ routerAddress))
        else
          let amount := pretty (Ethers.toBigInt (Ethers.slice 216 248 message)) in
          Some (warnings,
                Validation.accepted mintRecipient destinationDomain amount).

End WithEthers.

End Validator.

(** ** [config.ts] *)

Record Config : Type := {
  isTestnet : bool;
  irisApiBaseUrl : string;
  routerAddress : string;
  routerBytes32 : string;
  ethereumRpcUrl : string;
  relayerPrivateKey : string;
  transmitterAddress : string;
  apiPort : Z;
  pollCycleIntervalMs : Z;
  attestationTimeoutMs : Z;
  maxRetries : Z;
  submitterPollIntervalMs : Z;
  relayFee : Z;
  dbPath : string
}.

(** How an awaited promise settles: with a value, or with a thrown error
    of which only the message is looked at. *)
Inductive settled (A : Type) : Type :=
| Resolved (a : A)
| Rejected (message : string).

Arguments Resolved {A} a.
Arguments Rejected {A} message.

(** ** [abis.ts]: the event discriminants

    [ethers.id] hashes a signature; it is a parameter here. *)

Module Abis.
Section WithId.
Variable id : string -> string.

Definition RELAYED_TOPIC0 : string :=
  id "Relayed(uint32,bytes32,bytes32,uint256,uint256)".
Definition FALLBACK_TRIGGERED_TOPIC0 : string :=
  id "FallbackTriggered(address,uint256,uint256)".
Definition RECOVERED_FROM_CONSUMED_NONCE_TOPIC0 : string :=
  id "RecoveredFromConsumedNonce(bytes32,uint256)".
Definition OPERATOR_ROUTED_TOPIC0 : string :=
  id "OperatorRouted(bytes32,bytes32,uint256,uint8)".
End WithId.
End Abis.

(** What the submitter reads of an [ethers.Log] and of a transaction
    receipt. *)
Module Log.
Record t : Type := { topics : list string }.
End Log.

Module Receipt.
Record t : Type := {
  status : Z;
  blockNumber : Z;
  logs : list Log.t
}.
End Receipt.

(** ** [submitter.ts] *)

Module Submitter.

(** [message.includes(...) || ...]: the failures that are not retried. *)
Definition terminal (message : string) : bool :=
  Js.includes message "transfer settled"
  || Js.includes message "Nonce already used"
  || Js.includes message "invalid destinationDomain"
  || Js.includes message "invalid destinationCaller"
  || Js.includes message "invalid mintRecipient".

(** The [catch] block around one submission. [job] is the row as it was
    read at the top of the iteration. *)
Definition onFailure (config : Config) (now : string) (job : RelayJob)
    (message : string) (s : Store) : Store :=
  if terminal message then
    Store.updateJob now (txHash job)
      [SetStatus Failed; SetError (Some message);
       SetRetryCount (retryCount job + 1)] s
  else
    let newRetryCount := (retryCount job + 1)%Z in
    if (maxRetries config <=? newRetryCount)%Z then
      Store.updateJob now (txHash job)
        [SetStatus Failed; SetError (Some message);
         SetRetryCount newRetryCount] s
    else
      (* Keep as attested for retry *)
      Store.updateJob now (txHash job)
        [SetError (Some message); SetRetryCount newRetryCount] s.

Section WithId.
Variable id : string -> string.

(** [log.topics[0] === topic] *)
Definition firstTopicIs (topic : string) (log : Log.t) : bool :=
  bool_decide (head (Log.topics log) = Some topic).

(** "Determine outcome from events": the outcome, and the lines
    written with [console.warn]. *)
Definition determineOutcome (jobTxHash : string) (logs : list Log.t)
    : option Outcome * list string :=
  let relayedLog := List.find (firstTopicIs (Abis.RELAYED_TOPIC0 id)) logs in
  let fallbackLog :=
    List.find (firstTopicIs (Abis.FALLBACK_TRIGGERED_TOPIC0 id)) logs in
  let operatorRoutedLog :=
    List.find (firstTopicIs (Abis.OPERATOR_ROUTED_TOPIC0 id)) logs in
  let recoveredLog :=
    List.find (firstTopicIs (Abis.RECOVERED_FROM_CONSUMED_NONCE_TOPIC0 id)) logs in
  let '(outcome, warned) :=
    if Js.defined relayedLog then (Some Forwarded, [])
    else if Js.defined fallbackLog then (Some Fallback, [])
    else if Js.defined operatorRoutedLog then
      (Some OperatorRouted,
       ["Operator-routed for " +:+ jobTxHash
        +:+ " (empty or malformed hookData)"])
    else (None, []) in
  (outcome,
   warned ++ if Js.defined recoveredLog
             then ["Nonce-consumed recovery used for " +:+ jobTxHash]
             else []).

(** Where the loop is suspended: in [sleep] between iterations, or in
    one of the three awaited calls of an iteration, holding the job
    read at its top. *)
Inductive Phase : Type :=
| Idle
| Estimating (job : RelayJob)
| Sending (job : RelayJob) (gasEstimate : Z)
| Waiting (job : RelayJob) (hash : string).

(** What resumes the loop: the end of a [sleep], or the settling of
    [estimateGas], of [receiveAndForward], of [tx.wait(1)]. [now] is
    the reading of the clock in the code that runs next. *)
Inductive Event : Type :=
| Wake
| GasEstimated (now : string) (r : settled Z)
| Sent (now : string) (r : settled string)
| Mined (now : string) (r : settled (option Receipt.t)).

(** The code between two suspension points. An event that is not the
    one the loop is suspended on leaves everything as it is. *)
Definition step (config : Config) (e : Event) (st : Phase * Store)
    : Phase * Store :=
  let '(phase, s) := st in
  match phase, e with
  | Idle, Wake =>
      match Store.getOldestByStatus Attested s with
      | None => (Idle, s)
      | Some job => (Estimating job, s)
      end
  | Estimating job, GasEstimated now (Resolved gasEstimate) =>
      (Sending job gasEstimate, s)
  | Estimating job, GasEstimated now (Rejected message) =>
      (Idle, onFailure config now job
               ("Gas estimation failed: " +:+ message) s)
  | Sending job _, Sent now (Resolved hash) =>
      (Waiting job hash,
       Store.updateJob now (txHash job)
         [SetEthTxHash (Some hash); SetStatus Submitted;
          SetSubmittedAt (Some now)] s)
  | Sending job _, Sent now (Rejected message) =>
      (Idle, onFailure config now job message s)
  | Waiting job hash, Mined now (Resolved (Some receipt)) =>
      if (Receipt.status receipt =? 0)%Z then
        (Idle, onFailure config now job ("Tx reverted: " +:+ hash) s)
      else
        let '(outcome, _) := determineOutcome (txHash job) (Receipt.logs receipt) in
        (Idle,
         Store.updateJob now (txHash job)
           [SetEthBlockNumber (Some (Receipt.blockNumber receipt));
            SetConfirmedAt (Some now); SetOutcome outcome;
            SetStatus Confirmed] s)
  | Waiting job hash, Mined now (Resolved None) =>
      (Idle, onFailure config now job ("Tx reverted: " +:+ hash) s)
  | Waiting job hash, Mined now (Rejected message) =>
      (Idle, onFailure config now job message s)
  | _, _ => (phase, s)
  end.

(** One whole iteration of the loop, started from [sleep], when the
    three awaited calls settle as given. *)
Definition iteration (config : Config) (now : string)
    (estimated : settled Z) (sent : settled string)
    (mined : settled (option Receipt.t)) (s : Store) : Phase * Store :=
  foldl (fun st e => step config e st) (Idle, s)
    [Wake; GasEstimated now estimated; Sent now sent; Mined now mined].

End WithId.

End Submitter.

(** ** [poller.ts]: the poller loop *)

Module IrisMessage.
(** One entry of [messages] in the body of the attestation API. *)
Record t : Type := {
  message : string;
  attestation : string;
  eventNonce : string;
  status : string
}.
End IrisMessage.

Module HttpResponse.
(** What [pollForAttestation] reads of the [fetch] response: the status
    code, and how [response.json()] settles, with the [messages] key of
    the body ([None] when it is absent). *)
Record t : Type := {
  status : Z;
  json : settled (option (list IrisMessage.t))
}.

(** [response.ok] *)
Definition ok (r : t) : bool := (200 <=? status r)%Z && (status r <=? 299)%Z.
End HttpResponse.

Module AttestationResult.
Record t : Type := {
  message : string;
  attestation : string;
  nonce : string
}.
End AttestationResult.

Module Poller.

(** [pollForAttestation], after [irisRateLimiter.acquire()] has
    returned and [fetch] has settled as [fetched]. *)
Definition pollForAttestation (fetched : settled HttpResponse.t)
    : settled (option AttestationResult.t) :=
  match fetched with
  | Rejected m => Rejected m
  | Resolved response =>
      if (HttpResponse.status response =? 404)%Z then Resolved None
      else if (HttpResponse.status response =? 429)%Z then Rejected "RATE_LIMITED"
      else if negb (HttpResponse.ok response) then Resolved None
      else
        match HttpResponse.json response with
        | Rejected m => Rejected m
        | Resolved None => Resolved None
        | Resolved (Some []) => Resolved None
        | Resolved (Some (msg :: _)) =>
            if String.eqb (IrisMessage.status msg) "complete"
               && negb (String.eqb (IrisMessage.attestation msg) "PENDING")
            then
              Resolved (Some
                {| AttestationResult.message := IrisMessage.message msg;
                   AttestationResult.attestation := IrisMessage.attestation msg;
                   AttestationResult.nonce := IrisMessage.eventNonce msg |})
            else Resolved None
        end
  end.

Section WithRuntime.
(** [ethers.getAddress], and [new Date(iso).getTime()]. *)
Variable getAddress : string -> string.
Variable getTime : string -> Z.

(** Where the loop is suspended: in [sleep] between cycles, inside
    the [for] loop with the jobs still to visit, or in
    [pollForAttestation] for [job]. *)
Inductive Phase : Type :=
| Sleeping
| Visiting (jobs : list RelayJob)
| Awaiting (job : RelayJob) (rest : list RelayJob).

(** What runs next: the top of a cycle; the head of the [for] loop,
    with the clock as a string and in milliseconds; the code after
    [pollForAttestation]. *)
Inductive Event : Type :=
| CycleStart
| Visit (now : string) (nowMs : Z)
| Fetched (now : string) (r : settled HttpResponse.t).

Definition step (config : Config) (e : Event) (st : Phase * Store)
    : Phase * Store :=
  let '(phase, s) := st in
  match phase, e with
  | Sleeping, CycleStart =>
      (Visiting (Store.getJobsByStatus [Pending; Polling] 20 s), s)
  | Visiting [], Visit _ _ => (Sleeping, s)
  | Visiting (job :: rest), Visit now nowMs =>
      let elapsed := (nowMs - getTime (createdAt job))%Z in
      if (attestationTimeoutMs config <? elapsed)%Z then
        (Visiting rest,
         Store.updateJob now (txHash job)
           [SetStatus Failed; SetError (Some "attestation_timeout")] s)
      else
        (Awaiting job rest,
         if bool_decide (status job = Pending)
         then Store.updateJob now (txHash job) [SetStatus Polling] s
         else s)
  | Awaiting job rest, Fetched now fetched =>
      match pollForAttestation fetched with
      | Resolved (Some result) =>
          match Validator.validateAttestedMessage getAddress
                  (AttestationResult.message result)
                  (routerAddress config) (routerBytes32 config) with
          | None => (Visiting rest, s)
          | Some (_, validation) =>
              if negb (Validation.valid validation) then
                (Visiting rest,
                 Store.updateJob now (txHash job)
                   [SetStatus Failed;
                    SetError (Some (default "invalid message"
                                      (Validation.reason validation)))] s)
              else
                (Visiting rest,
                 Store.updateJob now (txHash job)
                   [SetStatus Attested;
                    SetAttestedMessage (Some (AttestationResult.message result));
                    SetAttestation (Some (AttestationResult.attestation result));
                    SetIrisNonce (Some (AttestationResult.nonce result));
                    SetMintRecipient (Validation.mintRecipient validation);
                    SetDestinationDomain (Validation.destinationDomain validation);
                    SetAmount (Validation.amount validation);
                    SetAttestedAt (Some now);
                    SetPollAttempts (pollAttempts job + 1)] s)
          end
      | Resolved None =>
          (Visiting rest,
           Store.updateJob now (txHash job)
             [SetPollAttempts (pollAttempts job + 1)] s)
      | Rejected message =>
          if String.eqb message "RATE_LIMITED"
          then (Sleeping, s)
          else (Visiting rest, s)
      end
  | _, _ => (phase, s)
  end.

End WithRuntime.

End Poller.

(** ** [index.ts]: the process

    One table, and the two loops started by [startPoller] and
    [startSubmitter] next to the HTTP server. *)

Module Indexer.

Record System : Type := {
  table : Store;
  poller : Poller.Phase;
  submitter : Submitter.Phase
}.

(** The process right after start on the table [s]: both loops are
    entered from their top, nothing is in flight. *)
Definition boot (s : Store) : System :=
  {| table := s; poller := Poller.Sleeping; submitter := Submitter.Idle |}.

Inductive Event : Type :=
| Post (now : string) (bodySourceDomain bodyTxHash : Js.value)
| PollerRuns (e : Poller.Event)
| SubmitterRuns (e : Submitter.Event)
| Restarted.

Section WithRuntime.
Variable id : string -> string.
Variable getAddress : string -> string.
Variable getTime : string -> Z.
Variable config : Config.

(** The node event loop runs one piece of synchronous code at a time:
    a request handler, or one of the loops from the point it is
    suspended at to its next [await]. [Restarted] is the process being
    killed and started again on the same database file. *)
Definition run (e : Event) (sys : System) : System :=
  match e with
  | Post now bodySourceDomain bodyTxHash =>
      {| table := (Api.postRelay now bodySourceDomain bodyTxHash (table sys)).2;
         poller := poller sys;
         submitter := submitter sys |}
  | PollerRuns pe =>
      let '(phase, s) :=
        Poller.step getAddress getTime config pe (poller sys, table sys) in
      {| table := s; poller := phase; submitter := submitter sys |}
  | SubmitterRuns se =>
      let '(phase, s) :=
        Submitter.step id config se (submitter sys, table sys) in
      {| table := s; poller := poller sys; submitter := phase |}
  | Restarted => boot (table sys)
  end.

Definition exec (events : list Event) (sys : System) : System :=
  foldl (fun st e => run e st) sys events.

End WithRuntime.

End Indexer.

(** ** [ratelimit.ts]: the token bucket

    [Date.now()] is an integer count of milliseconds. The token count is
    a JavaScript number; it is an exact rational here, so rounding of the
    double-precision operations is left out. *)

Module TokenBucket.

Local Open Scope Q_scope.

Record t : Type := {
  tokens : Q;
  lastRefill : Z;
  maxTokens : Q;
  refillRate : Q
}.

(** [new TokenBucket(maxTokens, refillRate)] when the clock reads [now]. *)
Definition create (maxTokens refillRate : Q) (now : Z) : t :=
  {| tokens := maxTokens; lastRefill := now;
     maxTokens := maxTokens; refillRate := refillRate |}.

Definition refill (now : Z) (b : t) : t :=
  let elapsed := inject_Z (now - lastRefill b) / 1000 in
  {| tokens := Qmin (maxTokens b) (tokens b + elapsed * refillRate b);
     lastRefill := now;
     maxTokens := maxTokens b;
     refillRate := refillRate b |}.

(** [export const irisRateLimiter = new TokenBucket(30, 30)], the module
    being loaded when the clock reads [now]. *)
Definition irisRateLimiter (now : Z) : t := create 30 30 now.

(** [this.tokens -= 1] *)
Definition take (b : t) : t :=
  {| tokens := tokens b - 1; lastRefill := lastRefill b;
     maxTokens := maxTokens b; refillRate := refillRate b |}.

(** [((1 - this.tokens) / this.refillRate) * 1000] *)
Definition waitMs (b : t) : Q := ((1 - tokens b) / refillRate b) * 1000.

(** [acquire] has one suspension point. Its first part runs when it is
    called: it returns at once ([None]) or suspends in [sleep(waitMs)]
    ([Some waitMs]). Its second part runs when that timer fires, and
    returns. *)
Definition acquireEnter (now : Z) (b : t) : t * option Q :=
  let b1 := refill now b in
  if Qle_bool 1 (tokens b1) then (take b1, None)
  else (b1, Some (waitMs b1)).

Definition acquireResume (now : Z) (b : t) : t := take (refill now b).

(** The bucket with its callers: the clock at the last event, the
    callers suspended in [sleep] with the instant their timer is due
    (oldest first), and the instants at which [acquire] has returned
    (latest first). *)
Record Run : Type := {
  bucket : t;
  clock : Z;
  sleeping : list Q;
  returned : list Z
}.

Definition start (maxTokens refillRate : Q) (now : Z) : Run :=
  {| bucket := create maxTokens refillRate now; clock := now;
     sleeping := []; returned := [] |}.

Inductive Event : Type :=
| Enter (now : Z)
| TimerFires (now : Z).

(** One event. The clock does not run backwards and a timer does not
    fire before it is due, the delay being taken as [sleep] asks for
    it; an event that breaks this is [None]. *)
Definition step (e : Event) (r : Run) : option Run :=
  match e with
  | Enter now =>
      if (clock r <=? now)%Z then
        match acquireEnter now (bucket r) with
        | (b, None) =>
            Some {| bucket := b; clock := now; sleeping := sleeping r;
                    returned := now :: returned r |}
        | (b, Some wait) =>
            Some {| bucket := b; clock := now;
                    sleeping := sleeping r ++ [inject_Z now + wait];
                    returned := returned r |}
        end
      else None
  | TimerFires now =>
      match sleeping r with
      | due :: others =>
          if (clock r <=? now)%Z && Qle_bool due (inject_Z now) then
            Some {| bucket := acquireResume now (bucket r); clock := now;
                    sleeping := others; returned := now :: returned r |}
          else None
      | [] => None
      end
  end.

Fixpoint steps (es : list Event) (r : Run) : option Run :=
  match es with
  | [] => Some r
  | e :: rest =>
      match step e r with
      | Some r1 => steps rest r1
      | None => None
      end
  end.

(** The callers do not overlap: [acquire] is entered only when no
    earlier call is still suspended. This is how [pollForAttestation],
    the only caller, uses it: it awaits [acquire], and the poller
    awaits [pollForAttestation]. *)
Fixpoint sequential (es : list Event) (r : Run) : bool :=
  match es with
  | [] => true
  | e :: rest =>
      match e with
      | Enter _ => bool_decide (sleeping r = [])
      | TimerFires _ => true
      end
      && match step e r with
         | Some r1 => sequential rest r1
         | None => true
         end
  end.

(** How many times [acquire] returned at an instant of [[from, to]]. *)
Definition returnsWithin (from to : Z) (r : Run) : nat :=
  length (filter (fun at_ => (from <= at_ <= to)%Z) (returned r)).

End TokenBucket.



(** ** Invariants of the process *)

Module Invariant.
Import Indexer.

(** The table has a row for [k], in one of [statuses]. *)
Definition rowStatusIn (s : Store) (statuses : list RelayStatus)
    (k : string) : Prop :=
  exists row, s !! k = Some row /\ Row.status row ∈ statuses.

(** The jobs the poller still holds from its last [getJobsByStatus]. *)
Definition pollerHeld (p : Poller.Phase) : list RelayJob :=
  match p with
  | Poller.Sleeping => []
  | Poller.Visiting jobs => jobs
  | Poller.Awaiting job rest => job :: rest
  end.

(** The row of the job the submitter holds is [attested] until the
    transaction is sent, and [submitted] while it waits for it. *)
Definition submitterHolds (s : Store) (p : Submitter.Phase) : Prop :=
  match p with
  | Submitter.Idle => True
  | Submitter.Estimating job | Submitter.Sending job _ =>
      rowStatusIn s [Attested] (txHash job)
  | Submitter.Waiting job _ => rowStatusIn s [Submitted] (txHash job)
  end.

(** The two loops work on disjoint rows: the poller on rows that are
    [pending] or [polling], each held once. *)
Definition Owned (sys : System) : Prop :=
  NoDup (txHash <$> pollerHeld (poller sys)) /\
  Forall (fun job => rowStatusIn (table sys) [Pending; Polling] (txHash job))
         (pollerHeld (poller sys)) /\
  submitterHolds (table sys) (submitter sys).

Definition OutcomeOnlyIfConfirmed (s : Store) : Prop :=
  forall k row,
    s !! k = Some row -> Row.outcome row ≠ None -> Row.status row = Confirmed.

(** The submitter is not waiting for the transaction of [k]. *)
Definition notAwaited (k : string) (p : Submitter.Phase) : Prop :=
  match p with
  | Submitter.Waiting job _ => txHash job ≠ k
  | _ => True
  end.

End Invariant.

(** ** Invariant of a token bucket whose callers do not overlap *)

Module BucketInvariant.
Import TokenBucket.
Local Open Scope Q_scope.

(** A count as a rational. *)
Definition count (n : nat) : Q := inject_Z (Z.of_nat n).

(** How many of the instants [at_] are not before [from]. *)
Definition since (from : Z) (instants : list Z) : nat :=
  length (filter (fun at_ => (from <= at_)%Z) instants).

(** Tokens that flow in between two clock readings at rate [R]. *)
Definition inflow (R : Q) (t1 t2 : Z) : Q :=
  (inject_Z t2 - inject_Z t1) * (1 # 1000) * R.

Record Holds (B R : Q) (from to : Z) (r : Run) : Prop := {
  max_is : maxTokens (bucket r) = B;
  rate_is : refillRate (bucket r) = R;
  refilled_now : lastRefill (bucket r) = clock r;
  not_negative : 0 <= tokens (bucket r);
  capped : tokens (bucket r) <= B;
  in_the_past : Forall (fun at_ => (at_ <= clock r)%Z) (returned r);
  one_sleeper :
    sleeping r = [] \/
    exists due, sleeping r = [due] /\
      1 - tokens (bucket r) <=
        (due - inject_Z (clock r)) * (1 # 1000) * R;
  paid_for :
    (from <= clock r)%Z ->
    count (since from (returned r)) + tokens (bucket r) <=
      B + inflow R from (clock r);
  bounded :
    count (returnsWithin from to r) <= B + inflow R from to
}.

End BucketInvariant.


(** ** Counting the rows of a status *)

Module Census.

Definition allStatuses : list RelayStatus :=
  [Pending; Polling; Attested; Submitted; Confirmed; Failed].

(** How many rows of the table are in status [st]. *)
Definition rowsWithStatus (st : RelayStatus) (s : Store) : nat :=
  size (filter (fun kv : string * Row.t => Row.status kv.2 = st) s).

End Census.

(** ** The life of a row *)

Module Lifecycle.
Import Indexer Invariant.

(** The status changes that the two loops make. *)
Definition edge (a b : RelayStatus) : Prop :=
  (a, b) ∈ [(Pending, Polling); (Pending, Failed);
            (Polling, Attested); (Polling, Failed);
            (Attested, Submitted); (Attested, Failed);
            (Submitted, Confirmed); (Submitted, Failed)].

#[global] Instance edge_dec a b : Decision (edge a b).
Proof. unfold edge. apply _. Defined.

(** The table has a row for [k] of which [P] holds. *)
Definition rowAt (s : Store) (k : string) (P : Row.t -> Prop) : Prop :=
  exists row, s !! k = Some row /\ P row.

(** A job that the poller holds is as its row is, in the two columns
    the poller reads of it later. *)
Definition agrees (s : Store) (job : RelayJob) : Prop :=
  rowAt s (txHash job)
    (fun row => Row.status row = status job /\
                Row.poll_attempts row = pollAttempts job).

(** The job for which the poller awaits the attestation API. *)
Definition asked (s : Store) (job : RelayJob) : Prop :=
  rowAt s (txHash job)
    (fun row => Row.status row = Polling /\
                Row.poll_attempts row = pollAttempts job).

Definition pollerSynced (s : Store) (p : Poller.Phase) : Prop :=
  match p with
  | Poller.Sleeping => True
  | Poller.Visiting jobs => Forall (agrees s) jobs
  | Poller.Awaiting job rest => asked s job /\ Forall (agrees s) rest
  end.

(** The job the submitter holds has the retry count of its row. *)
Definition submitterSynced (s : Store) (p : Submitter.Phase) : Prop :=
  match p with
  | Submitter.Idle => True
  | Submitter.Estimating job | Submitter.Sending job _
  | Submitter.Waiting job _ =>
      rowAt s (txHash job) (fun row => Row.retry_count row = retryCount job)
  end.

(** The loops hold disjoint rows, and what they hold of a row is
    current. *)
Definition Tracked (sys : System) : Prop :=
  Owned sys /\
  pollerSynced (table sys) (poller sys) /\
  submitterSynced (table sys) (submitter sys).

Section WithRuntime.
Variable id : string -> string.
Variable getAddress : string -> string.
Variable config : Config.

(** The writes of the two loops to the row [row] of [k] when the
    clock reads [now], each with the status it finds the row in. *)
Inductive Write (k now : string) (row : Row.t) : list Assignment -> Prop :=
| WTimeout :
    Row.status row ∈ [Pending; Polling] ->
    Write k now row [SetStatus Failed; SetError (Some "attestation_timeout")]
| WPolling :
    Row.status row = Pending ->
    Write k now row [SetStatus Polling]
| WInvalid result warned validation :
    Row.status row = Polling ->
    Validator.validateAttestedMessage getAddress
      (AttestationResult.message result)
      (routerAddress config) (routerBytes32 config)
      = Some (warned, validation) ->
    Validation.valid validation = false ->
    Write k now row
      [SetStatus Failed;
       SetError (Some (default "invalid message"
                         (Validation.reason validation)))]
| WAttested result warned validation :
    Row.status row = Polling ->
    Validator.validateAttestedMessage getAddress
      (AttestationResult.message result)
      (routerAddress config) (routerBytes32 config)
      = Some (warned, validation) ->
    Validation.valid validation = true ->
    Write k now row
      [SetStatus Attested;
       SetAttestedMessage (Some (AttestationResult.message result));
       SetAttestation (Some (AttestationResult.attestation result));
       SetIrisNonce (Some (AttestationResult.nonce result));
       SetMintRecipient (Validation.mintRecipient validation);
       SetDestinationDomain (Validation.destinationDomain validation);
       SetAmount (Validation.amount validation);
       SetAttestedAt (Some now);
       SetPollAttempts (Row.poll_attempts row + 1)]
| WPolled :
    Row.status row = Polling ->
    Write k now row [SetPollAttempts (Row.poll_attempts row + 1)]
| WSubmitted hash :
    Row.status row = Attested ->
    Write k now row
      [SetEthTxHash (Some hash); SetStatus Submitted;
       SetSubmittedAt (Some now)]
| WConfirmed receipt :
    Row.status row = Submitted ->
    Receipt.status receipt ≠ 0%Z ->
    Write k now row
      [SetEthBlockNumber (Some (Receipt.blockNumber receipt));
       SetConfirmedAt (Some now);
       SetOutcome (Submitter.determineOutcome id k (Receipt.logs receipt)).1;
       SetStatus Confirmed]
| WFailed message :
    Row.status row ∈ [Attested; Submitted] ->
    Submitter.terminal message = true \/
      (maxRetries config <= Row.retry_count row + 1)%Z ->
    Write k now row
      [SetStatus Failed; SetError (Some message);
       SetRetryCount (Row.retry_count row + 1)]
| WRetry message :
    Row.status row ∈ [Attested; Submitted] ->
    Submitter.terminal message = false ->
    (Row.retry_count row + 1 < maxRetries config)%Z ->
    Write k now row
      [SetError (Some message); SetRetryCount (Row.retry_count row + 1)].

(** What one piece of synchronous code does to the table: nothing,
    the insertion of the row of a new job, or one write to one
    row. *)
Inductive Effect (s s' : Store) : Prop :=
| Nothing : s' = s -> Effect s s'
| Inserted now tx domain :
    Api.TX_HASH_REGEX tx = true ->
    domain ∈ Api.VALID_SOURCE_DOMAINS ->
    s !! Js.toLowerCase tx = None ->
    s' = <[Js.toLowerCase tx :=
             Store.jobToRow (Api.newJob now (Js.toLowerCase tx) domain)]> s ->
    Effect s s'
| Written k now row updates :
    s !! k = Some row ->
    Write k now row updates ->
    s' = <[k := Store.applyUpdates now updates row]> s ->
    Effect s s'.

(** The payload of a row is an attested message that the validator
    accepts for the router of [config], with what the validator
    decoded from it. *)
Definition Validated (row : Row.t) : Prop :=
  exists messageHex warned validation,
    Row.attested_message row = Some messageHex /\
    Validator.validateAttestedMessage getAddress messageHex
      (routerAddress config) (routerBytes32 config)
      = Some (warned, validation) /\
    Validation.valid validation = true /\
    Row.mint_recipient row = Validation.mintRecipient validation /\
    Row.destination_domain row = Validation.destinationDomain validation /\
    Row.amount row = Validation.amount validation /\
    is_Some (Row.attestation row) /\
    is_Some (Row.iris_nonce row) /\
    is_Some (Row.attested_at row).

(** The columns of a row that go with its status. *)
Record Complete (row : Row.t) : Prop := {
  not_yet_attested :
    Row.status row ∈ [Pending; Polling] ->
    Row.attested_message row = None /\ Row.attestation row = None /\
    Row.attested_at row = None /\ Row.eth_tx_hash row = None /\
    Row.submitted_at row = None /\ Row.confirmed_at row = None /\
    Row.error row = None /\ Row.retry_count row = 0%Z;
  payload_validated :
    Row.status row ∈ [Attested; Submitted; Confirmed] -> Validated row;
  broadcast_recorded :
    Row.status row ∈ [Submitted; Confirmed] ->
    is_Some (Row.eth_tx_hash row) /\ is_Some (Row.submitted_at row);
  confirmation_recorded :
    Row.status row = Confirmed ->
    is_Some (Row.eth_block_number row) /\ is_Some (Row.confirmed_at row);
  not_confirmed :
    Row.status row ≠ Confirmed ->
    Row.eth_block_number row = None /\ Row.confirmed_at row = None;
  failure_explained :
    Row.status row = Failed -> is_Some (Row.error row)
}.

(** The retry count of a row stays within the retry budget, and
    below it while the row has not failed. *)
Definition WithinBudget (row : Row.t) : Prop :=
  (Row.retry_count row <= Z.max 1 (maxRetries config))%Z /\
  (Row.status row ≠ Failed ->
   (Row.retry_count row < Z.max 1 (maxRetries config))%Z).

End WithRuntime.

(** The key and the columns that intake writes and nothing changes
    later, and the range of the two counters. *)
Record WellFormed (k : string) (row : Row.t) : Prop := {
  key_matches : Api.TX_HASH_REGEX k = true;
  key_lower_case : Js.toLowerCase k = k;
  domain_allowed : Row.source_domain row ∈ Api.VALID_SOURCE_DOMAINS;
  polls_counted : (0 <= Row.poll_attempts row)%Z;
  retries_counted : (0 <= Row.retry_count row)%Z
}.

(** How a row can differ from what it was earlier in a run. *)
Record Evolves (row row' : Row.t) : Prop := {
  same_domain : Row.source_domain row' = Row.source_domain row;
  same_creation : Row.created_at row' = Row.created_at row;
  along_edges : rtc edge (Row.status row) (Row.status row');
  polls_grow : (Row.poll_attempts row <= Row.poll_attempts row')%Z;
  retries_grow : (Row.retry_count row <= Row.retry_count row')%Z;
  final : Row.status row ∈ [Confirmed; Failed] -> row' = row
}.

End Lifecycle.

(** ** Sample data for the worked examples *)

Module Sample.

Definition hashA : string :=
  "0xaaaaaaaaaaaaaaaaaaaaaaaaaaaaaaaaaaaaaaaaaaaaaaaaaaaaaaaaaaaaaaaa".

(** The same hash as a client may send it. *)
Definition hashAUpper : string :=
  "0xAAAAAAAAAAAAAAAAAAAAAAAAAAAAAAAAAAAAAAAAAAAAAAAAAAAAAAAAAAAAAAAA".

Definition router : string := "0x1111111111111111111111111111111111111111".

(** [ethers.zeroPadValue(routerAddress, 32)] for [router]. *)
Definition routerPadded : string :=
  "0x0000000000000000000000001111111111111111111111111111111111111111".

Definition config : Config :=
  {| isTestnet := false;
     irisApiBaseUrl := "https://iris-api.circle.com";
     routerAddress := router;
     routerBytes32 := routerPadded;
     ethereumRpcUrl := "http://localhost:8545";
     relayerPrivateKey := "0x01";
     transmitterAddress := "0x2222222222222222222222222222222222222222";
     apiPort := 3000;
     pollCycleIntervalMs := 2000;
     attestationTimeoutMs := 1800000;
     maxRetries := 3;
     submitterPollIntervalMs := 2000;
     relayFee := 0;
     dbPath := "./data/relay.db" |}.

(** Stand-ins for [ethers.id] and [ethers.getAddress] in the examples:
    the signature itself as its discriminant, and the lower-case
    spelling of an address. *)
Definition signatureItself (signature : string) : string := signature.
Definition lowerSpelling (address : string) : string := address.

(** [new Date(iso).getTime()] on the timestamps of the examples, which
    are all of the minute [2025-01-15T10:30]. *)
Definition minuteStart (iso : string) : Z := 1736937000000.

(** A 248-byte message for destination domain 0, open caller, mint
    recipient [router], amount 42. *)
Definition message : list byte :=
  Ethers.zeroBytes 196 ++ repeat x11 20 ++ Ethers.zeroBytes 31 ++ [x2a].




(** A job that the poller has attested and nobody has submitted. *)
Definition attestedRow : Row.t :=
  {| Row.source_domain := 3;
     Row.attested_message := Some (Ethers.hexlify message);
     Row.attestation := Some "0xabcd";
     Row.iris_nonce := Some "7";
     Row.mint_recipient := Some router;
     Row.destination_domain := Some 0%N;
     Row.amount := Some "42";
     Row.eth_tx_hash := None;
     Row.eth_block_number := None;
     Row.status := Attested;
     Row.outcome := None;
     Row.error := None;
     Row.poll_attempts := 1;
     Row.retry_count := 0;
     Row.created_at := "2025-01-15T10:30:00.000Z";
     Row.attested_at := Some "2025-01-15T10:30:08.000Z";
     Row.submitted_at := None;
     Row.confirmed_at := None;
     Row.updated_at := "2025-01-15T10:30:08.000Z" |}.

(** The same job as a crash after the broadcast leaves it. *)
Definition submittedRow : Row.t :=
  {| Row.source_domain := 3;
     Row.attested_message := Some (Ethers.hexlify message);
     Row.attestation := Some "0xabcd";
     Row.iris_nonce := Some "7";
     Row.mint_recipient := Some router;
     Row.destination_domain := Some 0%N;
     Row.amount := Some "42";
     Row.eth_tx_hash := Some "0xbeef";
     Row.eth_block_number := None;
     Row.status := Submitted;
     Row.outcome := None;
     Row.error := None;
     Row.poll_attempts := 1;
     Row.retry_count := 0;
     Row.created_at := "2025-01-15T10:30:00.000Z";
     Row.attested_at := Some "2025-01-15T10:30:08.000Z";
     Row.submitted_at := Some "2025-01-15T10:30:14.000Z";
     Row.confirmed_at := None;
     Row.updated_at := "2025-01-15T10:30:14.000Z" |}.

(** [attestedRow] with other values in every column that
    [GET /relay/:txHash] leaves out. *)
Definition attestedRowOtherwise : Row.t :=
  {| Row.source_domain := 3;
     Row.attested_message := Some "0x00";
     Row.attestation := None;
     Row.iris_nonce := Some "8";
     Row.mint_recipient := None;
     Row.destination_domain := Some 5%N;
     Row.amount := Some "1000000";
     Row.eth_tx_hash := None;
     Row.eth_block_number := Some 12%Z;
     Row.status := Attested;
     Row.outcome := None;
     Row.error := None;
     Row.poll_attempts := 9;
     Row.retry_count := 2;
     Row.created_at := "2025-01-15T10:30:00.000Z";
     Row.attested_at := Some "2025-01-15T10:30:08.000Z";
     Row.submitted_at := None;
     Row.confirmed_at := None;
     Row.updated_at := "2025-01-15T10:30:59.000Z" |}.

(** The attestation API answers [200] with one complete message. *)
Definition attested : HttpResponse.t :=
  {| HttpResponse.status := 200;
     HttpResponse.json :=
       Resolved (Some [ {| IrisMessage.message := Ethers.hexlify message;
                           IrisMessage.attestation := "0xabcd";
                           IrisMessage.eventNonce := "7";
                           IrisMessage.status := "complete" |} ]) |}.

(** A job from intake to the point where its transaction is sent. *)
Definition untilSent : list Indexer.Event :=
  [Indexer.Post "2025-01-15T10:30:00.000Z" (Js.VInt 3) (Js.VString hashAUpper);
   Indexer.PollerRuns Poller.CycleStart;
   Indexer.PollerRuns (Poller.Visit "2025-01-15T10:30:02.000Z" 1736937002000);
   Indexer.PollerRuns (Poller.Fetched "2025-01-15T10:30:08.000Z" (Resolved attested));
   Indexer.SubmitterRuns Submitter.Wake;
   Indexer.SubmitterRuns
     (Submitter.GasEstimated "2025-01-15T10:30:10.000Z" (Resolved 250000%Z));
   Indexer.SubmitterRuns
     (Submitter.Sent "2025-01-15T10:30:14.000Z" (Resolved "0xbeef"))].

(** The transaction is mined with the given logs. *)
Definition mined (logs : list Log.t) : Indexer.Event :=
  Indexer.SubmitterRuns
    (Submitter.Mined "2025-01-15T10:30:26.000Z"
       (Resolved (Some {| Receipt.status := 1;
                          Receipt.blockNumber := 21000000;
                          Receipt.logs := logs |}))).

(** The row of [hashA] after the events [events] on an empty table. *)
Definition rowAfter (events : list Indexer.Event) : option Row.t :=
  Indexer.table
    (Indexer.exec signatureItself lowerSpelling minuteStart config events
       (Indexer.boot ∅)) !! hashA.

(** What happens around a row left [submitted] by a crash: the process
    starts, both loops run, a client posts the hash again. *)
Definition afterCrash : list Indexer.Event :=
  [Indexer.Restarted;
   Indexer.SubmitterRuns Submitter.Wake;
   Indexer.PollerRuns Poller.CycleStart;
   Indexer.PollerRuns (Poller.Visit "2025-01-15T10:31:02.000Z" 1736937062000);
   Indexer.Post "2025-01-15T10:31:03.000Z" (Js.VInt 3) (Js.VString hashAUpper);
   Indexer.SubmitterRuns Submitter.Wake].

(** Thirty-one calls at time 0 on the limiter of the indexer, then one
    more when the thirty-first has returned. *)
Definition burstThenWait : list TokenBucket.Event :=
  repeat (TokenBucket.Enter 0) 31
  ++ [TokenBucket.TimerFires 34; TokenBucket.Enter 34;
      TokenBucket.TimerFires 67].

Definition relayedLog : Log.t :=
  {| Log.topics := [Abis.RELAYED_TOPIC0 signatureItself; "0x03"] |}.

Definition recoveredLog : Log.t :=
  {| Log.topics := [Abis.RECOVERED_FROM_CONSUMED_NONCE_TOPIC0 signatureItself] |}.

End Sample.


(** ** More sample data *)

Module MoreSamples.

Definition hashB : string :=
  "0xbbbbbbbbbbbbbbbbbbbbbbbbbbbbbbbbbbbbbbbbbbbbbbbbbbbbbbbbbbbbbbbb".

(** A job taken in half a second after [Sample.attestedRow] was
    created, not polled yet. *)
Definition pendingRow : Row.t :=
  Store.jobToRow (Api.newJob "2025-01-15T10:30:00.500Z" hashB 6).

Definition twoJobs : Store :=
  {[Sample.hashA := Sample.attestedRow; hashB := pendingRow]}.





(** The job of [Sample.attestedRow] as [getOldestByStatus] returns
    it. *)
Definition attestedJob : RelayJob :=
  Store.rowToJob Sample.hashA Sample.attestedRow.

(** A receipt of a transaction that did not revert, with one
    [Relayed] log. *)
Definition receipt : Receipt.t :=
  {| Receipt.status := 1; Receipt.blockNumber := 21000000;
     Receipt.logs := [Sample.relayedLog] |}.

(** A job from intake to confirmation. *)
Definition untilConfirmed : list Indexer.Event :=
  Sample.untilSent ++ [Sample.mined [Sample.relayedLog]].

End MoreSamples.

(** ** Proof steps that recur *)

(** Membership of a status in a literal list of statuses, possibly after
    an update of the row has been computed. *)
Ltac status_in :=
  simpl; intros; rewrite ?elem_of_cons, ?elem_of_nil in *;
  intuition congruence.

(** An update that leaves a [NULL] outcome in place. *)
Ltac outcome_kept :=
  let row := fresh "row" in
  let Hnone := fresh "Hnone" in
  intros row Hnone; simpl; rewrite ?Hnone; done.


(** * Properties *)

(** ** Strings and byte strings *)

Module StringFacts.

Lemma append_cons c s t : String c s +:+ t = String c (s +:+ t).
Proof. reflexivity. Qed.

Lemma append_nil s : "" +:+ s = s.
Proof. reflexivity. Qed.

End StringFacts.

(** ** The intake and query endpoints *)

Module ApiFacts.
Import Api.

Lemma allChars_spec p s :
  Js.allChars p s = true <->
  forall c, In c (list_ascii_of_string s) -> p c = true.
Proof.
  induction s as [|a r IH]; simpl.
  - split; [intros _ c []|done].
  - rewrite andb_true_iff, IH. split.
    + intros [Ha Hr] c [<-|Hc]; auto.
    + intros H. split; [apply H; auto|]. intros c Hc. apply H. auto.
Qed.

Lemma TX_HASH_REGEX_spec s :
  TX_HASH_REGEX s = true <-> MatchesTxHashRegex s.
Proof.
  unfold TX_HASH_REGEX, MatchesTxHashRegex. split.
  - destruct s as [|a [|b digits]]; try discriminate;
      try (destruct a as [[] [] [] [] [] [] [] []]; discriminate).
    destruct (ascii_dec a "0") as [->|Ha];
      [|destruct a as [[] [] [] [] [] [] [] []]; try discriminate; done].
    destruct (ascii_dec b "x") as [->|Hb];
      [|destruct b as [[] [] [] [] [] [] [] []]; try discriminate; done].
    rewrite andb_true_iff, Nat.eqb_eq, allChars_spec.
    intros [Hlen Hall]. exists digits. done.
  - intros (digits & -> & Hlen & Hall). simpl.
    rewrite andb_true_iff, Nat.eqb_eq, allChars_spec. done.
Qed.

Lemma postRelay_invalid_domain now sd tx s :
  sourceDomainOk sd = None ->
  postRelay now sd tx s =
    ({| code := 400; body := [("error", JString "Invalid sourceDomain")] |}, s).
Proof. unfold postRelay. by intros ->. Qed.

Lemma postRelay_invalid_hash now sd tx s :
  txHashOk tx = None ->
  code (postRelay now sd tx s).1 = 400%nat /\ (postRelay now sd tx s).2 = s.
Proof.
  unfold postRelay. intros ->. by destruct (sourceDomainOk sd).
Qed.

Lemma postRelay_existing now domain tx s row :
  domain ∈ VALID_SOURCE_DOMAINS ->
  TX_HASH_REGEX tx = true ->
  s !! Js.toLowerCase tx = Some row ->
  postRelay now (Js.VInt domain) (Js.VString tx) s =
    ({| code := 200;
        body := [("txHash", JString (Js.toLowerCase tx));
                 ("status", JString (statusName (Row.status row)));
                 ("message", JString "Relay job already exists.")] |}, s).
Proof.
  intros Hd Hr Hrow. unfold postRelay, sourceDomainOk, txHashOk, Store.getJob.
  rewrite bool_decide_eq_true_2 by done. rewrite Hr, Hrow. done.
Qed.

Lemma postRelay_fresh now domain tx s :
  domain ∈ VALID_SOURCE_DOMAINS ->
  TX_HASH_REGEX tx = true ->
  s !! Js.toLowerCase tx = None ->
  postRelay now (Js.VInt domain) (Js.VString tx) s =
    ({| code := 201;
        body := [("txHash", JString (Js.toLowerCase tx));
                 ("status", JString "pending");
                 ("message",
                  JString "Relay job created. Poll GET /relay/:txHash for status.")] |},
     <[Js.toLowerCase tx :=
         Store.jobToRow (newJob now (Js.toLowerCase tx) domain)]> s).
Proof.
  intros Hd Hr Hrow.
  unfold postRelay, sourceDomainOk, txHashOk, Store.getJob, Store.createJob.
  rewrite bool_decide_eq_true_2 by done. rewrite Hr. simpl. rewrite Hrow. done.
Qed.

(** Replaying an intake request whose row exists changes nothing and is
    answered [200] every time. *)
Lemma postRelayRepeated_existing times domain tx s row :
  domain ∈ VALID_SOURCE_DOMAINS ->
  TX_HASH_REGEX tx = true ->
  s !! Js.toLowerCase tx = Some row ->
  postRelayRepeated times (Js.VInt domain) (Js.VString tx) s =
    (replicate (length times)
       {| code := 200;
          body := [("txHash", JString (Js.toLowerCase tx));
                   ("status", JString (statusName (Row.status row)));
                   ("message", JString "Relay job already exists.")] |}, s).
Proof.
  intros Hd Hr Hrow. induction times as [|now later IH]; simpl; [done|].
  rewrite (postRelay_existing now _ _ _ row), IH by done. done.
Qed.

End ApiFacts.



(** ** The store *)

Module StoreFacts.
Import Store.

Lemma updateJob_lookup now k updates (s : Store) row :
  s !! k = Some row ->
  updateJob now k updates s !! k = Some (applyUpdates now updates row).
Proof. intros H. unfold updateJob. rewrite H. apply lookup_insert_eq. Qed.

Lemma updateJob_lookup_ne now k k' updates (s : Store) :
  k ≠ k' -> updateJob now k updates s !! k' = s !! k'.
Proof.
  intros H. unfold updateJob. destruct (s !! k); [|done].
  by apply lookup_insert_ne.
Qed.

Lemma updateJob_absent now k updates (s : Store) :
  s !! k = None -> updateJob now k updates s = s.
Proof. intros H. unfold updateJob. by rewrite H. Qed.

Lemma elem_of_jobs (s : Store) job :
  job ∈ jobs s <->
  exists row, s !! txHash job = Some row /\ job = rowToJob (txHash job) row.
Proof.
  unfold jobs. rewrite list_elem_of_fmap. split.
  - intros [[k row] [-> Hin]]. apply elem_of_map_to_list in Hin.
    exists row. done.
  - intros (row & Hrow & Hjob). exists (txHash job, row). split; [done|].
    by apply elem_of_map_to_list.
Qed.

Lemma NoDup_jobs (s : Store) : NoDup (txHash <$> jobs s).
Proof.
  unfold jobs. rewrite <- list_fmap_compose.
  apply (NoDup_fst_map_to_list s).
Qed.

Lemma selectByStatus_sublist statuses (s : Store) :
  exists l, selectByStatus statuses s ≡ₚ l /\ l `sublist_of` jobs s.
Proof.
  eexists. split; [apply merge_sort_Permutation|]. apply sublist_filter.
Qed.

Lemma elem_of_selectByStatus statuses (s : Store) job :
  job ∈ selectByStatus statuses s ->
  exists row, s !! txHash job = Some row /\ Row.status row ∈ statuses /\
              job = rowToJob (txHash job) row.
Proof.
  unfold selectByStatus. rewrite merge_sort_Permutation.
  rewrite list_elem_of_filter, elem_of_jobs.
  intros [Hst (row & Hrow & Hjob)]. exists row. split; [done|].
  split; [|done]. rewrite Hjob in Hst. done.
Qed.

Lemma NoDup_getJobsByStatus statuses limit (s : Store) :
  NoDup (txHash <$> getJobsByStatus statuses limit s).
Proof.
  unfold getJobsByStatus.
  eapply sublist_NoDup; [|apply fmap_sublist, sublist_take].
  destruct (selectByStatus_sublist statuses s) as (l & Hp & Hl).
  rewrite Hp. eapply sublist_NoDup; [|by apply fmap_sublist].
  apply NoDup_jobs.
Qed.

Lemma elem_of_getJobsByStatus statuses limit (s : Store) job :
  job ∈ getJobsByStatus statuses limit s ->
  exists row, s !! txHash job = Some row /\ Row.status row ∈ statuses.
Proof.
  intros Hin. eapply elem_of_sublist in Hin; [|apply sublist_take].
  apply elem_of_selectByStatus in Hin as (row & ? & ? & _). eauto.
Qed.

Lemma getOldestByStatus_Some st (s : Store) job :
  getOldestByStatus st s = Some job ->
  exists row, s !! txHash job = Some row /\ Row.status row = st.
Proof.
  unfold getOldestByStatus. intros H.
  apply head_Some_elem_of in H.
  eapply elem_of_sublist in H; [|apply sublist_take].
  apply elem_of_selectByStatus in H as (row & ? & Hst & _).
  exists row. split; [done|]. by apply list_elem_of_singleton in Hst.
Qed.

(** Without a row in status [st] there is nothing to select. *)
Lemma getOldestByStatus_None st (s : Store) :
  (forall k row, s !! k = Some row -> Row.status row ≠ st) ->
  getOldestByStatus st s = None.
Proof.
  intros H. destruct (getOldestByStatus st s) as [job|] eqn:E; [|done].
  apply getOldestByStatus_Some in E as (row & Hrow & Hst).
  by destruct (H _ _ Hrow).
Qed.

End StoreFacts.


(** ** The two loops and the intake on one table *)

Module IndexerFacts.
Import Indexer Invariant StoreFacts.

Lemma rowStatusIn_update_other now k k' updates s sts sts' :
  rowStatusIn s sts k ->
  rowStatusIn s sts' k' ->
  (forall st, st ∈ sts -> st ∈ sts' -> False) ->
  rowStatusIn (Store.updateJob now k updates s) sts' k'.
Proof.
  intros (row & Hrow & Hst) (row' & Hrow' & Hst') Hdisj.
  exists row'. split; [|done]. rewrite updateJob_lookup_ne; [done|].
  intros ->. rewrite Hrow in Hrow'. injection Hrow' as ->. eauto.
Qed.

Lemma rowStatusIn_update_ne now k k' updates s sts :
  k ≠ k' ->
  rowStatusIn s sts k' ->
  rowStatusIn (Store.updateJob now k updates s) sts k'.
Proof.
  intros Hne (row & Hrow & Hst). exists row.
  by rewrite updateJob_lookup_ne.
Qed.

Lemma rowStatusIn_update_same now k updates s sts sts' :
  rowStatusIn s sts k ->
  (forall row, Row.status row ∈ sts ->
               Row.status (Store.applyUpdates now updates row) ∈ sts') ->
  rowStatusIn (Store.updateJob now k updates s) sts' k.
Proof.
  intros (row & Hrow & Hst) H. eexists. split; [by apply updateJob_lookup|].
  by apply H.
Qed.

Lemma held_rest_update now job rest updates s sts :
  NoDup (txHash <$> job :: rest) ->
  Forall (fun j => rowStatusIn s sts (txHash j)) rest ->
  Forall (fun j => rowStatusIn (Store.updateJob now (txHash job) updates s)
                     sts (txHash j)) rest.
Proof.
  rewrite fmap_cons, NoDup_cons. intros [Hnotin _] Hall.
  apply Forall_forall. intros j Hj.
  apply rowStatusIn_update_ne; [|by eapply Forall_forall in Hall].
  intros Heq. apply Hnotin. rewrite Heq. by apply list_elem_of_fmap_2.
Qed.

Lemma submitterHolds_update now k updates s phase :
  rowStatusIn s [Pending; Polling] k ->
  submitterHolds s phase ->
  submitterHolds (Store.updateJob now k updates s) phase.
Proof.
  intros Hk. destruct phase; simpl; [done|..];
    intros H; (eapply rowStatusIn_update_other; [exact Hk|exact H|]);
    status_in.
Qed.

Lemma pollerHeld_update now k updates s held :
  rowStatusIn s [Attested; Submitted] k ->
  Forall (fun j => rowStatusIn s [Pending; Polling] (txHash j)) held ->
  Forall (fun j => rowStatusIn (Store.updateJob now k updates s)
                     [Pending; Polling] (txHash j)) held.
Proof.
  intros Hk Hall. eapply Forall_impl; [exact Hall|]. intros j H.
  eapply rowStatusIn_update_other; [exact Hk|exact H|]. status_in.
Qed.

Lemma rowStatusIn_weaken s sts sts' k :
  rowStatusIn s sts k -> (forall st, st ∈ sts -> st ∈ sts') ->
  rowStatusIn s sts' k.
Proof. intros (row & Hrow & Hst) Hsub. exists row. auto. Qed.

(** What [POST /relay] does to the table: nothing, or one new row. *)
Lemma postRelay_table now a b (s : Store) :
  (Api.postRelay now a b s).2 = s \/
  exists k domain,
    s !! k = None /\
    (Api.postRelay now a b s).2 = <[k := Store.jobToRow (Api.newJob now k domain)]> s.
Proof.
  unfold Api.postRelay.
  destruct (Api.sourceDomainOk a) as [domain|]; [|by left].
  destruct (Api.txHashOk b) as [tx|]; [|by left].
  unfold Store.getJob, Store.createJob. simpl.
  destruct (s !! Js.toLowerCase tx) eqn:E; simpl; [by left|].
  right. exists (Js.toLowerCase tx), domain. done.
Qed.

Lemma rowStatusIn_insert_fresh (s : Store) k row sts k' :
  s !! k = None -> rowStatusIn s sts k' -> rowStatusIn (<[k := row]> s) sts k'.
Proof.
  intros Hk (row' & Hrow' & Hst). exists row'. split; [|done].
  rewrite lookup_insert_ne; [done|]. intros ->. congruence.
Qed.

Section WithRuntime.
Variable id : string -> string.
Variable getAddress : string -> string.
Variable getTime : string -> Z.
Variable config : Config.

Lemma owned_boot s : Owned (boot s).
Proof. repeat split; simpl; [apply NoDup_nil_2|apply Forall_nil_2]. Qed.

Lemma owned_post now a b sys :
  Owned sys -> Owned (run id getAddress getTime config (Post now a b) sys).
Proof.
  intros (Hnd & Hall & Hsub). unfold Owned. simpl.
  destruct (postRelay_table now a b (table sys)) as [->|(k & d & Hk & ->)];
    [done|].
  split; [done|]. split.
  - eapply Forall_impl; [exact Hall|]. intros j.
    by apply rowStatusIn_insert_fresh.
  - destruct (submitter sys); simpl in *; try done;
      by apply rowStatusIn_insert_fresh.
Qed.

Lemma owned_poller e sys :
  Owned sys -> Owned (run id getAddress getTime config (PollerRuns e) sys).
Proof.
  destruct sys as [s phase sub]. intros (Hnd & Hall & Hsub).
  unfold Owned, run in *. simpl in *.
  destruct phase as [|[|job rest]|job rest], e as [|now nowMs|now fetched];
    simpl in *; try done.
  - (* the top of a cycle *)
    split; [apply NoDup_getJobsByStatus|]. split; [|done].
    apply Forall_forall. intros j Hj.
    apply elem_of_getJobsByStatus in Hj as (row & ? & ?). by exists row.
  - (* the head of the loop *)
    apply Forall_cons in Hall as [Hjob Hrest].
    destruct (_ <? _)%Z; simpl.
    + split; [by apply NoDup_cons in Hnd as [_ ?]|]. split.
      * by apply held_rest_update.
      * by apply submitterHolds_update.
    + split; [done|]. case_bool_decide.
      * split; [|by apply submitterHolds_update].
        apply Forall_cons. split; [|by apply held_rest_update].
        eapply rowStatusIn_update_same; [exact Hjob|]. status_in.
      * split; [|done]. by apply Forall_cons.
  - (* after [pollForAttestation] *)
    apply Forall_cons in Hall as [Hjob Hrest].
    assert (NoDup (txHash <$> rest)) as Hnd' by (by apply NoDup_cons in Hnd as [_ ?]).
    destruct (Poller.pollForAttestation fetched) as [[result|]|message]; simpl.
    + destruct (Validator.validateAttestedMessage _ _ _ _) as [[warned v]|];
        simpl; [|done].
      destruct (negb _); simpl;
        (split; [done|]); (split; [by apply held_rest_update
                                  |by apply submitterHolds_update]).
    + split; [done|]. split; [by apply held_rest_update
                             |by apply submitterHolds_update].
    + destruct (String.eqb _ _); simpl; [|done].
      split; [apply NoDup_nil_2|]. split; [apply Forall_nil_2|done].
Qed.

Lemma submitter_onFailure_holds now job message s sts :
  rowStatusIn s sts (txHash job) ->
  rowStatusIn (Submitter.onFailure config now job message s)
              (Failed :: sts) (txHash job).
Proof.
  intros H. unfold Submitter.onFailure.
  destruct (Submitter.terminal message); [|destruct (_ <=? _)%Z];
    (eapply rowStatusIn_update_same; [exact H|]); status_in.
Qed.

Lemma owned_onFailure now job message s held sts :
  rowStatusIn s sts (txHash job) ->
  (forall st, st ∈ sts -> st ∈ [Attested; Submitted]) ->
  Forall (fun j => rowStatusIn s [Pending; Polling] (txHash j)) held ->
  Forall (fun j => rowStatusIn (Submitter.onFailure config now job message s)
                     [Pending; Polling] (txHash j)) held.
Proof.
  intros H Hsts Hall. unfold Submitter.onFailure.
  destruct (Submitter.terminal message); [|destruct (_ <=? _)%Z];
    (apply pollerHeld_update; [|done]); by eapply rowStatusIn_weaken.
Qed.

Lemma owned_submitter e sys :
  Owned sys -> Owned (run id getAddress getTime config (SubmitterRuns e) sys).
Proof.
  destruct sys as [s pphase phase]. intros (Hnd & Hall & Hsub).
  unfold Owned, run in *. simpl in *.
  destruct phase as [|job|job gas|job hash],
           e as [|now [g|m]|now [h|m]|now [[receipt|]|m]];
    simpl in *; try done.
  - (* the top of an iteration *)
    destruct (Store.getOldestByStatus Attested s) as [job|] eqn:E; simpl;
      [|done].
    split; [done|]. split; [done|].
    apply getOldestByStatus_Some in E as (row & ? & Hst).
    exists row. split; [done|]. rewrite Hst. status_in.
  - (* gas estimation failed *)
    split; [done|]. split; [|done].
    eapply owned_onFailure; [exact Hsub| |done]. status_in.
  - (* sent *)
    split; [done|]. split.
    + apply pollerHeld_update; [|done].
      eapply rowStatusIn_weaken; [exact Hsub|]. status_in.
    + eapply rowStatusIn_update_same; [exact Hsub|]. status_in.
  - (* sending failed *)
    split; [done|]. split; [|done].
    eapply owned_onFailure; [exact Hsub| |done]. status_in.
  - (* mined *)
    destruct (_ =? _)%Z; simpl.
    + split; [done|]. split; [|done].
      eapply owned_onFailure; [exact Hsub| |done]. status_in.
    + destruct (Submitter.determineOutcome _ _ _) as [o w]. simpl.
      split; [done|]. split; [|done].
      apply pollerHeld_update; [|done].
      eapply rowStatusIn_weaken; [exact Hsub|]. status_in.
  - split; [done|]. split; [|done].
    eapply owned_onFailure; [exact Hsub| |done]. status_in.
  - split; [done|]. split; [|done].
    eapply owned_onFailure; [exact Hsub| |done]. status_in.
Qed.

Lemma owned_run e sys :
  Owned sys -> Owned (run id getAddress getTime config e sys).
Proof.
  destruct e.
  - apply owned_post.
  - apply owned_poller.
  - apply owned_submitter.
  - intros _. apply owned_boot.
Qed.

(** *** A non-null outcome only on confirmed rows *)

Lemma outcome_update_held now k updates s sts :
  OutcomeOnlyIfConfirmed s ->
  rowStatusIn s sts k ->
  Confirmed ∉ sts ->
  (forall row, Row.outcome row = None ->
     Row.outcome (Store.applyUpdates now updates row) ≠ None ->
     Row.status (Store.applyUpdates now updates row) = Confirmed) ->
  OutcomeOnlyIfConfirmed (Store.updateJob now k updates s).
Proof.
  intros Hinv (row & Hrow & Hst) Hnot Hupd k' row' Hlook.
  destruct (decide (k = k')) as [<-|Hne].
  - rewrite (updateJob_lookup _ _ _ _ row) in Hlook by done.
    injection Hlook as <-. apply Hupd.
    destruct (Row.outcome row) eqn:E; [|done].
    exfalso. apply Hnot.
    assert (Row.status row = Confirmed) as Hc
      by (apply (Hinv k); [done|by rewrite E]).
    by rewrite <- Hc.
  - rewrite updateJob_lookup_ne in Hlook by done.
    exact (Hinv k' row' Hlook).
Qed.

Lemma outcome_onFailure now job message s sts :
  OutcomeOnlyIfConfirmed s ->
  rowStatusIn s sts (txHash job) ->
  Confirmed ∉ sts ->
  OutcomeOnlyIfConfirmed (Submitter.onFailure config now job message s).
Proof.
  intros Hinv Hheld Hnot. unfold Submitter.onFailure.
  destruct (Submitter.terminal message); [|destruct (_ <=? _)%Z];
    (eapply outcome_update_held; [done|exact Hheld|done|outcome_kept]).
Qed.

Lemma outcome_run e sys :
  Owned sys ->
  OutcomeOnlyIfConfirmed (table sys) ->
  OutcomeOnlyIfConfirmed (table (run id getAddress getTime config e sys)).
Proof.
  destruct sys as [s pphase sphase]. intros (Hnd & Hall & Hsub) Hinv.
  simpl in *.
  assert (forall sts : list RelayStatus,
            (forall st, st ∈ sts -> st ≠ Confirmed) -> Confirmed ∉ sts)
    as Hno by (intros sts H Hin; by apply (H _ Hin)).
  destruct e as [now a b|pe|se|]; simpl; [| | |done].
  - destruct (postRelay_table now a b s) as [->|(k & d & Hk & ->)]; [done|].
    intros k' row'. destruct (decide (k = k')) as [<-|Hne].
    + rewrite lookup_insert_eq. intros [= <-]. simpl. done.
    + rewrite lookup_insert_ne by done. exact (Hinv k' row').
  - destruct pphase as [|[|job rest]|job rest], pe as [|now nowMs|now fetched];
      simpl in *; try done.
    + apply Forall_cons in Hall as [Hjob _].
      destruct (_ <? _)%Z; simpl; [|case_bool_decide; [|done]];
        (eapply outcome_update_held;
           [done|exact Hjob|apply Hno; status_in|outcome_kept]).
    + apply Forall_cons in Hall as [Hjob _].
      destruct (Poller.pollForAttestation fetched) as [[result|]|message]; simpl.
      * destruct (Validator.validateAttestedMessage _ _ _ _) as [[warned v]|];
          simpl; [|done].
        destruct (negb _); simpl;
          (eapply outcome_update_held;
             [done|exact Hjob|apply Hno; status_in|outcome_kept]).
      * eapply outcome_update_held;
          [done|exact Hjob|apply Hno; status_in|outcome_kept].
      * by destruct (String.eqb _ _).
  - destruct sphase as [|job|job gas|job hash],
             se as [|now [g|m]|now [h|m]|now [[receipt|]|m]];
      simpl in *; try done;
      try (eapply outcome_onFailure; [done|exact Hsub|apply Hno; status_in]).
    + by destruct (Store.getOldestByStatus Attested s).
    + eapply outcome_update_held;
        [done|exact Hsub|apply Hno; status_in|outcome_kept].
    + destruct (_ =? _)%Z; simpl.
      * eapply outcome_onFailure; [done|exact Hsub|apply Hno; status_in].
      * destruct (Submitter.determineOutcome _ _ _) as [o w]. simpl.
        eapply outcome_update_held; [done|exact Hsub|apply Hno; status_in|].
        intros row _ _. done.
Qed.

(** *** A row left in [submitted] is never written again *)

Lemma held_elsewhere (s : Store) k row sts k' :
  s !! k = Some row ->
  rowStatusIn s sts k' ->
  Row.status row ∉ sts ->
  k' ≠ k.
Proof.
  intros Hrow (row' & Hrow' & Hst) Hnot ->.
  rewrite Hrow in Hrow'. injection Hrow' as <-. done.
Qed.

Lemma onFailure_lookup_ne now job message s k :
  txHash job ≠ k ->
  Submitter.onFailure config now job message s !! k = s !! k.
Proof.
  intros Hne. unfold Submitter.onFailure.
  destruct (Submitter.terminal message); [|destruct (_ <=? _)%Z];
    by apply updateJob_lookup_ne.
Qed.

Lemma stranded_run e sys k row :
  Owned sys ->
  table sys !! k = Some row ->
  Row.status row = Submitted ->
  notAwaited k (submitter sys) ->
  table (run id getAddress getTime config e sys) !! k = Some row /\
  notAwaited k (submitter (run id getAddress getTime config e sys)).
Proof.
  destruct sys as [s pphase sphase].
  intros (Hnd & Hall & Hsub) Hrow Hst Hna. simpl in *.
  assert (forall sts k', rowStatusIn s sts k' ->
            (forall st, st ∈ sts -> st ≠ Submitted) -> k' ≠ k) as Hne.
  { intros sts k' Hheld Hsts. eapply held_elsewhere; [done..|].
    rewrite Hst. intros Hin. by apply (Hsts _ Hin). }
  destruct e as [now a b|pe|se|]; simpl; [| | |done].
  - split; [|done].
    destruct (postRelay_table now a b s) as [->|(k' & d & Hk' & ->)]; [done|].
    rewrite lookup_insert_ne; [done|]. intros ->. congruence.
  - destruct pphase as [|[|job rest]|job rest], pe as [|now nowMs|now fetched];
      simpl in *; try done.
    + apply Forall_cons in Hall as [Hjob _].
      assert (txHash job ≠ k) by (eapply Hne; [exact Hjob|status_in]).
      destruct (_ <? _)%Z; simpl; [|case_bool_decide; [|done]];
        by rewrite updateJob_lookup_ne.
    + apply Forall_cons in Hall as [Hjob _].
      assert (txHash job ≠ k) by (eapply Hne; [exact Hjob|status_in]).
      destruct (Poller.pollForAttestation fetched) as [[result|]|message]; simpl.
      * destruct (Validator.validateAttestedMessage _ _ _ _) as [[warned v]|];
          simpl; [|done].
        destruct (negb _); simpl; by rewrite updateJob_lookup_ne.
      * by rewrite updateJob_lookup_ne.
      * by destruct (String.eqb _ _).
  - destruct sphase as [|job|job gas|job hash],
             se as [|now [g|m]|now [h|m]|now [[receipt|]|m]];
      simpl in *; try done;
      try (assert (txHash job ≠ k) by (eapply Hne; [exact Hsub|status_in]));
      try by rewrite onFailure_lookup_ne.
    + by destruct (Store.getOldestByStatus Attested s).
    + by rewrite updateJob_lookup_ne.
    + destruct (_ =? _)%Z; simpl; [by rewrite onFailure_lookup_ne|].
      destruct (Submitter.determineOutcome _ _ _) as [o w]. simpl.
      by rewrite updateJob_lookup_ne.
Qed.

Lemma exec_app events1 events2 sys :
  exec id getAddress getTime config (events1 ++ events2) sys =
  exec id getAddress getTime config events2
    (exec id getAddress getTime config events1 sys).
Proof. unfold exec. apply foldl_app. Qed.

Lemma owned_exec events sys :
  Owned sys -> Owned (exec id getAddress getTime config events sys).
Proof.
  revert sys. induction events as [|e events IH]; intros sys H; [done|].
  simpl. apply IH. by apply owned_run.
Qed.

Lemma outcome_exec events sys :
  Owned sys ->
  OutcomeOnlyIfConfirmed (table sys) ->
  OutcomeOnlyIfConfirmed
    (table (exec id getAddress getTime config events sys)).
Proof.
  revert sys. induction events as [|e events IH]; intros sys Ho Hi; [done|].
  simpl. apply IH; [by apply owned_run|by apply outcome_run].
Qed.

Lemma stranded_exec events sys k row :
  Owned sys ->
  table sys !! k = Some row ->
  Row.status row = Submitted ->
  notAwaited k (submitter sys) ->
  table (exec id getAddress getTime config events sys) !! k = Some row.
Proof.
  revert sys. induction events as [|e events IH]; intros sys Ho Hr Hs Hn;
    [done|].
  simpl. destruct (stranded_run e sys k row) as [Hr' Hn']; [done..|].
  apply IH; [by apply owned_run|done..].
Qed.

End WithRuntime.

End IndexerFacts.


(** ** The submitter's classifiers *)

Module SubmitterFacts.
Import Submitter StringFacts.


(** [includes] is the substring test. *)
Lemma prefix_spec sub s :
  String.prefix sub s = true <-> exists post, s = sub +:+ post.
Proof.
  revert s. induction sub as [|c sub IH]; intros s.
  - split; [intros _; by exists s|by destruct s].
  - destruct s as [|d s]; simpl; [split; [done|intros [post [=]]]|].
    destruct (ascii_dec c d) as [->|Hne].
    + rewrite IH. split; intros [post H]; exists post;
        rewrite append_cons in *; congruence.
    + split; [done|]. intros [post H]. rewrite append_cons in H. congruence.
Qed.

Lemma includes_spec s sub :
  Js.includes s sub = true <-> exists pre post, s = pre +:+ sub +:+ post.
Proof.
  induction s as [|c s IH]; cbn [Js.includes].
  - rewrite orb_false_r, prefix_spec. split.
    + intros [post H]. by exists "", post.
    + intros (pre & post & H). destruct pre; [by exists post|done].
  - rewrite orb_true_iff, prefix_spec, IH. split.
    + intros [[post H]|(pre & post & H)].
      * by exists "", post.
      * exists (String c pre), post. rewrite append_cons. by rewrite H.
    + intros (pre & post & H). destruct pre as [|d pre].
      * left. by exists post.
      * right. exists pre, post. rewrite append_cons in H. congruence.
Qed.




(** A failure is terminal exactly when its message has one of the five
    fixed substrings. *)
Lemma terminal_spec message :
  terminal message = true <->
  exists marker,
    marker ∈ ["transfer settled"; "Nonce already used";
              "invalid destinationDomain"; "invalid destinationCaller";
              "invalid mintRecipient"] /\
    exists pre post, message = pre +:+ marker +:+ post.
Proof.
  unfold terminal. rewrite !orb_true_iff, !includes_spec. split.
  - intros [[[[H|H]|H]|H]|H]; eexists; (split; [|exact H]);
      rewrite !elem_of_cons; auto 10.
  - intros (marker & Hin & H). rewrite !elem_of_cons, elem_of_nil in Hin.
    destruct Hin as [->|[->|[->|[->|[->|[]]]]]]; auto 10.
Qed.

(** What the [catch] block writes to the row of the job. *)
Lemma onFailure_row config now job message (s : Store) row :
  s !! txHash job = Some row ->
  exists row',
    onFailure config now job message s !! txHash job = Some row' /\
    Row.error row' = Some message /\
    Row.retry_count row' = (retryCount job + 1)%Z /\
    Row.outcome row' = Row.outcome row /\
    Row.status row' =
      if terminal message then Failed
      else if (maxRetries config <=? retryCount job + 1)%Z then Failed
      else Row.status row.
Proof.
  intros Hrow. unfold onFailure.
  destruct (terminal message); [|destruct (_ <=? _)%Z];
    (eexists; split; [by apply StoreFacts.updateJob_lookup|done]).
Qed.

End SubmitterFacts.


(** ** The validator *)

Module ValidatorFacts.
Import StringFacts Ethers.













Section WithEthers.
Variable getAddress : string -> string.


End WithEthers.

End ValidatorFacts.


(** ** The token bucket *)

Module BucketFacts.
Import TokenBucket BucketInvariant.
Local Open Scope Q_scope.

Lemma count_S n : count (S n) == count n + 1.
Proof.
  unfold count. rewrite Nat2Z.inj_succ, <- Z.add_1_r, inject_Z_plus. reflexivity.
Qed.

Lemma count_le n m : (n <= m)%nat -> count n <= count m.
Proof. intros H. unfold count. rewrite <- Zle_Qle. lia. Qed.

Lemma count_0 : count 0 == 0.
Proof. reflexivity. Qed.

Lemma inject_Z_sub a b : inject_Z (a - b) = inject_Z a - inject_Z b.
Proof. unfold Z.sub. rewrite inject_Z_plus, inject_Z_opp. reflexivity. Qed.

Lemma inflow_spec R t1 t2 : inject_Z (t2 - t1) / 1000 * R == inflow R t1 t2.
Proof. unfold inflow. rewrite inject_Z_sub. field. Qed.

Lemma inflow_nonneg R t1 t2 : 0 < R -> (t1 <= t2)%Z -> 0 <= inflow R t1 t2.
Proof.
  intros HR H. unfold inflow. rewrite Zle_Qle in H. nra.
Qed.

Lemma inflow_split R t1 t2 t3 :
  inflow R t1 t3 == inflow R t1 t2 + inflow R t2 t3.
Proof. unfold inflow. ring. Qed.

Lemma refill_tokens now b :
  tokens (refill now b) ==
    Qmin (maxTokens b) (tokens b + inflow (refillRate b) (lastRefill b) now).
Proof. unfold refill. simpl. by rewrite inflow_spec. Qed.

Lemma since_cons_in from at_ instants :
  (from <= at_)%Z -> since from (at_ :: instants) = S (since from instants).
Proof. intros H. unfold since. rewrite filter_cons. by rewrite decide_True. Qed.

Lemma since_cons_out from at_ instants :
  ~ (from <= at_)%Z -> since from (at_ :: instants) = since from instants.
Proof. intros H. unfold since. rewrite filter_cons. by rewrite decide_False. Qed.

Lemma since_before from instants clock :
  Forall (fun at_ => (at_ <= clock)%Z) instants ->
  (clock < from)%Z -> since from instants = 0%nat.
Proof.
  intros Hall Hlt. unfold since.
  induction Hall as [|at_ l Hat _ IH]; [done|].
  rewrite filter_cons, decide_False by lia. done.
Qed.

Lemma within_since from to instants :
  Forall (fun at_ => (at_ <= to)%Z) instants ->
  length (filter (fun at_ => (from <= at_ <= to)%Z) instants) =
  since from instants.
Proof.
  intros Hall. unfold since. induction Hall as [|at_ l Hat _ IH]; [done|].
  rewrite !filter_cons.
  destruct (decide (from <= at_)%Z).
  - rewrite decide_True by lia. simpl. by rewrite IH.
  - by rewrite decide_False by lia.
Qed.

Section Window.
Variables B R : Q.
Variables from to : Z.
Hypothesis burst : 1 <= B.
Hypothesis rate : 0 < R.
Hypothesis window : (from <= to)%Z.

Lemma holds_start now : Holds B R from to (start B R now).
Proof.
  split; simpl; try done.
  - lra.
  - lra.
  - by left.
  - intros H. pose proof (inflow_nonneg R from now rate H).
    rewrite count_0. lra.
  - unfold returnsWithin. simpl. rewrite count_0.
    pose proof (inflow_nonneg R from to rate window). lra.
Qed.

(** The clock moves on to [now] and the bucket is refilled. *)
Lemma refill_facts r now :
  Holds B R from to r ->
  (clock r <= now)%Z ->
  let b1 := refill now (bucket r) in
  0 <= tokens b1 /\ tokens b1 <= B /\
  tokens b1 <= tokens (bucket r) + inflow R (clock r) now /\
  (B <= tokens (bucket r) + inflow R (clock r) now -> tokens b1 == B) /\
  (tokens (bucket r) + inflow R (clock r) now <= B ->
   tokens b1 == tokens (bucket r) + inflow R (clock r) now) /\
  ((from <= now)%Z ->
   count (since from (returned r)) + tokens b1 <= B + inflow R from now).
Proof.
  intros [Hmax Hrate Hlast Hpos Hcap Hpast _ Hpaid _] Hnow. cbv zeta.
  pose proof (refill_tokens now (bucket r)) as Ht.
  rewrite Hmax, Hrate, Hlast in Ht.
  pose proof (inflow_nonneg R (clock r) now rate Hnow) as Hin.
  destruct (Q.min_spec B (tokens (bucket r) + inflow R (clock r) now))
    as [[Hlt Hmin]|[Hle Hmin]]; rewrite Hmin in Ht; clear Hmin.
  - split; [lra|]. split; [lra|]. split; [lra|]. split; [lra|].
    split; [lra|]. intros Hfrom.
    destruct (Z_le_gt_dec from (clock r)) as [Hfc|Hfc].
    + specialize (Hpaid Hfc).
      pose proof (inflow_split R from (clock r) now). lra.
    + rewrite (since_before from _ (clock r)) by (done || lia).
      rewrite count_0.
      pose proof (inflow_nonneg R from now rate Hfrom). lra.
  - split; [lra|]. split; [lra|]. split; [lra|]. split; [lra|].
    split; [lra|]. intros Hfrom.
    destruct (Z_le_gt_dec from (clock r)) as [Hfc|Hfc].
    + specialize (Hpaid Hfc).
      pose proof (inflow_split R from (clock r) now). lra.
    + rewrite (since_before from _ (clock r)) by (done || lia).
      rewrite count_0.
      pose proof (inflow_nonneg R from now rate Hfrom). lra.
Qed.

(** [acquire] returns at [now], a whole token being there. *)
Lemma holds_return r now :
  Holds B R from to r ->
  (clock r <= now)%Z ->
  1 <= tokens (refill now (bucket r)) ->
  Holds B R from to
    {| bucket := take (refill now (bucket r)); clock := now;
       sleeping := []; returned := now :: returned r |}.
Proof.
  intros H Hnow Hone.
  destruct (refill_facts r now H Hnow) as (Hpos & Hcap & _ & _ & _ & Hpaid').
  destruct H as [Hmax Hrate Hlast _ _ Hpast _ _ Hbound].
  assert (Forall (fun at_ => (at_ <= now)%Z) (returned r)) as Hpast'.
  { eapply Forall_impl; [exact Hpast|]. simpl. intros. lia. }
  split.
  - exact Hmax.
  - exact Hrate.
  - reflexivity.
  - change (0 <= tokens (refill now (bucket r)) - 1). lra.
  - change (tokens (refill now (bucket r)) - 1 <= B). lra.
  - apply Forall_cons. split; [simpl; lia|done].
  - by left.
  - intros Hfrom.
    change (count (since from (now :: returned r))
            + (tokens (refill now (bucket r)) - 1) <= B + inflow R from now).
    rewrite since_cons_in, count_S by done.
    specialize (Hpaid' Hfrom). lra.
  - unfold returnsWithin in *.
    change (count (length (filter (fun at_ => (from <= at_ <= to)%Z)
                             (now :: returned r)))
            <= B + inflow R from to).
    rewrite filter_cons.
    destruct (decide (from <= now <= to)%Z) as [Hin|Hout]; [|done].
    simpl length. rewrite within_since
      by (eapply Forall_impl; [exact Hpast|]; simpl; intros; lia).
    rewrite count_S. specialize (Hpaid' (proj1 Hin)).
    pose proof (inflow_split R from now to).
    pose proof (inflow_nonneg R now to rate (proj2 Hin)). lra.
Qed.

Lemma holds_step e r r' :
  Holds B R from to r ->
  step e r = Some r' ->
  match e with Enter _ => sleeping r = [] | TimerFires _ => True end ->
  Holds B R from to r'.
Proof.
  intros H Hstep Hseq. destruct e as [now|now]; simpl in Hstep.
  - destruct (clock r <=? now)%Z eqn:Hnow; [|done].
    apply Z.leb_le in Hnow. unfold acquireEnter in Hstep.
    destruct (Qle_bool 1 (tokens (refill now (bucket r)))) eqn:Hone.
    + injection Hstep as <-. rewrite Hseq.
      apply holds_return; [done..|]. by apply Qle_bool_iff.
    + injection Hstep as <-. rewrite Hseq. simpl.
      assert (tokens (refill now (bucket r)) < 1) as Hlt.
      { apply Qnot_le_lt. intros Hle. apply Qle_bool_iff in Hle. congruence. }
      destruct (refill_facts r now H Hnow) as (Hpos & Hcap & _ & _ & _ & Hpaid').
      destruct H as [Hmax Hrate Hlast _ _ Hpast _ _ Hbound].
      split.
      * exact Hmax.
      * exact Hrate.
      * reflexivity.
      * exact Hpos.
      * exact Hcap.
      * eapply Forall_impl; [exact Hpast|]. simpl. intros. lia.
      * right. eexists. split; [reflexivity|].
        change (1 - tokens (refill now (bucket r)) <=
                (inject_Z now + waitMs (refill now (bucket r)) - inject_Z now)
                * (1 # 1000) * R).
        unfold waitMs. change (refillRate (refill now (bucket r)))
          with (refillRate (bucket r)). rewrite Hrate.
        apply Qle_lteq. right. field. lra.
      * exact Hpaid'.
      * exact Hbound.
  - destruct (sleeping r) as [|due others] eqn:Hsl; [done|].
    destruct (_ && _) eqn:Hok; [|done].
    apply andb_true_iff in Hok as [Hnow Hdue].
    apply Z.leb_le in Hnow. apply Qle_bool_iff in Hdue.
    injection Hstep as <-.
    destruct (one_sleeper _ _ _ _ _ H) as [Hnil|(due' & Heq & Hwait)];
      [congruence|].
    rewrite Hsl in Heq. injection Heq as <- ->.
    apply holds_return; [done..|].
    destruct (refill_facts r now H Hnow) as (_ & _ & _ & Hfull & Hpart & _).
    assert (1 - tokens (bucket r) <= inflow R (clock r) now) as Henough.
    { unfold inflow. nra. }
    destruct (Qlt_le_dec (tokens (bucket r) + inflow R (clock r) now) B)
      as [Hlt|Hge].
    * rewrite Hpart by lra. lra.
    * rewrite Hfull by lra. done.
Qed.

Lemma holds_steps events r r' :
  Holds B R from to r ->
  steps events r = Some r' ->
  sequential events r = true ->
  Holds B R from to r'.
Proof.
  revert r. induction events as [|e events IH]; intros r H Hsteps Hseq;
    simpl in *.
  - by injection Hsteps as <-.
  - destruct (step e r) as [r1|] eqn:Hstep; [|done].
    apply andb_true_iff in Hseq as [He Hrest].
    apply (IH r1); [|done..].
    eapply holds_step; [done..|].
    destruct e; [|done]. by apply bool_decide_eq_true in He.
Qed.

End Window.

End BucketFacts.


(** ** The order of [created_at], and the two selections by status *)

Module OrderFacts.
Import Store StoreFacts.

Lemma compare_lt_trans s1 s2 s3 :
  String.compare s1 s2 = Lt -> String.compare s2 s3 = Lt ->
  String.compare s1 s3 = Lt.
Proof.
  revert s2 s3. induction s1 as [|a s1 IH]; intros [|b s2] [|c s3];
    simpl; try done.
  unfold Ascii.compare.
  destruct (N.compare_spec (N_of_ascii a) (N_of_ascii b)) as [Hab|Hab|Hab];
    destruct (N.compare_spec (N_of_ascii b) (N_of_ascii c)) as [Hbc|Hbc|Hbc];
    try done; intros H1 H2.
  - rewrite Hab, Hbc, N.compare_refl. by apply (IH s2).
  - rewrite Hab. by rewrite (proj2 (N.compare_lt_iff _ _) Hbc).
  - rewrite <- Hbc. by rewrite (proj2 (N.compare_lt_iff _ _) Hab).
  - by rewrite (proj2 (N.compare_lt_iff (N_of_ascii a) (N_of_ascii c)))
      by lia.
Qed.

Lemma leb_compare a b :
  String.leb a b = true <-> String.compare a b = Lt \/ a = b.
Proof.
  unfold String.leb. split.
  - destruct (String.compare a b) eqn:E; [|by left|done].
    right. by apply String.compare_eq_iff.
  - intros [->| ->]; [done|].
    destruct (String.compare b b) eqn:E; [done..|].
    pose proof (String.compare_antisym b b) as H. rewrite E in H. done.
Qed.

Lemma leb_refl a : String.leb a a = true.
Proof. apply leb_compare. by right. Qed.

Lemma leb_trans a b c :
  String.leb a b = true -> String.leb b c = true -> String.leb a c = true.
Proof.
  rewrite !leb_compare. intros [Hab| ->] [Hbc| ->]; auto.
  left. by apply (compare_lt_trans a b c).
Qed.

#[global] Instance olderOrSame_trans : Transitive olderOrSame.
Proof. intros a b c. apply leb_trans. Qed.

#[global] Instance olderOrSame_total : Total olderOrSame.
Proof. intros a b. apply String.leb_total. Qed.

Lemma selectByStatus_sorted statuses (s : Store) :
  StronglySorted olderOrSame (selectByStatus statuses s).
Proof. apply StronglySorted_merge_sort; apply _. Qed.

(** The selection has every row of the table in one of the statuses. *)
Lemma selectByStatus_complete statuses (s : Store) k row :
  s !! k = Some row -> Row.status row ∈ statuses ->
  rowToJob k row ∈ selectByStatus statuses s.
Proof.
  intros Hrow Hst. unfold selectByStatus. rewrite merge_sort_Permutation.
  apply list_elem_of_filter. split; [done|].
  apply elem_of_jobs. exists row. done.
Qed.

Lemma getJob_Some k (s : Store) job :
  getJob k s = Some job <->
  exists row, s !! k = Some row /\ job = rowToJob k row.
Proof.
  unfold getJob. destruct (s !! k) as [row|]; simpl.
  - split; [intros [= <-]; by exists row|intros (? & [= <-] & ->); done].
  - split; [done|intros (? & ? & _); done].
Qed.

Lemma txHash_rowToJob k row : txHash (rowToJob k row) = k.
Proof. done. Qed.

Lemma getJob_txHash k (s : Store) job : getJob k s = Some job -> txHash job = k.
Proof. rewrite getJob_Some. by intros (row & _ & ->). Qed.

(** Two stored jobs with one hash are one job. *)
Lemma elem_of_select_getJob statuses (s : Store) job :
  job ∈ selectByStatus statuses s <->
  getJob (txHash job) s = Some job /\ status job ∈ statuses.
Proof.
  split.
  - intros H. apply elem_of_selectByStatus in H as (row & Hrow & Hst & Hjob).
    split; [apply getJob_Some; by exists row|]. by rewrite Hjob.
  - intros [Hjob Hst]. apply getJob_Some in Hjob as (row & Hrow & Hjob).
    rewrite Hjob in Hst |- *. simpl. by apply selectByStatus_complete.
Qed.

Lemma length_filter_fmap {A B : Type} (f : A -> B) (P : B -> Prop)
    (Q : A -> Prop) `{!forall b, Decision (P b)} `{!forall a, Decision (Q a)}
    (l : list A) :
  (forall a, Q a <-> P (f a)) ->
  length (filter P (f <$> l)) = length (filter Q l).
Proof.
  intros HPQ. induction l as [|a l IH]; [done|].
  rewrite fmap_cons, !filter_cons.
  destruct (decide (P (f a))), (decide (Q a)); simpl;
    try lia; exfalso; destruct (HPQ a); auto.
Qed.

(** The rows of the table of which [P] holds, counted on the table and
    on its enumeration. *)
Lemma size_filter_jobs (P : RelayStatus -> Prop)
    `{!forall job : RelayJob, Decision (P (status job))}
    `{!forall kv : string * Row.t, Decision (P (Row.status kv.2))}
    (s : Store) :
  length (filter (fun job => P (status job)) (jobs s)) =
  size (filter (fun kv : string * Row.t => P (Row.status kv.2)) s).
Proof.
  unfold jobs.
  rewrite (length_filter_fmap _ (fun job => P (status job))
             (fun kv : string * Row.t => P (Row.status kv.2))) by done.
  rewrite map_filter_alt, map_size_list_to_map.
  - done.
  - eapply sublist_NoDup; [apply (NoDup_fst_map_to_list s)|].
    apply fmap_sublist, sublist_filter.
Qed.

Lemma length_selectByStatus statuses (s : Store) :
  length (selectByStatus statuses s) =
  size (filter (fun kv : string * Row.t => Row.status kv.2 ∈ statuses) s).
Proof.
  unfold selectByStatus. rewrite merge_sort_Permutation.
  apply (size_filter_jobs (fun st => st ∈ statuses)).
Qed.

Lemma updateJob_lookup_eq now k updates (s : Store) :
  updateJob now k updates s !! k = applyUpdates now updates <$> s !! k.
Proof.
  unfold updateJob. destruct (s !! k) as [row|] eqn:E.
  - by rewrite lookup_insert_eq.
  - by rewrite E.
Qed.

Lemma head_take_1 {A : Type} (l : list A) : head (take 1 l) = head l.
Proof. by destruct l. Qed.

Lemma sorted_lookup {A : Type} (R : relation A) (l : list A) i j a b :
  StronglySorted R l -> l !! i = Some a -> l !! j = Some b -> (i < j)%nat ->
  R a b.
Proof.
  intros Hs. revert i j. induction Hs as [|x l Hs IH Hall]; intros i j; [done|].
  destruct i as [|i], j as [|j]; simpl; try lia.
  - intros [= <-] Hb _. eapply Forall_forall in Hall; [done|].
    by eapply list_elem_of_lookup_2.
  - intros Ha Hb Hlt. apply (IH i j); [done..|lia].
Qed.

(** What is left out by a limit is not older than what is taken. *)
Lemma sorted_take_drop {A : Type} (R : relation A) (l : list A) n a b :
  StronglySorted R l -> a ∈ take n l -> b ∈ drop n l -> R a b.
Proof.
  intros Hs Ha Hb. rewrite <- (take_drop n l) in Hs.
  by eapply StronglySorted_app_1_elem_of.
Qed.

Lemma elem_of_take_or_drop {A : Type} (l : list A) n a :
  a ∈ l -> a ∈ take n l \/ a ∈ drop n l.
Proof.
  intros H. rewrite <- (take_drop n l) in H. by apply elem_of_app in H.
Qed.

End OrderFacts.

(** ** The counts of [GET /health] *)

Module CensusFacts.
Import Store Census OrderFacts.

Lemma lookup_foldl_insert_notin (l : list (string * Z)) (m : gmap string Z) k :
  k ∉ l.*1 ->
  foldl (fun result row => <[row.1 := row.2]> result) m l !! k = m !! k.
Proof.
  revert m. induction l as [|[k' v'] l IH]; intros m Hk; [done|].
  rewrite fmap_cons, not_elem_of_cons in Hk. destruct Hk as [Hne Hk].
  simpl. rewrite IH by done. by rewrite lookup_insert_ne.
Qed.

Lemma lookup_foldl_insert_in (l : list (string * Z)) (m : gmap string Z) k v :
  NoDup l.*1 -> (k, v) ∈ l ->
  foldl (fun result row => <[row.1 := row.2]> result) m l !! k = Some v.
Proof.
  revert m. induction l as [|[k' v'] l IH]; intros m Hnd Hin.
  - by apply elem_of_nil in Hin.
  - rewrite fmap_cons, NoDup_cons in Hnd. destruct Hnd as [Hnotin Hnd].
    apply elem_of_cons in Hin as [[= <- <-]|Hin]; simpl.
    + rewrite lookup_foldl_insert_notin by done. apply lookup_insert_eq.
    + by apply IH.
Qed.

Lemma statusName_inj st st' : statusName st = statusName st' -> st = st'.
Proof. by destruct st, st'. Qed.

(** The number of jobs in status [st], as [countStmt] counts them. *)
Lemma count_rows st (s : Store) :
  length (filter (fun job => status job = st) (jobs s)) = rowsWithStatus st s.
Proof. apply (size_filter_jobs (fun st' => st' = st)). Qed.

Lemma elem_of_countStmt (s : Store) name n :
  (name, n) ∈ countStmt s <->
  exists st, name = statusName st /\ (0 < rowsWithStatus st s)%nat /\
             n = Z.of_nat (rowsWithStatus st s).
Proof.
  unfold countStmt. rewrite list_elem_of_omap. split.
  - intros (st & _ & H). rewrite count_rows in H.
    destruct (0 <? rowsWithStatus st s)%nat eqn:E; [|done].
    injection H as <- <-. exists st. apply Nat.ltb_lt in E. done.
  - intros (st & -> & Hpos & ->). exists st. split.
    + destruct st; rewrite !elem_of_cons; auto 10.
    + rewrite count_rows. apply Nat.ltb_lt in Hpos. by rewrite Hpos.
Qed.

Lemma countStmt_keys (s : Store) :
  (countStmt s).*1 `sublist_of`
    statusName <$> [Attested; Confirmed; Failed; Pending; Polling; Submitted].
Proof.
  unfold countStmt.
  induction [Attested; Confirmed; Failed; Pending; Polling; Submitted]
    as [|st l IH]; [done|].
  simpl. destruct (0 <? _)%nat; simpl.
  - by apply sublist_skip.
  - by apply sublist_cons.
Qed.

Lemma NoDup_countStmt (s : Store) : NoDup (countStmt s).*1.
Proof.
  eapply sublist_NoDup; [|apply countStmt_keys].
  apply (bool_decide_unpack _). by vm_compute.
Qed.

Lemma countByStatus_lookup (s : Store) st :
  countByStatus s !! statusName st =
    if rowsWithStatus st s is O then None
    else Some (Z.of_nat (rowsWithStatus st s)).
Proof.
  unfold countByStatus. destruct (rowsWithStatus st s) as [|n] eqn:E.
  - rewrite lookup_foldl_insert_notin; [done|].
    rewrite list_elem_of_fmap. intros ([name v] & Hname & Hin). simpl in *.
    apply elem_of_countStmt in Hin as (st' & -> & Hpos & _).
    apply statusName_inj in Hname as <-. lia.
  - apply lookup_foldl_insert_in; [apply NoDup_countStmt|].
    apply elem_of_countStmt. exists st. rewrite E. split; [done|]. split; [lia|done].
Qed.

Lemma countByStatus_keys (s : Store) name n :
  countByStatus s !! name = Some n ->
  exists st, name = statusName st /\ (0 < n)%Z /\
             n = Z.of_nat (rowsWithStatus st s).
Proof.
  unfold countByStatus. intros H.
  destruct (decide (name ∈ (countStmt s).*1)) as [Hin|Hnotin].
  - apply list_elem_of_fmap in Hin as ([name' v] & -> & Hin). simpl in *.
    rewrite (lookup_foldl_insert_in _ _ _ v) in H
      by (done || apply NoDup_countStmt).
    injection H as <-.
    apply elem_of_countStmt in Hin as (st & -> & Hpos & ->).
    exists st. split; [done|]. split; [lia|done].
  - by rewrite lookup_foldl_insert_notin in H.
Qed.

(** Every job is in one status. *)
Lemma length_by_status (l : list RelayJob) :
  length l =
  sum_list_with (fun st => length (filter (fun job => status job = st) l))
    allStatuses.
Proof.
  induction l as [|job l IH]; [done|].
  simpl in *. rewrite !filter_cons.
  destruct (status job); simpl; lia.
Qed.

Lemma size_by_status (s : Store) :
  size s = sum_list_with (fun st => rowsWithStatus st s) allStatuses.
Proof.
  rewrite <- length_map_to_list.
  rewrite <- (length_fmap (fun kv => rowToJob kv.1 kv.2)).
  fold (jobs s). rewrite length_by_status.
  simpl. by rewrite !count_rows.
Qed.

Lemma default_count (n : nat) :
  default 0%Z (if n is O then None else Some (Z.of_nat n)) = Z.of_nat n.
Proof. by destruct n. Qed.

End CensusFacts.

(** ** The life of a row *)

Module LifecycleFacts.
Import Indexer Invariant Lifecycle StoreFacts IndexerFacts OrderFacts.

Lemma rowAt_impl (s : Store) k (P Q : Row.t -> Prop) :
  rowAt s k P -> (forall row, P row -> Q row) -> rowAt s k Q.
Proof. intros (row & Hrow & HP) H. exists row. auto. Qed.

Lemma rowAt_update_ne now k k' updates (s : Store) P :
  k ≠ k' -> rowAt s k' P -> rowAt (Store.updateJob now k updates s) k' P.
Proof.
  intros Hne (row & Hrow & HP). exists row.
  by rewrite updateJob_lookup_ne.
Qed.

Lemma rowAt_insert_fresh (s : Store) k k' row P :
  s !! k = None -> rowAt s k' P -> rowAt (<[k := row]> s) k' P.
Proof.
  intros Hk (row' & Hrow' & HP). exists row'. split; [|done].
  rewrite lookup_insert_ne; [done|]. intros ->. congruence.
Qed.

Lemma rowAt_status (s : Store) k sts P :
  rowStatusIn s sts k -> rowAt s k P ->
  rowAt s k (fun row => Row.status row ∈ sts /\ P row).
Proof.
  intros (row & Hrow & Hst) (row' & Hrow' & HP).
  rewrite Hrow in Hrow'. injection Hrow' as <-. by exists row.
Qed.

Lemma keys_differ (s : Store) sts sts' k k' :
  rowStatusIn s sts k -> rowStatusIn s sts' k' ->
  (forall st, st ∈ sts -> st ∈ sts' -> False) -> k ≠ k'.
Proof.
  intros (row & Hrow & Hst) (row' & Hrow' & Hst') Hdisj ->.
  rewrite Hrow in Hrow'. injection Hrow' as <-. eauto.
Qed.

Lemma updateJob_insert now k updates (s : Store) row :
  s !! k = Some row ->
  Store.updateJob now k updates s = <[k := Store.applyUpdates now updates row]> s.
Proof. intros H. unfold Store.updateJob. by rewrite H. Qed.

(** The jobs of the rest of a cycle are not the job being visited. *)
Lemma rest_update now job rest updates (s : Store)
    (P : RelayJob -> Row.t -> Prop) :
  NoDup (txHash <$> job :: rest) ->
  Forall (fun j => rowAt s (txHash j) (P j)) rest ->
  Forall (fun j => rowAt (Store.updateJob now (txHash job) updates s)
                     (txHash j) (P j)) rest.
Proof.
  rewrite fmap_cons, NoDup_cons. intros [Hnotin _] Hall.
  apply Forall_forall. intros j Hj.
  apply rowAt_update_ne; [|by eapply Forall_forall in Hall].
  intros Heq. apply Hnotin. rewrite Heq. by apply list_elem_of_fmap_2.
Qed.

(** A write of the submitter is not to a row the poller holds. *)
Lemma held_update now k updates (s : Store) held
    (P : RelayJob -> Row.t -> Prop) :
  rowStatusIn s [Attested; Submitted] k ->
  Forall (fun j => rowStatusIn s [Pending; Polling] (txHash j)) held ->
  Forall (fun j => rowAt s (txHash j) (P j)) held ->
  Forall (fun j => rowAt (Store.updateJob now k updates s) (txHash j) (P j))
         held.
Proof.
  intros Hk Hall HP. apply Forall_forall. intros j Hj.
  apply rowAt_update_ne; [|by eapply Forall_forall in HP].
  eapply keys_differ; [exact Hk|by eapply Forall_forall in Hall|]. status_in.
Qed.

Lemma pollerSynced_update now k updates (s : Store) phase :
  rowStatusIn s [Attested; Submitted] k ->
  Forall (fun j => rowStatusIn s [Pending; Polling] (txHash j))
         (pollerHeld phase) ->
  pollerSynced s phase ->
  pollerSynced (Store.updateJob now k updates s) phase.
Proof.
  intros Hk Hall. destruct phase as [|jobs|job rest]; simpl in *; [done|..].
  - by apply held_update.
  - apply Forall_cons in Hall as [Hjob Hrest]. intros [Hasked Hagree].
    split; [|by apply held_update].
    apply rowAt_update_ne; [|done].
    eapply keys_differ; [exact Hk|exact Hjob|]. status_in.
Qed.

(** A write of the poller is not to the row the submitter holds. *)
Lemma submitterSynced_update now k updates (s : Store) phase :
  rowStatusIn s [Pending; Polling] k ->
  submitterHolds s phase ->
  submitterSynced s phase ->
  submitterSynced (Store.updateJob now k updates s) phase.
Proof.
  intros Hk. destruct phase; simpl; [done|..]; intros Hheld Hsync;
    (apply rowAt_update_ne; [|done]);
    (eapply keys_differ; [exact Hk|exact Hheld|]); status_in.
Qed.

Lemma pollerSynced_insert (s : Store) k row phase :
  s !! k = None -> pollerSynced s phase -> pollerSynced (<[k := row]> s) phase.
Proof.
  intros Hk. destruct phase as [|jobs|job rest]; simpl; [done|..].
  - intros H. eapply Forall_impl; [exact H|]. intros j.
    by apply rowAt_insert_fresh.
  - intros [Hjob H]. split; [by apply rowAt_insert_fresh|].
    eapply Forall_impl; [exact H|]. intros j. by apply rowAt_insert_fresh.
Qed.

Lemma submitterSynced_insert (s : Store) k row phase :
  s !! k = None -> submitterSynced s phase ->
  submitterSynced (<[k := row]> s) phase.
Proof.
  intros Hk. destruct phase; simpl; [done|..]; by apply rowAt_insert_fresh.
Qed.

Lemma agrees_selected statuses limit (s : Store) :
  Forall (agrees s) (Store.getJobsByStatus statuses limit s).
Proof.
  apply Forall_forall. intros job Hin.
  eapply elem_of_sublist in Hin; [|apply sublist_take].
  apply elem_of_selectByStatus in Hin as (row & Hrow & _ & Hjob).
  exists row. split; [done|]. by rewrite Hjob.
Qed.

Lemma lowerChar_idem c : Js.lowerChar (Js.lowerChar c) = Js.lowerChar c.
Proof. destruct c as [[] [] [] [] [] [] [] []]; reflexivity. Qed.

Lemma isHexDigit_lowerChar c :
  Js.isHexDigit c = true -> Js.isHexDigit (Js.lowerChar c) = true.
Proof.
  destruct c as [[] [] [] [] [] [] [] []]; intros H;
    solve [reflexivity | discriminate H].
Qed.

Lemma toLowerCase_idem s : Js.toLowerCase (Js.toLowerCase s) = Js.toLowerCase s.
Proof.
  induction s as [|c s IH]; simpl; [done|]. by rewrite lowerChar_idem, IH.
Qed.

Lemma length_toLowerCase s : String.length (Js.toLowerCase s) = String.length s.
Proof. induction s as [|c s IH]; simpl; [done|]. by rewrite IH. Qed.

Lemma allChars_toLowerCase s :
  Js.allChars Js.isHexDigit s = true ->
  Js.allChars Js.isHexDigit (Js.toLowerCase s) = true.
Proof.
  induction s as [|c s IH]; simpl; [done|].
  rewrite !andb_true_iff. intros [Hc Hs].
  split; [by apply isHexDigit_lowerChar|by apply IH].
Qed.

(** A hash of the pattern is still one in lower case. *)
Lemma TX_HASH_REGEX_toLowerCase tx :
  Api.TX_HASH_REGEX tx = true -> Api.TX_HASH_REGEX (Js.toLowerCase tx) = true.
Proof.
  intros H. apply ApiFacts.TX_HASH_REGEX_spec in H as (digits & -> & Hlen & Hall).
  rewrite !StringFacts.append_cons, StringFacts.append_nil.
  change (Js.toLowerCase (String "0" (String "x" digits)))
    with (String "0" (String "x" (Js.toLowerCase digits))).
  unfold Api.TX_HASH_REGEX.
  rewrite length_toLowerCase, Hlen. simpl.
  apply allChars_toLowerCase. by apply ApiFacts.allChars_spec.
Qed.

Lemma evolves_refl row : Evolves row row.
Proof. split; done. Qed.

Lemma evolves_trans row1 row2 row3 :
  Evolves row1 row2 -> Evolves row2 row3 -> Evolves row1 row3.
Proof.
  intros [Hd1 Hc1 He1 Hp1 Hr1 Hf1] [Hd2 Hc2 He2 Hp2 Hr2 Hf2]. split.
  - congruence.
  - congruence.
  - by etrans.
  - lia.
  - lia.
  - intros Hst. specialize (Hf1 Hst). subst row2. auto.
Qed.

Section WithRuntime.
Variable id : string -> string.
Variable getAddress : string -> string.
Variable getTime : string -> Z.
Variable config : Config.

Abbreviation Effect := (Effect id getAddress config).
Abbreviation Write := (Write id getAddress config).
Abbreviation Complete := (Complete getAddress config).
Abbreviation Validated := (Validated getAddress config).

Lemma effect_update now k updates (s : Store) row :
  s !! k = Some row ->
  Write k now row updates ->
  Effect s (Store.updateJob now k updates s).
Proof.
  intros Hrow Hw. eapply Written; [done..|]. by apply updateJob_insert.
Qed.

Lemma onFailure_update now job message (s : Store) :
  exists updates,
    Submitter.onFailure config now job message s =
    Store.updateJob now (txHash job) updates s.
Proof.
  unfold Submitter.onFailure.
  destruct (Submitter.terminal message); [|destruct (_ <=? _)%Z]; eauto.
Qed.

Lemma onFailure_effect now job message (s : Store) sts :
  rowStatusIn s sts (txHash job) ->
  (forall st, st ∈ sts -> st ∈ [Attested; Submitted]) ->
  rowAt s (txHash job) (fun row => Row.retry_count row = retryCount job) ->
  Effect s (Submitter.onFailure config now job message s).
Proof.
  intros Hheld Hsts Hsync.
  destruct (rowAt_status _ _ _ _ Hheld Hsync) as (row & Hrow & Hst & Hretry).
  apply Hsts in Hst. unfold Submitter.onFailure. rewrite <- Hretry.
  destruct (Submitter.terminal message) eqn:Hterm;
    [|destruct (_ <=? _)%Z eqn:Hmax].
  - apply (effect_update _ _ _ _ row); [done|]. apply WFailed; auto.
  - apply (effect_update _ _ _ _ row); [done|]. apply WFailed; [done|].
    right. by apply Z.leb_le.
  - apply (effect_update _ _ _ _ row); [done|]. apply WRetry; [done..|].
    apply Z.leb_gt in Hmax. lia.
Qed.

(** *** One piece of the poller *)

Lemma poller_step e (s : Store) phase sub :
  Owned {| table := s; poller := phase; submitter := sub |} ->
  pollerSynced s phase ->
  submitterSynced s sub ->
  let r := Poller.step getAddress getTime config e (phase, s) in
  pollerSynced r.2 r.1 /\ submitterSynced r.2 sub /\ Effect s r.2.
Proof.
  intros (Hnd & Hall & Hsub) Hp Hs. simpl in *.
  destruct phase as [|[|job rest]|job rest], e as [|now nowMs|now fetched];
    simpl in *;
    try (split; [done|split; [done|by apply Nothing]]).
  - (* the top of a cycle *)
    split; [apply agrees_selected|]. split; [done|by apply Nothing].
  - (* the head of the loop *)
    apply Forall_cons in Hall as [Hjob Hrest].
    apply Forall_cons in Hp as [Hagrees Hp].
    destruct (rowAt_status _ _ _ _ Hjob Hagrees)
      as (row & Hrow & Hst & Hsame & Hpolls).
    destruct (_ <? _)%Z; simpl.
    + split; [by apply rest_update|].
      split; [by apply submitterSynced_update|].
      apply (effect_update _ _ _ _ row); [done|]. by apply WTimeout.
    + case_bool_decide as Hpending; simpl.
      * split; [split; [|by apply rest_update]|].
        { eexists. split; [by apply updateJob_lookup|]. done. }
        split; [by apply submitterSynced_update|].
        apply (effect_update _ _ _ _ row); [done|]. apply WPolling. congruence.
      * split; [|split; [done|by apply Nothing]].
        split; [|done]. exists row. split; [done|]. split; [|done].
        rewrite <- Hsame in Hpending. revert Hst. status_in.
  - (* after [pollForAttestation] *)
    apply Forall_cons in Hall as [Hjob Hrest].
    destruct Hp as [Hasked Hp].
    destruct Hasked as (row & Hrow & Hst & Hpolls).
    destruct (Poller.pollForAttestation fetched) as [[result|]|message]; simpl.
    + destruct (Validator.validateAttestedMessage _ _ _ _)
        as [[warned v]|] eqn:Hv; simpl;
        [|split; [done|split; [done|by apply Nothing]]].
      rewrite <- Hpolls.
      destruct (Validation.valid v) eqn:Hvalid; simpl;
        (split; [by apply rest_update|]);
        (split; [by apply submitterSynced_update|]);
        (apply (effect_update _ _ _ _ row); [done|]).
      * by eapply WAttested.
      * by eapply WInvalid.
    + rewrite <- Hpolls. split; [by apply rest_update|].
      split; [by apply submitterSynced_update|].
      apply (effect_update _ _ _ _ row); [done|]. by apply WPolled.
    + destruct (String.eqb _ _); simpl;
        (split; [done|split; [done|by apply Nothing]]).
Qed.

(** *** One piece of the submitter *)

Lemma submitter_step e (s : Store) pphase phase :
  Owned {| table := s; poller := pphase; submitter := phase |} ->
  pollerSynced s pphase ->
  submitterSynced s phase ->
  let r := Submitter.step id config e (phase, s) in
  pollerSynced r.2 pphase /\ submitterSynced r.2 r.1 /\ Effect s r.2.
Proof.
  intros (Hnd & Hall & Hsub) Hp Hs. simpl in *.
  assert (forall now job message sts,
            rowStatusIn s sts (txHash job) ->
            (forall st, st ∈ sts -> st ∈ [Attested; Submitted]) ->
            rowAt s (txHash job)
              (fun row => Row.retry_count row = retryCount job) ->
            pollerSynced (Submitter.onFailure config now job message s) pphase /\
            True /\
            Effect s (Submitter.onFailure config now job message s))
    as Hfail.
  { intros now job message sts Hheld Hsts Hsync.
    split; [|split; [done|by eapply onFailure_effect]].
    destruct (onFailure_update now job message s) as [updates ->].
    apply pollerSynced_update; [|done..].
    by eapply rowStatusIn_weaken. }
  destruct phase as [|job|job gas|job hash],
           e as [|now [g|m]|now [h|m]|now [[receipt|]|m]];
    simpl in *;
    try (split; [done|split; [done|by apply Nothing]]);
    try (eapply Hfail; [exact Hsub|status_in|exact Hs]).
  - (* the top of an iteration *)
    destruct (Store.getOldestByStatus Attested s) as [job|] eqn:E; simpl;
      (split; [done|split; [|by apply Nothing]]); [|done].
    unfold Store.getOldestByStatus in E. apply head_Some_elem_of in E.
    eapply elem_of_sublist in E; [|apply sublist_take].
    apply elem_of_selectByStatus in E as (row & Hrow & _ & Hjob).
    exists row. split; [done|]. by rewrite Hjob.
  - (* sent *)
    destruct (rowAt_status _ _ _ _ Hsub Hs) as (row & Hrow & Hst & Hretry).
    split; [|split].
    + apply pollerSynced_update; [|done..].
      eapply rowStatusIn_weaken; [exact Hsub|]. status_in.
    + eexists. split; [by apply updateJob_lookup|]. done.
    + apply (effect_update _ _ _ _ row); [done|]. apply WSubmitted.
      revert Hst. status_in.
  - (* mined *)
    destruct (Receipt.status receipt =? 0)%Z eqn:Hstatus; simpl.
    + eapply Hfail; [exact Hsub|status_in|exact Hs].
    + destruct (rowAt_status _ _ _ _ Hsub Hs) as (row & Hrow & Hst & Hretry).
      destruct (Submitter.determineOutcome _ _ _) as [o w] eqn:Ho. simpl.
      split; [|split; [done|]].
      * apply pollerSynced_update; [|done..].
        eapply rowStatusIn_weaken; [exact Hsub|]. status_in.
      * apply (effect_update _ _ _ _ row); [done|].
        replace o with (Submitter.determineOutcome id (txHash job)
                          (Receipt.logs receipt)).1 by (by rewrite Ho).
        apply WConfirmed; [revert Hst; status_in|].
        by apply Z.eqb_neq.
Qed.

(** *** What a write does to its row *)

Lemma write_status k now row updates :
  Write k now row updates ->
  Row.status (Store.applyUpdates now updates row) = Row.status row \/
  edge (Row.status row) (Row.status (Store.applyUpdates now updates row)).
Proof.
  unfold edge.
  destruct 1 as [Hst|Hst|? ? ? Hst|? ? ? Hst|Hst|? Hst|? Hst|? Hst|? Hst];
    simpl; revert Hst; destruct (Row.status row); status_in.
Qed.

Lemma write_evolves k now row updates :
  Write k now row updates ->
  Evolves row (Store.applyUpdates now updates row).
Proof.
  intros Hw. pose proof (write_status _ _ _ _ Hw) as Hstatus.
  split.
  - by destruct Hw.
  - done.
  - destruct Hstatus as [->|Hedge]; [done|by apply rtc_once].
  - destruct Hw; simpl; lia.
  - destruct Hw; simpl; lia.
  - destruct Hw as [Hst|Hst|? ? ? Hst|? ? ? Hst|Hst|? Hst|? Hst|? Hst|? Hst];
      intros Hfinal; exfalso; revert Hst Hfinal;
      destruct (Row.status row); status_in.
Qed.

Lemma write_complete k now row updates :
  Write k now row updates ->
  Complete row ->
  Complete (Store.applyUpdates now updates row).
Proof.
  intros Hw [Hearly Hpayload Hsent Hconfirmed Hopen Hfailed].
  assert (forall row', Validated row ->
            Row.attested_message row' = Row.attested_message row ->
            Row.attestation row' = Row.attestation row ->
            Row.iris_nonce row' = Row.iris_nonce row ->
            Row.mint_recipient row' = Row.mint_recipient row ->
            Row.destination_domain row' = Row.destination_domain row ->
            Row.amount row' = Row.amount row ->
            Row.attested_at row' = Row.attested_at row ->
            Validated row') as Hkept.
  { intros row' (m & w & v & H) E1 E2 E3 E4 E5 E6 E7. exists m, w, v.
    rewrite E1, E2, E3, E4, E5, E6, E7. done. }
  destruct Hw as [Hst|Hst|result warned v Hst Hv Hvalid
                  |result warned v Hst Hv Hvalid|Hst|hash Hst
                  |receipt Hst Hreceipt|message Hst Hwhy|message Hst Hterm Hleft].
  - (* timed out *)
    split; simpl; try status_in. eauto.
  - (* pending to polling *)
    split; simpl; status_in.
  - (* invalid message *)
    split; simpl; try status_in. eauto.
  - (* attested *)
    assert (Row.status row ≠ Confirmed) as Hne by (by rewrite Hst).
    split; simpl; try status_in.
    intros _. exists (AttestationResult.message result), warned, v.
    simpl. repeat split; eauto.
  - (* polled *)
    split; simpl; rewrite Hst; status_in.
  - (* submitted *)
    assert (Row.status row ≠ Confirmed) as Hne by (by rewrite Hst).
    split; simpl; try status_in.
    intros _. split; eauto.
  - (* confirmed *)
    split; simpl; try status_in.
    intros _. split; eauto.
  - (* failed *)
    assert (Row.status row ≠ Confirmed) as Hne
      by (intros E; rewrite E in Hst; revert Hst; status_in).
    split; simpl; try status_in. eauto.
  - (* left for a retry *)
    assert (Row.status row ≠ Confirmed) as Hne
      by (intros E; rewrite E in Hst; revert Hst; status_in).
    split; simpl.
    + intros H. exfalso. revert Hst H. destruct (Row.status row); status_in.
    + intros H. eapply Hkept; [|done..]. by apply Hpayload.
    + done.
    + done.
    + done.
    + intros H. exfalso. revert Hst. rewrite H. status_in.
Qed.

(** *** What an effect does to the rows *)

Lemma effect_frame (s s' : Store) :
  Effect s s' -> exists k, forall k', k' ≠ k -> s' !! k' = s !! k'.
Proof.
  intros [->|now tx domain _ _ _ ->|k now row updates _ _ ->].
  - by exists "".
  - eexists. intros k' Hne. by rewrite lookup_insert_ne.
  - exists k. intros k' Hne. by rewrite lookup_insert_ne.
Qed.

Lemma effect_rows (s s' : Store) k row :
  Effect s s' ->
  s !! k = Some row ->
  s' !! k = Some row \/
  exists now updates,
    Write k now row updates /\
    s' !! k = Some (Store.applyUpdates now updates row).
Proof.
  intros [->|now tx domain _ _ Hfresh ->|k0 now row0 updates Hrow0 Hw ->] Hrow.
  - by left.
  - left. rewrite lookup_insert_ne; [done|]. intros <-. congruence.
  - destruct (decide (k0 = k)) as [->|Hne].
    + right. rewrite Hrow in Hrow0. injection Hrow0 as <-.
      exists now, updates. by rewrite lookup_insert_eq.
    + left. by rewrite lookup_insert_ne.
Qed.

Lemma effect_status (s s' : Store) k row :
  Effect s s' ->
  s !! k = Some row ->
  exists row',
    s' !! k = Some row' /\
    (Row.status row' = Row.status row \/
     edge (Row.status row) (Row.status row')).
Proof.
  intros Heff Hrow.
  destruct (effect_rows _ _ _ _ Heff Hrow) as [H|(now & updates & Hw & H)].
  - exists row. auto.
  - eexists. split; [exact H|]. by eapply write_status.
Qed.

Lemma effect_evolves (s s' : Store) k row :
  Effect s s' ->
  s !! k = Some row ->
  exists row', s' !! k = Some row' /\ Evolves row row'.
Proof.
  intros Heff Hrow.
  destruct (effect_rows _ _ _ _ Heff Hrow) as [H|(now & updates & Hw & H)].
  - exists row. split; [done|apply evolves_refl].
  - eexists. split; [exact H|]. by eapply write_evolves.
Qed.

(** Where a row of the table after an effect comes from. *)
Lemma effect_origin (s s' : Store) k row' :
  Effect s s' ->
  s' !! k = Some row' ->
  (exists row, s !! k = Some row /\
     (row' = row \/
      exists now updates,
        Write k now row updates /\ row' = Store.applyUpdates now updates row)) \/
  (exists now tx domain,
     Api.TX_HASH_REGEX tx = true /\ domain ∈ Api.VALID_SOURCE_DOMAINS /\
     k = Js.toLowerCase tx /\
     row' = Store.jobToRow (Api.newJob now k domain)).
Proof.
  intros [->|now tx domain Htx Hdomain Hfresh ->|k0 now row0 updates Hrow0 Hw ->].
  - intros H. left. exists row'. auto.
  - destruct (decide (Js.toLowerCase tx = k)) as [<-|Hne].
    + rewrite lookup_insert_eq. intros [= <-]. right.
      exists now, tx, domain. done.
    + rewrite lookup_insert_ne by done. intros H. left. exists row'. auto.
  - destruct (decide (k0 = k)) as [->|Hne].
    + rewrite lookup_insert_eq. intros [= <-]. left. exists row0.
      split; [done|]. right. eauto.
    + rewrite lookup_insert_ne by done. intros H. left. exists row'. auto.
Qed.

Lemma effect_wellformed (s s' : Store) :
  Effect s s' ->
  (forall k row, s !! k = Some row -> WellFormed k row) ->
  forall k row, s' !! k = Some row -> WellFormed k row.
Proof.
  intros Heff Hall k row' Hrow'.
  destruct (effect_origin _ _ _ _ Heff Hrow')
    as [(row & Hrow & [->|(now & updates & Hw & ->)])
       |(now & tx & domain & Htx & Hdomain & -> & ->)].
  - by apply Hall.
  - destruct (Hall _ _ Hrow) as [H1 H2 H3 H4 H5].
    destruct (write_evolves _ _ _ _ Hw) as [E1 _ _ E4 E5 _].
    split; [done|done|by rewrite E1|lia|lia].
  - split; simpl; [by apply TX_HASH_REGEX_toLowerCase
                  |apply toLowerCase_idem|done|lia|lia].
Qed.

Lemma effect_complete (s s' : Store) :
  Effect s s' ->
  (forall k row, s !! k = Some row -> Complete row) ->
  forall k row, s' !! k = Some row -> Complete row.
Proof.
  intros Heff Hall k row' Hrow'.
  destruct (effect_origin _ _ _ _ Heff Hrow')
    as [(row & Hrow & [->|(now & updates & Hw & ->)])
       |(now & tx & domain & Htx & Hdomain & -> & ->)].
  - by eapply Hall.
  - eapply write_complete; [done|]. by eapply Hall.
  - split; simpl; status_in.
Qed.

Lemma effect_budget (s s' : Store) :
  Effect s s' ->
  (forall k row, s !! k = Some row -> WithinBudget config row) ->
  forall k row, s' !! k = Some row -> WithinBudget config row.
Proof.
  intros Heff Hall k row' Hrow'.
  destruct (effect_origin _ _ _ _ Heff Hrow')
    as [(row & Hrow & [->|(now & updates & Hw & ->)])
       |(now & tx & domain & Htx & Hdomain & -> & ->)].
  - by eapply Hall.
  - destruct (Hall _ _ Hrow) as [Hle Hlt]. unfold WithinBudget.
    destruct Hw as [Hst|Hst|? ? ? Hst|? ? ? Hst|Hst|? Hst|? Hst|? Hst|? Hst];
      simpl.
    all: try (assert (Row.status row ≠ Failed) as Hne
                by (intros E; rewrite E in Hst; revert Hst; status_in);
              specialize (Hlt Hne)).
    all: split; [lia|]; intros; try lia; done.
  - split; simpl; intros; lia.
Qed.

(** *** One event of the process *)

Lemma postRelay_effect now a b (s : Store) :
  Effect s (Api.postRelay now a b s).2.
Proof.
  unfold Api.postRelay, Api.sourceDomainOk, Api.txHashOk.
  destruct a as [domain| |]; try by apply Nothing.
  case_bool_decide as Hdomain; [|by apply Nothing].
  destruct b as [|tx|]; try by apply Nothing.
  destruct (Api.TX_HASH_REGEX tx) eqn:Htx; [|by apply Nothing].
  unfold Store.getJob, Store.createJob. simpl.
  destruct (s !! Js.toLowerCase tx) eqn:E; simpl; [by apply Nothing|].
  by eapply Inserted.
Qed.

Lemma tracked_boot s : Tracked (boot s).
Proof. split; [apply owned_boot|done]. Qed.

Lemma tracked_run e sys :
  Tracked sys ->
  Tracked (run id getAddress getTime config e sys) /\
  Effect (table sys) (table (run id getAddress getTime config e sys)).
Proof.
  intros (Howned & Hp & Hs).
  pose proof (owned_run id getAddress getTime config e sys Howned) as Howned'.
  unfold Tracked. destruct sys as [s pphase sphase].
  destruct e as [now a b|pe|se|]; cbn [run table poller submitter] in *.
  - split; [|apply postRelay_effect]. split; [done|].
    destruct (postRelay_table now a b s) as [->|(k & d & Hk & ->)]; [done|].
    split; [by apply pollerSynced_insert|by apply submitterSynced_insert].
  - destruct (poller_step pe s pphase sphase Howned Hp Hs) as (Hp' & Hs' & Heff).
    destruct (Poller.step getAddress getTime config pe (pphase, s))
      as [phase' s'].
    done.
  - destruct (submitter_step se s pphase sphase Howned Hp Hs)
      as (Hp' & Hs' & Heff).
    destruct (Submitter.step id config se (sphase, s)) as [phase' s'].
    done.
  - split; [apply tracked_boot|by apply Nothing].
Qed.

(** *** A run of the process *)

Lemma tracked_exec events sys :
  Tracked sys -> Tracked (exec id getAddress getTime config events sys).
Proof.
  revert sys. induction events as [|e events IH]; intros sys H; [done|].
  simpl. apply IH. by apply tracked_run.
Qed.

Lemma evolves_exec events sys k row :
  Tracked sys ->
  table sys !! k = Some row ->
  exists row',
    table (exec id getAddress getTime config events sys) !! k = Some row' /\
    Evolves row row'.
Proof.
  revert sys row. induction events as [|e events IH]; intros sys row Ht Hrow.
  - exists row. split; [done|apply evolves_refl].
  - destruct (tracked_run e sys Ht) as [Ht' Heff].
    destruct (effect_evolves _ _ _ _ Heff Hrow) as (row1 & Hrow1 & Hev1).
    destruct (IH _ _ Ht' Hrow1) as (row' & Hrow' & Hev').
    exists row'. split; [done|]. by eapply evolves_trans.
Qed.

Lemma rows_exec (P : string -> Row.t -> Prop) events sys :
  (forall s s', Effect s s' ->
     (forall k row, s !! k = Some row -> P k row) ->
     forall k row, s' !! k = Some row -> P k row) ->
  Tracked sys ->
  (forall k row, table sys !! k = Some row -> P k row) ->
  forall k row,
    table (exec id getAddress getTime config events sys) !! k = Some row ->
    P k row.
Proof.
  intros Hstep. revert sys.
  induction events as [|e events IH]; intros sys Ht Hall; [done|].
  destruct (tracked_run e sys Ht) as [Ht' Heff].
  simpl. apply IH; [done|]. by eapply Hstep.
Qed.

End WithRuntime.

End LifecycleFacts.

(** ** Hex strings and the validator, the other way round *)

Module HexFacts.
Import StringFacts Ethers ValidatorFacts.









Section WithEthers.
Variable getAddress : string -> string.


End WithEthers.

End HexFacts.

(** ** The model on the end-to-end scenarios *)

Module Scenarios.

(** Intake writes a [pending] row with both counters at zero. *)
Example intake_scenario :
  Sample.rowAfter [Indexer.Post "2025-01-15T10:30:00.000Z" (Js.VInt 3)
              (Js.VString Sample.hashAUpper)] =
  Some (Store.jobToRow
          (Api.newJob "2025-01-15T10:30:00.000Z" Sample.hashA 3)).
Proof. vm_compute. reflexivity. Qed.

(** The happy path with a [FallbackTriggered] log only. *)
Example fallback_scenario :
  (Row.status <$>
     Sample.rowAfter (Sample.untilSent
               ++ [Sample.mined
                     [ {| Log.topics :=
                            [Abis.FALLBACK_TRIGGERED_TOPIC0 Sample.signatureItself] |} ]]),
   Row.outcome <$>
     Sample.rowAfter (Sample.untilSent
               ++ [Sample.mined
                     [ {| Log.topics :=
                            [Abis.FALLBACK_TRIGGERED_TOPIC0 Sample.signatureItself] |} ]]))
  = (Some Confirmed, Some (Some Fallback)).
Proof. vm_compute. reflexivity. Qed.

(** A job older than the attestation timeout fails at the next visit of
    the poller. *)
Example attestation_timeout_scenario :
  (fun row => (Row.status row, Row.error row)) <$>
    Sample.rowAfter
      [Indexer.Post "2025-01-15T10:30:00.000Z" (Js.VInt 3)
         (Js.VString Sample.hashAUpper);
       Indexer.PollerRuns Poller.CycleStart;
       Indexer.PollerRuns (Poller.Visit "2025-01-15T11:00:00.001Z" 1736938800001)]
  = Some (Failed, Some "attestation_timeout").
Proof. vm_compute. reflexivity. Qed.

(** A complete message whose attestation is still ["PENDING"] counts as
    no attestation: one more poll attempt, status [polling]. *)
Example pending_attestation_scenario :
  (fun row => (Row.status row, Row.poll_attempts row)) <$>
    Sample.rowAfter
      [Indexer.Post "2025-01-15T10:30:00.000Z" (Js.VInt 3)
         (Js.VString Sample.hashAUpper);
       Indexer.PollerRuns Poller.CycleStart;
       Indexer.PollerRuns (Poller.Visit "2025-01-15T10:30:02.000Z" 1736937002000);
       Indexer.PollerRuns
         (Poller.Fetched "2025-01-15T10:30:03.000Z"
            (Resolved
               {| HttpResponse.status := 200;
                  HttpResponse.json :=
                    Resolved (Some [ {| IrisMessage.message := "0x";
                                        IrisMessage.attestation := "PENDING";
                                        IrisMessage.eventNonce := "7";
                                        IrisMessage.status := "complete" |} ]) |}))]
  = Some (Polling, 1%Z).
Proof. vm_compute. reflexivity. Qed.

(** A throttled poll ends the cycle and writes nothing. *)
Example rate_limited_scenario :
  Poller.step Sample.lowerSpelling Sample.minuteStart Sample.config
    (Poller.Fetched "2025-01-15T10:30:03.000Z"
       (Resolved {| HttpResponse.status := 429;
                    HttpResponse.json := Rejected "no body" |}))
    (Poller.Awaiting (Store.rowToJob Sample.hashA Sample.attestedRow) [], ∅)
  = (Poller.Sleeping, ∅).
Proof. reflexivity. Qed.

(** A simulation that reverts with [transfer settled] fails the job at
    once, with one retry counted. *)
Example terminal_revert_scenario :
  (fun row => (Row.status row, Row.error row, Row.retry_count row)) <$>
    (Submitter.iteration Sample.signatureItself Sample.config
       "2025-01-15T10:30:10.000Z"
       (Rejected "execution reverted: transfer settled")
       (Resolved "0xbeef") (Resolved None)
       {[Sample.hashA := Sample.attestedRow]}).2 !! Sample.hashA
  = Some (Failed,
          Some "Gas estimation failed: execution reverted: transfer settled",
          1%Z).
Proof. vm_compute. reflexivity. Qed.

(** A transient failure before the broadcast keeps the job [attested];
    the third one fails it. *)
Example retries_scenario :
  let failing :=
    Submitter.iteration Sample.signatureItself Sample.config
      "2025-01-15T10:30:10.000Z" (Rejected "timeout") (Resolved "0xbeef")
      (Resolved None) in
  let once := (failing {[Sample.hashA := Sample.attestedRow]}).2 in
  let twice := (failing once).2 in
  let thrice := (failing twice).2 in
  (fun row => (Row.status row, Row.retry_count row)) <$> once !! Sample.hashA
    = Some (Attested, 1%Z) /\
  (fun row => (Row.status row, Row.retry_count row)) <$> twice !! Sample.hashA
    = Some (Attested, 2%Z) /\
  (fun row => (Row.status row, Row.retry_count row)) <$> thrice !! Sample.hashA
    = Some (Failed, 3%Z).
Proof. vm_compute. repeat split. Qed.

End Scenarios.


(** ** More on the token bucket *)

Module BucketMoreFacts.
Import TokenBucket BucketInvariant BucketFacts.
Local Open Scope Q_scope.

(** Two refills in a row add up to one. *)
Lemma refill_refill b t1 t2 :
  0 <= refillRate b -> (t1 <= t2)%Z ->
  tokens (refill t2 (refill t1 b)) == tokens (refill t2 b).
Proof.
  intros HR Ht.
  rewrite (refill_tokens t2 (refill t1 b)), (refill_tokens t2 b).
  change (maxTokens (refill t1 b)) with (maxTokens b).
  change (refillRate (refill t1 b)) with (refillRate b).
  change (lastRefill (refill t1 b)) with t1.
  pose proof (refill_tokens t1 b) as H1.
  pose proof (inflow_split (refillRate b) (lastRefill b) t1 t2) as Hsplit.
  assert (0 <= inflow (refillRate b) t1 t2) as Hin.
  { unfold inflow. rewrite Zle_Qle in Ht. nra. }
  destruct (Q.min_spec (maxTokens b)
              (tokens b + inflow (refillRate b) (lastRefill b) t1))
    as [[Hlt Hmin]|[Hle Hmin]]; rewrite Hmin in H1; clear Hmin;
    destruct (Q.min_spec (maxTokens b)
                (tokens (refill t1 b) + inflow (refillRate b) t1 t2))
      as [[Hlt2 Hmin2]|[Hle2 Hmin2]]; rewrite Hmin2; clear Hmin2;
    destruct (Q.min_spec (maxTokens b)
                (tokens b + inflow (refillRate b) (lastRefill b) t2))
      as [[Hlt3 Hmin3]|[Hle3 Hmin3]]; rewrite Hmin3; clear Hmin3;
    lra.
Qed.

(** How long a call sleeps that finds less than a token. *)
Lemma waitMs_bounds b :
  0 < refillRate b -> 0 <= tokens b -> tokens b < 1 ->
  0 < waitMs b /\ waitMs b <= 1000 / refillRate b.
Proof.
  intros HR Hpos Hlt. unfold waitMs, Qdiv.
  pose proof (Qinv_lt_0_compat _ HR) as Hinv.
  set (i := / refillRate b) in *. split; nra.
Qed.

End BucketMoreFacts.

(** ** More on the submitter *)

Module IterationFacts.
Import Store StoreFacts OrderFacts Submitter.

(** The job at the top of an iteration is a row of the table. *)
Lemma oldest_row st (s : Store) job :
  getOldestByStatus st s = Some job ->
  exists row,
    s !! txHash job = Some row /\ job = rowToJob (txHash job) row /\
    Row.status row = st.
Proof.
  unfold getOldestByStatus. intros H. apply head_Some_elem_of in H.
  eapply elem_of_sublist in H; [|apply sublist_take].
  apply elem_of_selectByStatus in H as (row & Hrow & Hst & Hjob).
  exists row. split; [done|]. split; [done|].
  by apply list_elem_of_singleton in Hst.
Qed.

(** With a row in the status there is an oldest one, and it is not
    younger than that row. *)
Lemma oldest_exists st (s : Store) k row :
  s !! k = Some row -> Row.status row = st ->
  exists job,
    getOldestByStatus st s = Some job /\
    String.leb (createdAt job) (Row.created_at row) = true.
Proof.
  intros Hrow Hst. unfold getOldestByStatus. rewrite head_take_1.
  pose proof (selectByStatus_sorted [st] s) as Hsorted.
  assert (rowToJob k row ∈ selectByStatus [st] s) as Hin.
  { apply selectByStatus_complete; [done|]. rewrite Hst.
    by apply list_elem_of_singleton. }
  destruct (selectByStatus [st] s) as [|job rest]; [by apply elem_of_nil in Hin|].
  exists job. split; [done|].
  apply elem_of_cons in Hin as [Heq|Hin].
  - rewrite <- Heq. apply leb_refl.
  - apply StronglySorted_inv in Hsorted as [_ Hall].
    eapply Forall_forall in Hall; [|exact Hin]. exact Hall.
Qed.

Lemma onFailure_lookup config now job message (s : Store) row :
  s !! txHash job = Some row ->
  onFailure config now job message s !! txHash job =
    Some (applyUpdates now
            (if terminal message || (maxRetries config <=? retryCount job + 1)%Z
             then [SetStatus Failed; SetError (Some message);
                   SetRetryCount (retryCount job + 1)]
             else [SetError (Some message);
                   SetRetryCount (retryCount job + 1)]) row).
Proof.
  intros Hrow. unfold onFailure.
  destruct (terminal message); [|destruct (_ <=? _)%Z]; simpl;
    by apply updateJob_lookup.
Qed.

End IterationFacts.

(** * The specification, sentence by sentence *)

(** C1. The submitter has no start-up sweep: its loop only ever selects
    [attested] rows. A row that is [submitted] when the process starts on
    the table [s] is therefore never written again, whatever requests
    arrive, however the awaited calls of the two loops settle, and however
    often the process is restarted. *)
Theorem submitted_rows_are_never_rescued :
  forall (id getAddress : string -> string) (getTime : string -> Z)
         (config : Config) (s : Store) (k : string) (row : Row.t)
         (events : list Indexer.Event),
    s !! k = Some row ->
    Row.status row = Submitted ->
    Indexer.table
      (Indexer.exec id getAddress getTime config events (Indexer.boot s)) !! k
    = Some row.
Proof.
  intros id getAddress getTime config s k row events Hrow Hst.
  apply IndexerFacts.stranded_exec; [apply IndexerFacts.owned_boot|done..].
Qed.

(** C2 (amended). In every table reached from the empty one, a row with
    an outcome is [confirmed]; and when the submitter confirms a job it
    writes, together with [confirmed], the outcome that
    [determineOutcome] reads from the logs of the receipt, which is
    [null] when none of the three primary events is among them. *)
Theorem outcome_only_on_confirmed_rows :
  forall (id getAddress : string -> string) (getTime : string -> Z)
         (config : Config),
    (forall (events : list Indexer.Event) (k : string) (row : Row.t),
       Indexer.table
         (Indexer.exec id getAddress getTime config events (Indexer.boot ∅)) !! k
       = Some row ->
       Row.outcome row ≠ None ->
       Row.status row = Confirmed) /\
    (forall (s : Store) (job : RelayJob) (hash now : string)
            (receipt : Receipt.t) (row : Row.t),
       s !! txHash job = Some row ->
       Receipt.status receipt ≠ 0%Z ->
       exists row',
         (Submitter.step id config (Submitter.Mined now (Resolved (Some receipt)))
            (Submitter.Waiting job hash, s)).2 !! txHash job = Some row' /\
         Row.status row' = Confirmed /\
         Row.outcome row' =
           (Submitter.determineOutcome id (txHash job) (Receipt.logs receipt)).1).
Proof.
  intros id getAddress getTime config. split.
  - intros events k row.
    apply (IndexerFacts.outcome_exec id getAddress getTime config events
             (Indexer.boot ∅)); [apply IndexerFacts.owned_boot|].
    intros k' row' H. simpl in H. by rewrite lookup_empty in H.
  - intros s job hash now receipt row Hrow Hok. simpl.
    destruct (Receipt.status receipt =? 0)%Z eqn:E;
      [by apply Z.eqb_eq in E|].
    destruct (Submitter.determineOutcome _ _ _) as [o w]. simpl.
    eexists. split; [by apply StoreFacts.updateJob_lookup|done].
Qed.

(** C2, as stated, fails: a job goes from intake to [confirmed] with a
    receipt that carries no log, and its row is [confirmed] with a [null]
    outcome. *)
Lemma confirmed_row_with_null_outcome :
  let sys :=
    Indexer.exec Sample.signatureItself Sample.lowerSpelling Sample.minuteStart
      Sample.config (Sample.untilSent ++ [Sample.mined []]) (Indexer.boot ∅) in
  exists row,
    Indexer.table sys !! Sample.hashA = Some row /\
    Row.status row = Confirmed /\
    Row.outcome row = None.
Proof.
  eexists. split; [vm_compute; reflexivity|]. split; reflexivity.
Qed.

(** C3, at the failing input: the oldest [attested] job has never been
    retried, [estimateGas] and the broadcast succeed, and the receipt
    says the transaction reverted. The failure is not terminal and the
    retry budget is not used up, yet the row is left [submitted], so the
    next iteration finds nothing to retry. *)
Theorem transient_failure_after_broadcast_is_not_requeued :
  forall id : string -> string,
    let s : Store := {[Sample.hashA := Sample.attestedRow]} in
    let receipt :=
      {| Receipt.status := 0; Receipt.blockNumber := 21000000;
         Receipt.logs := [] |} in
    let result :=
      Submitter.iteration id Sample.config "2025-01-15T10:30:26.000Z"
        (Resolved 250000%Z) (Resolved "0xbeef") (Resolved (Some receipt)) s in
    Submitter.terminal "Tx reverted: 0xbeef" = false /\
    (maxRetries Sample.config <=? Row.retry_count Sample.attestedRow + 1)%Z = false /\
    result.1 = Submitter.Idle /\
    Row.status <$> result.2 !! Sample.hashA = Some Submitted /\
    Row.retry_count <$> result.2 !! Sample.hashA = Some 1%Z /\
    Row.error <$> result.2 !! Sample.hashA = Some (Some "Tx reverted: 0xbeef") /\
    Store.getOldestByStatus Attested result.2 = None.
Proof.
  intros id. vm_compute. repeat split.
Qed.

(** C4. [POST /relay] is idempotent on the transaction hash: when a valid
    request is sent once at [first] and again at each instant of [later]
    to a table that has no row for the hash, the table at the end is the
    starting one with exactly one more row, the [pending] row written at
    [first] (so [updated_at] is [first], whatever the replays); the first
    answer is [201], and every later answer is [200] with the hash and
    status of that row. *)
Theorem post_relay_idempotent :
  forall (s : Store) (domain : Z) (tx first : string) (later : list string),
    domain ∈ Api.VALID_SOURCE_DOMAINS ->
    Api.TX_HASH_REGEX tx = true ->
    s !! Js.toLowerCase tx = None ->
    let k := Js.toLowerCase tx in
    let row := Store.jobToRow (Api.newJob first k domain) in
    let result :=
      Api.postRelayRepeated (first :: later) (Js.VInt domain) (Js.VString tx) s in
    result.2 = <[k := row]> s /\
    size result.2 = S (size s) /\
    Row.status row = Pending /\
    Row.updated_at row = first /\
    result.1 =
      {| Api.code := 201;
         Api.body := [("txHash", Api.JString k);
                      ("status", Api.JString "pending");
                      ("message",
                       Api.JString "Relay job created. Poll GET /relay/:txHash for status.")] |}
      :: replicate (length later)
           {| Api.code := 200;
              Api.body := [("txHash", Api.JString k);
                           ("status", Api.JString "pending");
                           ("message", Api.JString "Relay job already exists.")] |}.
Proof.
  intros s domain tx first later Hd Hr Hnone k row result.
  subst result. simpl.
  rewrite (ApiFacts.postRelay_fresh first domain tx s) by done.
  rewrite (ApiFacts.postRelayRepeated_existing later domain tx _ row)
    by (done || apply lookup_insert_eq).
  simpl. repeat split. by apply map_size_insert_None.
Qed.





(** C8 (amended). For a bucket with burst capacity [B >= 1] and refill
    rate [R > 0] whose [acquire] calls do not overlap (each has returned
    before the next is made, as in the poller, its only caller), and
    with exact arithmetic: [acquire] returns at most
    [B + R * T] times at instants of any window of [T] seconds. A call
    that finds a whole token after the lazy refill takes it and returns
    at once; a call that finds [current < 1] sleeps
    [(1 - current) / R] seconds, refills again, and takes one token. *)
Theorem acquire_bound_without_overlap :
  forall (B R : Q) (t0 : Z) (events : list TokenBucket.Event)
         (r : TokenBucket.Run) (from to : Z),
    (1 <= B)%Q ->
    (0 < R)%Q ->
    (from <= to)%Z ->
    TokenBucket.steps events (TokenBucket.start B R t0) = Some r ->
    TokenBucket.sequential events (TokenBucket.start B R t0) = true ->
    (inject_Z (Z.of_nat (TokenBucket.returnsWithin from to r))
     <= B + R * (inject_Z (to - from) / 1000))%Q /\
    (forall (now : Z) (b : TokenBucket.t),
       (1 <= TokenBucket.tokens (TokenBucket.refill now b))%Q ->
       TokenBucket.acquireEnter now b =
         (TokenBucket.take (TokenBucket.refill now b), None)) /\
    (forall (now : Z) (b : TokenBucket.t),
       (TokenBucket.tokens (TokenBucket.refill now b) < 1)%Q ->
       TokenBucket.acquireEnter now b =
         (TokenBucket.refill now b,
          Some ((1 - TokenBucket.tokens (TokenBucket.refill now b))
                / TokenBucket.refillRate b * 1000)%Q)).
Proof.
  intros B R t0 events r from to HB HR Hwin Hsteps Hseq. split; [|split].
  - pose proof (BucketFacts.holds_steps B R from to HB HR events _ r
                  (BucketFacts.holds_start B R from to HB HR Hwin t0)
                  Hsteps Hseq) as H.
    pose proof (BucketInvariant.bounded _ _ _ _ _ H) as Hb.
    unfold BucketInvariant.count in Hb.
    rewrite <- (BucketFacts.inflow_spec R from to) in Hb.
    eapply Qle_trans; [exact Hb|]. apply Qle_lteq. right. field.
  - intros now b H. unfold TokenBucket.acquireEnter.
    apply Qle_bool_iff in H. by rewrite H.
  - intros now b H. unfold TokenBucket.acquireEnter.
    destruct (Qle_bool 1 _) eqn:E; [|done].
    apply Qle_bool_iff in E. exfalso. eapply Qlt_not_le; eauto.
Qed.

(** C8, as stated, fails when calls overlap: with [B = R = 1], one call
    takes the token at time 0 and two more calls made at time 0 both
    sleep one second; both return at time 1000 ms, which makes three
    returns in a window of one second, more than [B + R * 1 = 2]. *)
Lemma overlapping_callers_exceed_bound :
  exists r : TokenBucket.Run,
    TokenBucket.steps
      [TokenBucket.Enter 0; TokenBucket.Enter 0; TokenBucket.Enter 0;
       TokenBucket.TimerFires 1000; TokenBucket.TimerFires 1000]
      (TokenBucket.start 1 1 0) = Some r /\
    TokenBucket.returnsWithin 0 1000 r = 3%nat /\
    ~ (inject_Z (Z.of_nat 3) <= 1 + 1 * (inject_Z (1000 - 0) / 1000))%Q.
Proof.
  eexists. split; [vm_compute; reflexivity|]. split; [vm_compute; reflexivity|].
  intros H. vm_compute in H. by apply H.
Qed.

(** C9. [GET /relay/:txHash] answers an existing job with exactly ten
    keys, and the answer is the same for two tables whose rows for that
    hash differ only in the attested payload, the decoded fields, the
    destination block number, the two counters and [updated_at]. *)
Theorem get_relay_narrow_projection :
  forall (s1 s2 : Store) (rawParam : string) (row : Row.t)
         (attested_message attestation iris_nonce mint_recipient : option string)
         (destination_domain : option N) (amount : option string)
         (eth_block_number : option Z) (poll_attempts retry_count : Z)
         (updated_at : string),
    s1 !! Js.toLowerCase rawParam = Some row ->
    s2 !! Js.toLowerCase rawParam =
      Some {| Row.source_domain := Row.source_domain row;
              Row.attested_message := attested_message;
              Row.attestation := attestation;
              Row.iris_nonce := iris_nonce;
              Row.mint_recipient := mint_recipient;
              Row.destination_domain := destination_domain;
              Row.amount := amount;
              Row.eth_tx_hash := Row.eth_tx_hash row;
              Row.eth_block_number := eth_block_number;
              Row.status := Row.status row;
              Row.outcome := Row.outcome row;
              Row.error := Row.error row;
              Row.poll_attempts := poll_attempts;
              Row.retry_count := retry_count;
              Row.created_at := Row.created_at row;
              Row.attested_at := Row.attested_at row;
              Row.submitted_at := Row.submitted_at row;
              Row.confirmed_at := Row.confirmed_at row;
              Row.updated_at := updated_at |} ->
    Api.getRelay rawParam s1 = Api.getRelay rawParam s2 /\
    Api.code (Api.getRelay rawParam s1) = 200%nat /\
    (Api.body (Api.getRelay rawParam s1)).*1 =
      ["txHash"; "sourceDomain"; "status"; "outcome"; "error"; "ethTxHash";
       "createdAt"; "attestedAt"; "submittedAt"; "confirmedAt"].
Proof.
  intros s1 s2 rawParam row ? ? ? ? ? ? ? ? ? ? H1 H2.
  unfold Api.getRelay, Store.getJob. rewrite H1, H2. simpl. done.
Qed.

(** C10. A [POST /relay] whose [sourceDomain] is not a number of the
    allow-list, or whose [txHash] is not a string in the language of the
    hash pattern, is answered [400] and leaves the table as it was. *)
Theorem post_relay_rejection_atomic :
  forall (now : string) (bodySourceDomain bodyTxHash : Js.value) (s : Store),
    (forall n, bodySourceDomain = Js.VInt n -> n ∉ Api.VALID_SOURCE_DOMAINS) \/
    (forall str, bodyTxHash = Js.VString str -> ~ Api.MatchesTxHashRegex str) ->
    Api.code (Api.postRelay now bodySourceDomain bodyTxHash s).1 = 400%nat /\
    (Api.postRelay now bodySourceDomain bodyTxHash s).2 = s.
Proof.
  intros now sd tx s [Hsd|Htx].
  - rewrite ApiFacts.postRelay_invalid_domain; [done|].
    destruct sd as [n| |]; simpl; try done.
    case_bool_decide; [|done]. by destruct (Hsd n).
  - apply ApiFacts.postRelay_invalid_hash.
    destruct tx as [|str|]; simpl; try done.
    destruct (Api.TX_HASH_REGEX str) eqn:E; [|done].
    apply ApiFacts.TX_HASH_REGEX_spec in E. by destruct (Htx str).
Qed.

(** * Further properties of the code *)

(** ** The store *)

(** X1. [createJob] inserts exactly when the table has no row for the
    hash. After an insertion [getJob] gives the job back as it was
    passed in, the table has one more row and every other row is as it
    was; on a conflict the [INSERT] fails and the row that exists is the
    one [getJob] finds. *)
Theorem create_job_then_get_job :
  forall (job : RelayJob) (s : Store),
    match Store.createJob job s with
    | Some s' =>
        Store.getJob (txHash job) s = None /\
        Store.getJob (txHash job) s' = Some job /\
        size s' = S (size s) /\
        (forall k, k ≠ txHash job -> s' !! k = s !! k)
    | None =>
        exists existing, Store.getJob (txHash job) s = Some existing
    end.
Proof.
  intros job s. unfold Store.createJob, Store.getJob.
  destruct (s !! txHash job) as [row|] eqn:E; simpl; [eauto|].
  split; [done|]. rewrite lookup_insert_eq. simpl.
  split; [by destruct job|].
  split; [by apply map_size_insert_None|].
  intros k Hne. by rewrite lookup_insert_ne.
Qed.

(** X2. [updateJob] writes to the row of the hash and to nothing else:
    with no such row it changes nothing and does not insert one; with
    one, the table keeps its set of hashes, every other row is as it
    was, and the job read back has the same [txHash] and [createdAt] and
    the clock reading as [updatedAt], whatever keys [updates] has.
    Without any key in [updates], [updatedAt] is all that changes. *)
Theorem update_job_writes_one_existing_row :
  forall (now k : string) (updates : list Assignment) (s : Store),
    let s' := Store.updateJob now k updates s in
    (Store.getJob k s = None -> s' = s) /\
    dom s' = dom s /\
    (forall k', k' ≠ k -> s' !! k' = s !! k') /\
    (forall job,
       Store.getJob k s = Some job ->
       exists job',
         Store.getJob k s' = Some job' /\
         txHash job' = txHash job /\
         createdAt job' = createdAt job /\
         updatedAt job' = now /\
         (updates = [] ->
          job' =
          {| txHash := txHash job; sourceDomain := sourceDomain job;
             attestedMessage := attestedMessage job;
             attestation := attestation job; irisNonce := irisNonce job;
             mintRecipient := mintRecipient job;
             destinationDomain := destinationDomain job; amount := amount job;
             ethTxHash := ethTxHash job; ethBlockNumber := ethBlockNumber job;
             status := status job; outcome := outcome job; error := error job;
             pollAttempts := pollAttempts job; retryCount := retryCount job;
             createdAt := createdAt job; attestedAt := attestedAt job;
             submittedAt := submittedAt job; confirmedAt := confirmedAt job;
             updatedAt := now |})).
Proof.
  intros now k updates s s'. subst s'. unfold Store.getJob.
  split; [|split; [|split]].
  - destruct (s !! k) eqn:E; [done|]. intros _.
    by apply StoreFacts.updateJob_absent.
  - unfold Store.updateJob. destruct (s !! k) eqn:E; [|done].
    apply dom_insert_lookup_L. by rewrite E.
  - intros k' Hne. by apply StoreFacts.updateJob_lookup_ne.
  - intros job. destruct (s !! k) as [row|] eqn:E; [|done]. simpl.
    intros [= <-]. rewrite (StoreFacts.updateJob_lookup _ _ _ _ row) by done.
    simpl. eexists. split; [done|]. repeat split; try done.
    by intros ->.
Qed.

(** X3. Writes to the rows of two different hashes commute, so the order
    in which the two loops get to write to the rows they hold does not
    matter for the table. *)
Theorem updates_of_different_rows_commute :
  forall (now1 now2 k1 k2 : string) (updates1 updates2 : list Assignment)
         (s : Store),
    k1 ≠ k2 ->
    Store.updateJob now1 k1 updates1 (Store.updateJob now2 k2 updates2 s) =
    Store.updateJob now2 k2 updates2 (Store.updateJob now1 k1 updates1 s).
Proof.
  intros now1 now2 k1 k2 updates1 updates2 s Hne. apply map_eq. intros k.
  destruct (decide (k = k1)) as [->|Hk1]; [|destruct (decide (k = k2)) as [->|Hk2]].
  - rewrite OrderFacts.updateJob_lookup_eq.
    rewrite !(StoreFacts.updateJob_lookup_ne now2 k2 k1) by done.
    by rewrite OrderFacts.updateJob_lookup_eq.
  - rewrite (StoreFacts.updateJob_lookup_ne now1 k1 k2) by done.
    rewrite !OrderFacts.updateJob_lookup_eq.
    by rewrite (StoreFacts.updateJob_lookup_ne now1 k1 k2) by done.
  - by rewrite !StoreFacts.updateJob_lookup_ne by done.
Qed.

(** X4. [getJobsByStatus] returns the oldest jobs first and no job
    twice: its result has [limit] jobs, or all jobs in the given statuses
    when there are fewer; each is a job of the table in one of the
    statuses; the result is in ascending order of [createdAt]; and a job
    in one of the statuses that is left out is not older than any job
    returned. *)
Theorem get_jobs_by_status_oldest_first :
  forall (statuses : list RelayStatus) (limit : nat) (s : Store),
    let result := Store.getJobsByStatus statuses limit s in
    length result =
      Nat.min limit
        (size (filter (fun kv : string * Row.t => Row.status kv.2 ∈ statuses) s)) /\
    NoDup (txHash <$> result) /\
    (forall job, job ∈ result ->
       Store.getJob (txHash job) s = Some job /\ status job ∈ statuses) /\
    (forall i j a b,
       result !! i = Some a -> result !! j = Some b -> (i < j)%nat ->
       String.leb (createdAt a) (createdAt b) = true) /\
    (forall job other,
       job ∈ result ->
       Store.getJob (txHash other) s = Some other ->
       status other ∈ statuses ->
       other ∉ result ->
       String.leb (createdAt job) (createdAt other) = true).
Proof.
  intros statuses limit s result. subst result. unfold Store.getJobsByStatus.
  pose proof (OrderFacts.selectByStatus_sorted statuses s) as Hsorted.
  split; [|split; [|split; [|split]]].
  - by rewrite length_take, OrderFacts.length_selectByStatus.
  - apply StoreFacts.NoDup_getJobsByStatus.
  - intros job Hin. apply OrderFacts.elem_of_select_getJob.
    eapply elem_of_sublist; [exact Hin|apply sublist_take].
  - intros i j a b Ha Hb Hlt.
    apply lookup_take_Some in Ha as [Ha _]. apply lookup_take_Some in Hb as [Hb _].
    exact (OrderFacts.sorted_lookup _ _ i j a b Hsorted Ha Hb Hlt).
  - intros job other Hjob Hother Hst Hout.
    assert (other ∈ Store.selectByStatus statuses s) as Hin
      by (by apply OrderFacts.elem_of_select_getJob).
    destruct (OrderFacts.elem_of_take_or_drop _ limit _ Hin) as [H|H]; [done|].
    exact (OrderFacts.sorted_take_drop _ _ limit job other Hsorted Hjob H).
Qed.

(** X5. [getOldestByStatus] returns nothing exactly when no row is in the
    status; otherwise it returns a job of the table that is in the
    status and whose [createdAt] is not after that of any other row in
    the status. *)
Theorem oldest_by_status_is_oldest :
  forall (st : RelayStatus) (s : Store),
    match Store.getOldestByStatus st s with
    | Some job =>
        Store.getJob (txHash job) s = Some job /\
        status job = st /\
        forall k row,
          s !! k = Some row -> Row.status row = st ->
          String.leb (createdAt job) (Row.created_at row) = true
    | None => forall k row, s !! k = Some row -> Row.status row ≠ st
    end.
Proof.
  intros st s. unfold Store.getOldestByStatus. rewrite OrderFacts.head_take_1.
  pose proof (OrderFacts.selectByStatus_sorted [st] s) as Hsorted.
  destruct (Store.selectByStatus [st] s) as [|job rest] eqn:E; simpl.
  - intros k row Hrow Hst.
    assert (Store.rowToJob k row ∈ Store.selectByStatus [st] s) as Hin
      by (apply OrderFacts.selectByStatus_complete; [done|]; rewrite Hst;
          apply list_elem_of_singleton; done).
    rewrite E in Hin. by apply elem_of_nil in Hin.
  - assert (job ∈ Store.selectByStatus [st] s) as Hjob
      by (rewrite E; apply list_elem_of_here).
    apply OrderFacts.elem_of_select_getJob in Hjob as [Hjob Hst].
    apply list_elem_of_singleton in Hst.
    split; [done|]. split; [done|]. intros k row Hrow Hrst.
    assert (Store.rowToJob k row ∈ job :: rest) as Hin.
    { rewrite <- E. apply OrderFacts.selectByStatus_complete; [done|].
      rewrite Hrst. by apply list_elem_of_singleton. }
    apply elem_of_cons in Hin as [Heq|Hin].
    + rewrite <- Heq. simpl. apply OrderFacts.leb_refl.
    + apply StronglySorted_inv in Hsorted as [_ Hall].
      eapply Forall_forall in Hall; [|exact Hin]. exact Hall.
Qed.

(** X6. [GET /health] answers [200] and [healthy] with the counts of
    [countByStatus]: the object has a key for each status in which the
    table has a row, with the number of those rows, and no other key;
    the counts add up to the number of rows of the table. *)
Theorem health_counts_every_row_once :
  forall s : Store,
    exists counts : gmap string Z,
      Api.getHealth s =
        {| Api.healthCode := 200; Api.healthStatus := "healthy";
           Api.healthJobs := Some counts |} /\
      counts = Store.countByStatus s /\
      (forall st,
         counts !! statusName st =
           if Census.rowsWithStatus st s is O then None
           else Some (Z.of_nat (Census.rowsWithStatus st s))) /\
      (forall name n,
         counts !! name = Some n ->
         (0 < n)%Z /\ exists st, name = statusName st) /\
      foldr Z.add 0%Z
        ((fun st => default 0%Z (counts !! statusName st)) <$> Census.allStatuses)
      = Z.of_nat (size s).
Proof.
  intros s. exists (Store.countByStatus s).
  split; [done|]. split; [done|]. split; [|split].
  - apply CensusFacts.countByStatus_lookup.
  - intros name n H.
    apply CensusFacts.countByStatus_keys in H as (st & -> & Hpos & _). eauto.
  - rewrite (CensusFacts.size_by_status s). unfold Census.allStatuses.
    cbn [fmap list_fmap foldr sum_list_with].
    rewrite !CensusFacts.countByStatus_lookup, !CensusFacts.default_count.
    lia.
Qed.

(** ** The intake and query endpoints *)

(** X7. A job can be queried as soon as it is taken in: [GET
    /relay/:txHash] answers [404] for a hash that has no row; after a
    [POST /relay] that creates the row it answers [200] for every
    spelling of the hash that differs in letter case only, with the
    lower-case hash, the source domain of the request, status [pending],
    the time of the request as [createdAt] and [null] for the other six
    keys; the answers for other hashes are as before. *)
Theorem post_then_get_relay :
  forall (s : Store) (domain : Z) (tx now rawParam : string),
    domain ∈ Api.VALID_SOURCE_DOMAINS ->
    Api.TX_HASH_REGEX tx = true ->
    s !! Js.toLowerCase tx = None ->
    Js.toLowerCase rawParam = Js.toLowerCase tx ->
    let s' := (Api.postRelay now (Js.VInt domain) (Js.VString tx) s).2 in
    Api.getRelay rawParam s =
      {| Api.code := 404;
         Api.body := [("error", Api.JString "Job not found")] |} /\
    Api.getRelay rawParam s' =
      {| Api.code := 200;
         Api.body := [("txHash", Api.JString (Js.toLowerCase tx));
                      ("sourceDomain", Api.JNumber domain);
                      ("status", Api.JString "pending");
                      ("outcome", Api.JNull);
                      ("error", Api.JNull);
                      ("ethTxHash", Api.JNull);
                      ("createdAt", Api.JString now);
                      ("attestedAt", Api.JNull);
                      ("submittedAt", Api.JNull);
                      ("confirmedAt", Api.JNull)] |} /\
    (forall other,
       Js.toLowerCase other ≠ Js.toLowerCase tx ->
       Api.getRelay other s' = Api.getRelay other s).
Proof.
  intros s domain tx now rawParam Hdomain Htx Hfresh Hparam s'. subst s'.
  rewrite ApiFacts.postRelay_fresh by done. simpl.
  unfold Api.getRelay, Store.getJob. rewrite Hparam, Hfresh.
  split; [done|]. rewrite lookup_insert_eq. split; [done|].
  intros other Hother. by rewrite lookup_insert_ne.
Qed.

(** X8. [POST /relay] only ever adds: whatever the body of the request,
    every row of the table is afterwards as it was. The answer is [201]
    with one more row in the table, or it is [200] or [400] with the
    table unchanged. *)
Theorem post_relay_only_adds :
  forall (now : string) (bodySourceDomain bodyTxHash : Js.value) (s : Store),
    let r := Api.postRelay now bodySourceDomain bodyTxHash s in
    (forall k row, s !! k = Some row -> r.2 !! k = Some row) /\
    (Api.code r.1 = 201%nat /\ size r.2 = S (size s) \/
     Api.code r.1 ∈ [200; 400]%nat /\ r.2 = s).
Proof.
  intros now a b s r. subst r. unfold Api.postRelay.
  destruct (Api.sourceDomainOk a) as [domain|]; simpl;
    [|split; [done|right; split; [status_in|done]]].
  destruct (Api.txHashOk b) as [tx|]; simpl;
    [|split; [done|right; split; [status_in|done]]].
  unfold Store.getJob, Store.createJob. simpl.
  destruct (s !! Js.toLowerCase tx) as [existing|] eqn:E; simpl.
  - split; [done|right; split; [status_in|done]].
  - split.
    + intros k row Hrow. rewrite lookup_insert_ne; [done|]. intros <-. congruence.
    + left. split; [done|]. by apply map_size_insert_None.
Qed.

(** ** The life of a row *)

(** X9. The status of a row moves along eight edges only: [pending] to
    [polling] or [failed], [polling] to [attested] or [failed],
    [attested] to [submitted] or [failed], [submitted] to [confirmed] or
    [failed]. At any point of a run of the process started on any table,
    one more event (a request, a piece of either loop, a restart) leaves
    all rows but one as they are, and leaves the status of a row as it
    is or moves it along one edge; so over the rest of the run the row
    is still there and its status has moved along a path of edges. *)
Theorem status_moves_along_the_lifecycle :
  forall (id getAddress : string -> string) (getTime : string -> Z)
         (config : Config) (s : Store)
         (before : list Indexer.Event) (e : Indexer.Event)
         (after : list Indexer.Event),
    let sys := Indexer.exec id getAddress getTime config before (Indexer.boot s) in
    let next := Indexer.run id getAddress getTime config e sys in
    let later := Indexer.exec id getAddress getTime config after sys in
    (exists written, forall k,
       k ≠ written -> Indexer.table next !! k = Indexer.table sys !! k) /\
    (forall k row,
       Indexer.table sys !! k = Some row ->
       (exists row',
          Indexer.table next !! k = Some row' /\
          (Row.status row' = Row.status row \/
           Lifecycle.edge (Row.status row) (Row.status row'))) /\
       (exists row',
          Indexer.table later !! k = Some row' /\
          rtc Lifecycle.edge (Row.status row) (Row.status row'))).
Proof.
  intros id getAddress getTime config s before e after sys next later.
  assert (Lifecycle.Tracked sys) as Ht
    by apply LifecycleFacts.tracked_exec, LifecycleFacts.tracked_boot.
  destruct (LifecycleFacts.tracked_run id getAddress getTime config e sys Ht)
    as [_ Heff].
  split; [by eapply LifecycleFacts.effect_frame|].
  intros k row Hrow. split.
  - by eapply (LifecycleFacts.effect_status id getAddress getTime config).
  - destruct (LifecycleFacts.evolves_exec id getAddress getTime config after
                sys k row Ht Hrow) as (row' & Hrow' & Hev).
    exists row'. split; [done|]. by destruct Hev.
Qed.

(** X10. Rows are never deleted, and what intake wrote of a job stays:
    between any two points of a run of the process started on any
    table, a row keeps its [source_domain] and [created_at], and its
    two counters [poll_attempts] and [retry_count] do not decrease. *)
Theorem rows_stay_and_counters_grow :
  forall (id getAddress : string -> string) (getTime : string -> Z)
         (config : Config) (s : Store)
         (before after : list Indexer.Event) (k : string) (row : Row.t),
    let sys := Indexer.exec id getAddress getTime config before (Indexer.boot s) in
    Indexer.table sys !! k = Some row ->
    exists row',
      Indexer.table (Indexer.exec id getAddress getTime config after sys) !! k
        = Some row' /\
      Row.source_domain row' = Row.source_domain row /\
      Row.created_at row' = Row.created_at row /\
      (Row.poll_attempts row <= Row.poll_attempts row')%Z /\
      (Row.retry_count row <= Row.retry_count row')%Z.
Proof.
  intros id getAddress getTime config s before after k row sys Hrow.
  assert (Lifecycle.Tracked sys) as Ht
    by apply LifecycleFacts.tracked_exec, LifecycleFacts.tracked_boot.
  destruct (LifecycleFacts.evolves_exec id getAddress getTime config after
              sys k row Ht Hrow) as (row' & Hrow' & [H1 H2 _ H4 H5 _]).
  exists row'. done.
Qed.

(** X11. [confirmed] and [failed] are final: once a row is in one of
    them, no request, no piece of either loop and no restart writes to
    it again, so the whole row, [updated_at] included, stays as it
    is. *)
Theorem confirmed_and_failed_rows_are_final :
  forall (id getAddress : string -> string) (getTime : string -> Z)
         (config : Config) (s : Store)
         (before after : list Indexer.Event) (k : string) (row : Row.t),
    let sys := Indexer.exec id getAddress getTime config before (Indexer.boot s) in
    Indexer.table sys !! k = Some row ->
    Row.status row ∈ [Confirmed; Failed] ->
    Indexer.table (Indexer.exec id getAddress getTime config after sys) !! k
      = Some row.
Proof.
  intros id getAddress getTime config s before after k row sys Hrow Hst.
  assert (Lifecycle.Tracked sys) as Ht
    by apply LifecycleFacts.tracked_exec, LifecycleFacts.tracked_boot.
  destruct (LifecycleFacts.evolves_exec id getAddress getTime config after
              sys k row Ht Hrow) as (row' & Hrow' & [_ _ _ _ _ Hfinal]).
  by rewrite Hrow', (Hfinal Hst).
Qed.

(** X12. Every key of a table reached from the empty one is a
    transaction hash in lower case: it matches the pattern of the
    intake, and lower-casing it changes nothing, so a hash is stored
    once whatever its spelling in the requests. The source domain of
    every row is one of the allow-list and the two counters are not
    negative. *)
Theorem stored_rows_are_well_formed :
  forall (id getAddress : string -> string) (getTime : string -> Z)
         (config : Config) (events : list Indexer.Event)
         (k : string) (row : Row.t),
    Indexer.table
      (Indexer.exec id getAddress getTime config events (Indexer.boot ∅)) !! k
      = Some row ->
    Api.TX_HASH_REGEX k = true /\
    Js.toLowerCase k = k /\
    Row.source_domain row ∈ Api.VALID_SOURCE_DOMAINS /\
    (0 <= Row.poll_attempts row)%Z /\
    (0 <= Row.retry_count row)%Z.
Proof.
  intros id getAddress getTime config events k row Hrow.
  assert (Lifecycle.WellFormed k row) as [H1 H2 H3 H4 H5]; [|done].
  eapply (LifecycleFacts.rows_exec id getAddress getTime config
            Lifecycle.WellFormed events (Indexer.boot ∅)); [| | |exact Hrow].
  - apply (LifecycleFacts.effect_wellformed id getAddress getTime config).
  - apply LifecycleFacts.tracked_boot.
  - intros k' row' H. simpl in H. by rewrite lookup_empty in H.
Qed.


(** X14. The nullable columns of a row go with its status. In a table
    reached from the empty one: a row that is [pending] or [polling]
    has no payload, no error, no transaction and was never retried; a
    row that is [submitted] or [confirmed] has [eth_tx_hash] and
    [submitted_at]; a row has [eth_block_number] and [confirmed_at]
    exactly when it is [confirmed]; and a [failed] row has an
    [error]. *)
Theorem columns_go_with_the_status :
  forall (id getAddress : string -> string) (getTime : string -> Z)
         (config : Config) (events : list Indexer.Event)
         (k : string) (row : Row.t),
    Indexer.table
      (Indexer.exec id getAddress getTime config events (Indexer.boot ∅)) !! k
      = Some row ->
    (Row.status row ∈ [Pending; Polling] ->
     Row.attested_message row = None /\ Row.attestation row = None /\
     Row.attested_at row = None /\ Row.eth_tx_hash row = None /\
     Row.submitted_at row = None /\ Row.confirmed_at row = None /\
     Row.error row = None /\ Row.retry_count row = 0%Z) /\
    (Row.status row ∈ [Submitted; Confirmed] ->
     is_Some (Row.eth_tx_hash row) /\ is_Some (Row.submitted_at row)) /\
    (Row.status row = Confirmed ->
     is_Some (Row.eth_block_number row) /\ is_Some (Row.confirmed_at row)) /\
    (Row.status row ≠ Confirmed ->
     Row.eth_block_number row = None /\ Row.confirmed_at row = None) /\
    (Row.status row = Failed -> is_Some (Row.error row)).
Proof.
  intros id getAddress getTime config events k row Hrow.
  assert (Lifecycle.Complete getAddress config row) as [H1 _ H3 H4 H5 H6];
    [|done].
  eapply (LifecycleFacts.rows_exec id getAddress getTime config
            (fun _ => Lifecycle.Complete getAddress config)
            events (Indexer.boot ∅)); [| | |exact Hrow].
  - apply (LifecycleFacts.effect_complete id getAddress getTime config).
  - apply LifecycleFacts.tracked_boot.
  - intros k' row' H. simpl in H. by rewrite lookup_empty in H.
Qed.

(** X15. The retry budget bounds the retry count. In a table reached
    from the empty one no row has a [retry_count] above [maxRetries] (1
    when [maxRetries] is less), and a row that has not failed is below
    it: the submission that brings the count to the budget fails the
    job. *)
Theorem retries_stay_within_the_budget :
  forall (id getAddress : string -> string) (getTime : string -> Z)
         (config : Config) (events : list Indexer.Event)
         (k : string) (row : Row.t),
    Indexer.table
      (Indexer.exec id getAddress getTime config events (Indexer.boot ∅)) !! k
      = Some row ->
    (Row.retry_count row <= Z.max 1 (maxRetries config))%Z /\
    (Row.status row ≠ Failed ->
     (Row.retry_count row < Z.max 1 (maxRetries config))%Z).
Proof.
  intros id getAddress getTime config events k row Hrow.
  eapply (LifecycleFacts.rows_exec id getAddress getTime config
            (fun _ => Lifecycle.WithinBudget config)
            events (Indexer.boot ∅)); [| | |exact Hrow].
  - apply (LifecycleFacts.effect_budget id getAddress getTime config).
  - apply LifecycleFacts.tracked_boot.
  - intros k' row' H. simpl in H. by rewrite lookup_empty in H.
Qed.

(** ** The validator and the configuration *)



(** ** The poller *)

(** X18. [pollForAttestation] returns an attestation only from a
    response with a status from 200 to 299 whose first message is
    [complete] with an attestation other than [PENDING], and then it
    returns the three fields of that first message; later messages are
    not looked at. For a body of the declared shape it throws exactly
    when [fetch] or the parsing of the body throws (a body is only
    parsed of a 2xx response), or the status is 429, which is thrown as
    [RATE_LIMITED]. *)
Theorem attestation_only_from_a_complete_first_message :
  forall (fetched : settled HttpResponse.t),
    (forall result,
       Poller.pollForAttestation fetched = Resolved (Some result) <->
       exists response msg rest,
         fetched = Resolved response /\
         (200 <= HttpResponse.status response <= 299)%Z /\
         HttpResponse.json response = Resolved (Some (msg :: rest)) /\
         IrisMessage.status msg = "complete" /\
         IrisMessage.attestation msg ≠ "PENDING" /\
         result =
           {| AttestationResult.message := IrisMessage.message msg;
              AttestationResult.attestation := IrisMessage.attestation msg;
              AttestationResult.nonce := IrisMessage.eventNonce msg |}) /\
    (forall thrown,
       Poller.pollForAttestation fetched = Rejected thrown <->
       fetched = Rejected thrown \/
       exists response,
         fetched = Resolved response /\
         (HttpResponse.status response = 429%Z /\ thrown = "RATE_LIMITED" \/
          (200 <= HttpResponse.status response <= 299)%Z /\
          HttpResponse.json response = Rejected thrown)).
Proof.
  intros fetched. unfold Poller.pollForAttestation, HttpResponse.ok.
  destruct fetched as [response|m].
  2: { split.
       - intros result. split; [done|]. by intros (? & ? & ? & ? & _).
       - intros thrown. split; [intros [= <-]; by left|].
         intros [[= <-]|(? & ? & _)]; done. }
  destruct (HttpResponse.status response =? 404)%Z eqn:E404.
  { apply Z.eqb_eq in E404. split.
    - intros result. split; [done|]. intros (? & ? & ? & [= <-] & ? & _). lia.
    - intros thrown. split; [done|].
      intros [|(? & [= <-] & [[? _]|[? _]])]; [done|lia..]. }
  destruct (HttpResponse.status response =? 429)%Z eqn:E429.
  { apply Z.eqb_eq in E429. split.
    - intros result. split; [done|]. intros (? & ? & ? & [= <-] & ? & _). lia.
    - intros thrown. split.
      + intros [= <-]. right. exists response. auto.
      + intros [|(? & [= <-] & [[_ ->]|[? _]])]; [done|done|lia]. }
  apply Z.eqb_neq in E404, E429.
  destruct ((200 <=? HttpResponse.status response)%Z
            && (HttpResponse.status response <=? 299)%Z) eqn:Eok; simpl.
  2: { apply andb_false_iff in Eok. rewrite Z.leb_gt, Z.leb_gt in Eok. split.
       - intros result. split; [done|]. intros (? & ? & ? & [= <-] & ? & _). lia.
       - intros thrown. split; [done|].
         intros [|(? & [= <-] & [[? _]|[? _]])]; [done|lia..]. }
  apply andb_true_iff in Eok. rewrite !Z.leb_le in Eok.
  destruct (HttpResponse.json response) as [[[|msg rest]|]|m] eqn:Ejson.
  - split.
    + intros result. split; [done|].
      intros (? & ? & ? & [= <-] & _ & ? & _). congruence.
    + intros thrown. split; [done|].
      intros [|(? & [= <-] & [[? _]|[_ ?]])]; [done|lia|congruence].
  - destruct (String.eqb (IrisMessage.status msg) "complete") eqn:Ecomplete;
      [destruct (String.eqb (IrisMessage.attestation msg) "PENDING") eqn:Epending|];
      simpl.
    + apply String.eqb_eq in Epending. split.
      * intros result. split; [done|].
        intros (? & ? & ? & [= <-] & _ & H & _ & ? & _).
        rewrite Ejson in H. injection H as <- <-. done.
      * intros thrown. split; [done|].
        intros [|(? & [= <-] & [[? _]|[_ ?]])]; [done|lia|congruence].
    + apply String.eqb_eq in Ecomplete. apply String.eqb_neq in Epending. split.
      * intros result. split.
        -- intros [= <-]. exists response, msg, rest. done.
        -- intros (? & ? & ? & [= <-] & _ & H & _ & _ & ->).
           rewrite Ejson in H. by injection H as <- <-.
      * intros thrown. split; [done|].
        intros [|(? & [= <-] & [[? _]|[_ ?]])]; [done|lia|congruence].
    + apply String.eqb_neq in Ecomplete. split.
      * intros result. split; [done|].
        intros (? & ? & ? & [= <-] & _ & H & ? & _).
        rewrite Ejson in H. injection H as <- <-. done.
      * intros thrown. split; [done|].
        intros [|(? & [= <-] & [[? _]|[_ ?]])]; [done|lia|congruence].
  - split.
    + intros result. split; [done|].
      intros (? & ? & ? & [= <-] & _ & ? & _). congruence.
    + intros thrown. split; [done|].
      intros [|(? & [= <-] & [[? _]|[_ ?]])]; [done|lia|congruence].
  - split.
    + intros result. split; [done|].
      intros (? & ? & ? & [= <-] & _ & ? & _). congruence.
    + intros thrown. split.
      * intros [= <-]. right. exists response. auto.
      * intros [|(? & [= <-] & [[? _]|[_ ?]])]; [done|lia|congruence].
Qed.

(** ** The submitter *)

(** X19. An iteration of the submitter in which the three awaited calls
    succeed and the receipt does not report a revert confirms the oldest
    [attested] job and nothing else: the loop is back in [sleep]; the
    job has the hash of the transaction, the block number of the
    receipt, the outcome read from its logs, status [confirmed],
    [submittedAt] from the clock after the broadcast and [confirmedAt]
    from the clock after the receipt; every other field, an [error] left
    by an earlier attempt included, is as it was, and so is every other
    row. *)
Theorem successful_iteration_confirms_the_oldest_job :
  forall (id : string -> string) (config : Config)
         (afterEstimate afterSend afterReceipt hash : string)
         (gasEstimate : Z) (receipt : Receipt.t) (s : Store) (job : RelayJob),
    Store.getOldestByStatus Attested s = Some job ->
    Receipt.status receipt ≠ 0%Z ->
    let r :=
      foldl (fun st e => Submitter.step id config e st) (Submitter.Idle, s)
        [Submitter.Wake;
         Submitter.GasEstimated afterEstimate (Resolved gasEstimate);
         Submitter.Sent afterSend (Resolved hash);
         Submitter.Mined afterReceipt (Resolved (Some receipt))] in
    r.1 = Submitter.Idle /\
    Store.getJob (txHash job) s = Some job /\
    Store.getJob (txHash job) r.2 =
      Some {| txHash := txHash job; sourceDomain := sourceDomain job;
              attestedMessage := attestedMessage job;
              attestation := attestation job; irisNonce := irisNonce job;
              mintRecipient := mintRecipient job;
              destinationDomain := destinationDomain job; amount := amount job;
              ethTxHash := Some hash;
              ethBlockNumber := Some (Receipt.blockNumber receipt);
              status := Confirmed;
              outcome :=
                (Submitter.determineOutcome id (txHash job)
                   (Receipt.logs receipt)).1;
              error := error job;
              pollAttempts := pollAttempts job; retryCount := retryCount job;
              createdAt := createdAt job; attestedAt := attestedAt job;
              submittedAt := Some afterSend;
              confirmedAt := Some afterReceipt;
              updatedAt := afterReceipt |} /\
    (forall k, k ≠ txHash job -> r.2 !! k = s !! k).
Proof.
  intros id config t1 t2 t3 hash gas receipt s job Hjob Hreceipt r. subst r.
  destruct (IterationFacts.oldest_row _ _ _ Hjob) as (row & Hrow & Heq & Hst).
  cbn [foldl Submitter.step]. rewrite Hjob.
  cbn [Submitter.step].
  apply Z.eqb_neq in Hreceipt. rewrite Hreceipt.
  destruct (Submitter.determineOutcome id (txHash job) (Receipt.logs receipt))
    as [o w] eqn:Ho. cbn [fst snd].
  split; [done|]. unfold Store.getJob. split; [by rewrite Hrow, Heq|]. split.
  - rewrite !OrderFacts.updateJob_lookup_eq, Hrow. simpl.
    rewrite Heq. simpl. done.
  - intros k Hne. by rewrite !StoreFacts.updateJob_lookup_ne.
Qed.

(** X20. A failure before the broadcast is retried. When gas estimation
    fails, or it succeeds and sending the transaction fails, the
    iteration writes the message and a retry count one higher to the
    oldest [attested] job and to nothing else. The job is [failed] when
    the message is terminal or the new count has reached [maxRetries];
    otherwise it is still [attested], and the next iteration finds an
    [attested] job again, one not younger than it. *)
Theorem failure_before_broadcast_is_retried :
  forall (id : string -> string) (config : Config) (now thrown : string)
         (estimated : settled Z) (sent : settled string)
         (mined : settled (option Receipt.t)) (s : Store) (job : RelayJob),
    Store.getOldestByStatus Attested s = Some job ->
    let message :=
      match estimated with
      | Rejected _ => "Gas estimation failed: " +:+ thrown
      | Resolved _ => thrown
      end in
    estimated = Rejected thrown \/
    (exists gasEstimate, estimated = Resolved gasEstimate) /\ sent = Rejected thrown ->
    let r := Submitter.iteration id config now estimated sent mined s in
    let givenUp :=
      Submitter.terminal message
      || (maxRetries config <=? retryCount job + 1)%Z in
    r.1 = Submitter.Idle /\
    Store.getJob (txHash job) r.2 =
      Some {| txHash := txHash job; sourceDomain := sourceDomain job;
              attestedMessage := attestedMessage job;
              attestation := attestation job; irisNonce := irisNonce job;
              mintRecipient := mintRecipient job;
              destinationDomain := destinationDomain job; amount := amount job;
              ethTxHash := ethTxHash job; ethBlockNumber := ethBlockNumber job;
              status := if givenUp then Failed else Attested;
              outcome := outcome job;
              error := Some message;
              pollAttempts := pollAttempts job;
              retryCount := retryCount job + 1;
              createdAt := createdAt job; attestedAt := attestedAt job;
              submittedAt := submittedAt job; confirmedAt := confirmedAt job;
              updatedAt := now |} /\
    (forall k, k ≠ txHash job -> r.2 !! k = s !! k) /\
    (givenUp = false ->
     exists next,
       Store.getOldestByStatus Attested r.2 = Some next /\
       String.leb (createdAt next) (createdAt job) = true).
Proof.
  intros id config now thrown estimated sent mined s job Hjob message Hcase r
    givenUp.
  destruct (IterationFacts.oldest_row _ _ _ Hjob) as (row & Hrow & Heq & Hst).
  assert (r = (Submitter.Idle,
               Submitter.onFailure config now job message s)) as ->.
  { subst r message. unfold Submitter.iteration. cbn [foldl Submitter.step].
    rewrite Hjob.
    destruct Hcase as [->|[[gas ->] ->]]; cbn [Submitter.step]; by destruct mined. }
  cbn [fst snd].
  pose proof (IterationFacts.onFailure_lookup config now job message s row Hrow)
    as Hlook.
  fold givenUp in Hlook.
  split; [done|]. split; [|split].
  - unfold Store.getJob. rewrite Hlook. simpl. f_equal. subst givenUp.
    destruct (Submitter.terminal message || _); rewrite Heq;
      unfold Store.rowToJob, Store.applyUpdates; simpl; rewrite ?Hst;
      reflexivity.
  - intros k Hne. by apply IndexerFacts.onFailure_lookup_ne.
  - intros Hkept. rewrite Hkept in Hlook.
    destruct (IterationFacts.oldest_exists Attested _ _ _ Hlook) as (next & Hnext & Hle);
      [done|].
    exists next. split; [done|]. rewrite Heq. exact Hle.
Qed.

(** ** The token bucket *)

(** X21. The lazy refill loses nothing: refilling at [t1] and again at
    [t2] leaves the bucket as one refill at [t2] does, for a rate that
    is not negative and [t1] not after [t2]. So the token count at a
    call does not depend on how many calls came before it without
    taking a token. *)
Theorem lazy_refill_composes :
  forall (b : TokenBucket.t) (t1 t2 : Z),
    (0 <= TokenBucket.refillRate b)%Q ->
    (t1 <= t2)%Z ->
    let once := TokenBucket.refill t2 b in
    let twice := TokenBucket.refill t2 (TokenBucket.refill t1 b) in
    (TokenBucket.tokens twice == TokenBucket.tokens once)%Q /\
    TokenBucket.lastRefill twice = TokenBucket.lastRefill once /\
    TokenBucket.maxTokens twice = TokenBucket.maxTokens once /\
    TokenBucket.refillRate twice = TokenBucket.refillRate once.
Proof.
  intros b t1 t2 HR Ht once twice. subst once twice.
  split; [by apply BucketMoreFacts.refill_refill|done].
Qed.

(** X22. With calls that do not overlap, the bucket of capacity [B >= 1]
    and rate [R > 0] never holds less than no token or more than [B],
    and at most one caller sleeps. A call made then returns at once, or
    sleeps for a time that is positive and at most [1000 / R]
    milliseconds, the time in which one token flows in. *)
Theorem tokens_and_sleeps_are_bounded :
  forall (B R : Q) (t0 : Z) (events : list TokenBucket.Event)
         (r : TokenBucket.Run),
    (1 <= B)%Q ->
    (0 < R)%Q ->
    TokenBucket.steps events (TokenBucket.start B R t0) = Some r ->
    TokenBucket.sequential events (TokenBucket.start B R t0) = true ->
    (0 <= TokenBucket.tokens (TokenBucket.bucket r))%Q /\
    (TokenBucket.tokens (TokenBucket.bucket r) <= B)%Q /\
    (length (TokenBucket.sleeping r) <= 1)%nat /\
    (forall now,
       (TokenBucket.clock r <= now)%Z ->
       match TokenBucket.acquireEnter now (TokenBucket.bucket r) with
       | (b, None) =>
           (0 <= TokenBucket.tokens b)%Q /\ (TokenBucket.tokens b <= B - 1)%Q
       | (b, Some wait) =>
           (0 <= TokenBucket.tokens b)%Q /\ (TokenBucket.tokens b < 1)%Q /\
           (0 < wait)%Q /\ (wait <= 1000 / R)%Q
       end).
Proof.
  intros B R t0 events r HB HR Hsteps Hseq.
  assert (BucketInvariant.Holds B R t0 t0 r) as Hinv.
  { eapply BucketFacts.holds_steps; [done|done| |done..].
    by apply BucketFacts.holds_start. }
  pose proof Hinv as [Hmax Hrate _ Hpos Hcap _ Hone _ _].
  split; [done|]. split; [done|]. split.
  - destruct Hone as [->|(due & -> & _)]; simpl; lia.
  - intros now Hnow.
    destruct (BucketFacts.refill_facts B R t0 t0 HB HR r now Hinv Hnow)
      as (Hpos' & Hcap' & _).
    unfold TokenBucket.acquireEnter.
    destruct (Qle_bool 1 _) eqn:Hone'.
    + apply Qle_bool_iff in Hone'.
      change (0 <= TokenBucket.tokens (TokenBucket.refill now (TokenBucket.bucket r)) - 1
              /\ TokenBucket.tokens (TokenBucket.refill now (TokenBucket.bucket r)) - 1
                 <= B - 1)%Q.
      split; lra.
    + assert (TokenBucket.tokens (TokenBucket.refill now (TokenBucket.bucket r)) < 1)%Q
        as Hlt.
      { apply Qnot_le_lt. intros Hle. apply Qle_bool_iff in Hle. congruence. }
      split; [done|]. split; [done|].
      rewrite <- Hrate.
      change (TokenBucket.refillRate (TokenBucket.bucket r))
        with (TokenBucket.refillRate (TokenBucket.refill now (TokenBucket.bucket r))).
      apply BucketMoreFacts.waitMs_bounds; [|done..].
      change (0 < TokenBucket.refillRate (TokenBucket.bucket r))%Q.
      by rewrite Hrate.
Qed.

(** * The theorems at sample inputs *)


(** C1 at a sample input: a row left [submitted] by a crash is the same
    after a restart, a turn of each loop and a replayed intake request. *)
Lemma submitted_rows_are_never_rescued_witness :
  ({[Sample.hashA := Sample.submittedRow]} : Store) !! Sample.hashA
    = Some Sample.submittedRow /\
  Row.status Sample.submittedRow = Submitted /\
  Indexer.table
    (Indexer.exec Sample.signatureItself Sample.lowerSpelling Sample.minuteStart
       Sample.config Sample.afterCrash
       (Indexer.boot {[Sample.hashA := Sample.submittedRow]})) !! Sample.hashA
  = Some Sample.submittedRow.
Proof.
  split; [vm_compute; reflexivity|]. split; [reflexivity|].
  apply submitted_rows_are_never_rescued; [vm_compute; reflexivity|reflexivity].
Defined.

(** C2 at a sample input: the happy path, whose receipt has one
    [Relayed] log, ends [confirmed] with outcome [forwarded]. *)
Lemma outcome_only_on_confirmed_rows_witness :
  exists row,
    Indexer.table
      (Indexer.exec Sample.signatureItself Sample.lowerSpelling Sample.minuteStart
         Sample.config (Sample.untilSent ++ [Sample.mined [Sample.relayedLog]])
         (Indexer.boot ∅)) !! Sample.hashA = Some row /\
    Row.outcome row = Some Forwarded /\
    Row.status row = Confirmed.
Proof.
  eexists. split; [vm_compute; reflexivity|]. split; [reflexivity|].
  eapply (proj1 (outcome_only_on_confirmed_rows Sample.signatureItself
                   Sample.lowerSpelling Sample.minuteStart Sample.config)
            (Sample.untilSent ++ [Sample.mined [Sample.relayedLog]]) Sample.hashA);
    [vm_compute; reflexivity|discriminate].
Defined.

(** C4 at a sample input: the same request three times within a second,
    on an empty table. *)
Lemma post_relay_idempotent_witness :
  (3%Z ∈ Api.VALID_SOURCE_DOMAINS) /\
  Api.TX_HASH_REGEX Sample.hashAUpper = true /\
  (∅ : Store) !! Js.toLowerCase Sample.hashAUpper = None /\
  (Api.postRelayRepeated
     ["2025-01-15T10:30:00.000Z"; "2025-01-15T10:30:00.400Z";
      "2025-01-15T10:30:00.900Z"]
     (Js.VInt 3) (Js.VString Sample.hashAUpper) ∅).2 =
  <[Js.toLowerCase Sample.hashAUpper :=
      Store.jobToRow
        (Api.newJob "2025-01-15T10:30:00.000Z"
           (Js.toLowerCase Sample.hashAUpper) 3)]> ∅.
Proof.
  assert (3%Z ∈ Api.VALID_SOURCE_DOMAINS) as H1
    by (apply (bool_decide_unpack _); vm_compute; exact I).
  assert (Api.TX_HASH_REGEX Sample.hashAUpper = true) as H2 by reflexivity.
  assert ((∅ : Store) !! Js.toLowerCase Sample.hashAUpper = None) as H3
    by reflexivity.
  split; [exact H1|]. split; [exact H2|]. split; [exact H3|].
  exact (proj1 (post_relay_idempotent ∅ 3 Sample.hashAUpper
                  "2025-01-15T10:30:00.000Z"
                  ["2025-01-15T10:30:00.400Z"; "2025-01-15T10:30:00.900Z"]
                  H1 H2 H3)).
Defined.




(** C8 at a sample input: the limiter of the indexer under a burst of 31
    calls and one more, in the window of the first 67 ms. *)
Lemma acquire_bound_without_overlap_witness :
  exists r : TokenBucket.Run,
    TokenBucket.steps Sample.burstThenWait (TokenBucket.start 30 30 0) = Some r /\
    TokenBucket.sequential Sample.burstThenWait (TokenBucket.start 30 30 0) = true /\
    TokenBucket.returnsWithin 0 67 r = 32%nat /\
    (inject_Z (Z.of_nat (TokenBucket.returnsWithin 0 67 r))
     <= 30 + 30 * (inject_Z (67 - 0) / 1000))%Q.
Proof.
  eexists. split; [vm_compute; reflexivity|].
  split; [vm_compute; reflexivity|]. split; [vm_compute; reflexivity|].
  refine (proj1 (acquire_bound_without_overlap 30 30 0 Sample.burstThenWait _
                   0 67 _ _ _ _ _)).
  - vm_compute. discriminate.
  - reflexivity.
  - lia.
  - vm_compute. reflexivity.
  - vm_compute. reflexivity.
Defined.

(** C9 at a sample input: two rows that differ in every column the
    answer leaves out. *)
Lemma get_relay_narrow_projection_witness :
  Api.getRelay Sample.hashAUpper {[Sample.hashA := Sample.attestedRow]} =
  Api.getRelay Sample.hashAUpper {[Sample.hashA := Sample.attestedRowOtherwise]}.
Proof.
  refine (proj1 (get_relay_narrow_projection
                   {[Sample.hashA := Sample.attestedRow]}
                   {[Sample.hashA := Sample.attestedRowOtherwise]}
                   Sample.hashAUpper Sample.attestedRow
                   (Some "0x00") None (Some "8") None (Some 5%N)
                   (Some "1000000") (Some 12%Z) 9 2
                   "2025-01-15T10:30:59.000Z" _ _)).
  - vm_compute. reflexivity.
  - vm_compute. reflexivity.
Defined.

(** C10 at sample inputs: domain 0, which is not in the allow-list, and
    a hash that is too short. *)
Lemma post_relay_rejection_atomic_witness :
  (Api.postRelay "2025-01-15T10:30:00.000Z" (Js.VInt 0) (Js.VString Sample.hashA)
     {[Sample.hashA := Sample.attestedRow]}).2 =
  {[Sample.hashA := Sample.attestedRow]} /\
  Api.code
    (Api.postRelay "2025-01-15T10:30:00.000Z" (Js.VInt 3) (Js.VString "0x123")
       ∅).1 = 400%nat.
Proof.
  split.
  - refine (proj2 (post_relay_rejection_atomic "2025-01-15T10:30:00.000Z"
                     (Js.VInt 0) (Js.VString Sample.hashA)
                     {[Sample.hashA := Sample.attestedRow]} (or_introl _))).
    intros n [= <-]. apply (bool_decide_eq_false_1 _). vm_compute. reflexivity.
  - refine (proj1 (post_relay_rejection_atomic "2025-01-15T10:30:00.000Z"
                     (Js.VInt 3) (Js.VString "0x123") ∅ (or_intror _))).
    intros str [= <-] (digits & Heq & Hlen & _).
    rewrite !StringFacts.append_cons, StringFacts.append_nil in Heq.
    injection Heq as <-. discriminate Hlen.
Defined.


(** ** The further properties at sample inputs *)

(** X3 at a sample input: the poller moves one job to [polling] while the
    submitter records a failure of another. *)
Lemma updates_of_different_rows_commute_witness :
  MoreSamples.hashB ≠ Sample.hashA /\
  Store.updateJob "2025-01-15T10:30:02.000Z" MoreSamples.hashB [SetStatus Polling]
    (Store.updateJob "2025-01-15T10:30:03.000Z" Sample.hashA
       [SetError (Some "timeout"); SetRetryCount 1] MoreSamples.twoJobs) =
  Store.updateJob "2025-01-15T10:30:03.000Z" Sample.hashA
    [SetError (Some "timeout"); SetRetryCount 1]
    (Store.updateJob "2025-01-15T10:30:02.000Z" MoreSamples.hashB
       [SetStatus Polling] MoreSamples.twoJobs).
Proof.
  assert (MoreSamples.hashB ≠ Sample.hashA) as H by discriminate.
  split; [exact H|].
  exact (updates_of_different_rows_commute _ _ _ _ _ _ MoreSamples.twoJobs H).
Defined.

(** X7 at a sample input: a hash posted in upper case and queried in
    lower case. *)
Lemma post_then_get_relay_witness :
  (3%Z ∈ Api.VALID_SOURCE_DOMAINS) /\
  Api.TX_HASH_REGEX Sample.hashAUpper = true /\
  (∅ : Store) !! Js.toLowerCase Sample.hashAUpper = None /\
  Js.toLowerCase Sample.hashA = Js.toLowerCase Sample.hashAUpper /\
  Api.code (Api.getRelay Sample.hashA ∅) = 404%nat /\
  Api.code
    (Api.getRelay Sample.hashA
       (Api.postRelay "2025-01-15T10:30:00.000Z" (Js.VInt 3)
          (Js.VString Sample.hashAUpper) ∅).2) = 200%nat.
Proof.
  assert (3%Z ∈ Api.VALID_SOURCE_DOMAINS) as H1
    by (apply (bool_decide_unpack _); vm_compute; exact I).
  assert (Api.TX_HASH_REGEX Sample.hashAUpper = true) as H2 by reflexivity.
  assert ((∅ : Store) !! Js.toLowerCase Sample.hashAUpper = None) as H3
    by reflexivity.
  assert (Js.toLowerCase Sample.hashA = Js.toLowerCase Sample.hashAUpper) as H4
    by reflexivity.
  split; [exact H1|]. split; [exact H2|]. split; [exact H3|]. split; [exact H4|].
  destruct (post_then_get_relay ∅ 3 Sample.hashAUpper "2025-01-15T10:30:00.000Z"
              Sample.hashA H1 H2 H3 H4) as (Hbefore & Hafter & _).
  split; [by rewrite Hbefore|by rewrite Hafter].
Defined.

(** X9 at a sample input: the job whose transaction has been sent is
    [submitted]; the receipt moves it along the edge to [confirmed]. *)
Lemma status_moves_along_the_lifecycle_witness :
  exists row row',
    Indexer.table
      (Indexer.exec Sample.signatureItself Sample.lowerSpelling
         Sample.minuteStart Sample.config Sample.untilSent (Indexer.boot ∅))
      !! Sample.hashA = Some row /\
    Row.status row = Submitted /\
    Indexer.table
      (Indexer.run Sample.signatureItself Sample.lowerSpelling
         Sample.minuteStart Sample.config (Sample.mined [Sample.relayedLog])
         (Indexer.exec Sample.signatureItself Sample.lowerSpelling
            Sample.minuteStart Sample.config Sample.untilSent (Indexer.boot ∅)))
      !! Sample.hashA = Some row' /\
    (Row.status row' = Row.status row \/
     Lifecycle.edge (Row.status row) (Row.status row')).
Proof.
  assert (exists row,
            Indexer.table
              (Indexer.exec Sample.signatureItself Sample.lowerSpelling
                 Sample.minuteStart Sample.config Sample.untilSent
                 (Indexer.boot ∅)) !! Sample.hashA = Some row /\
            Row.status row = Submitted) as (row & Hrow & Hst)
    by (eexists; split; [vm_compute; reflexivity|reflexivity]).
  destruct (proj1 (proj2 (status_moves_along_the_lifecycle Sample.signatureItself
                            Sample.lowerSpelling Sample.minuteStart Sample.config
                            ∅ Sample.untilSent (Sample.mined [Sample.relayedLog])
                            [])
                     Sample.hashA row Hrow))
    as (row' & Hrow' & Hedge).
  exists row, row'. exact (conj Hrow (conj Hst (conj Hrow' Hedge))).
Defined.

(** X10 at a sample input: the job between its broadcast and its
    confirmation. *)
Lemma rows_stay_and_counters_grow_witness :
  exists row row',
    Indexer.table
      (Indexer.exec Sample.signatureItself Sample.lowerSpelling
         Sample.minuteStart Sample.config Sample.untilSent (Indexer.boot ∅))
      !! Sample.hashA = Some row /\
    Indexer.table
      (Indexer.exec Sample.signatureItself Sample.lowerSpelling
         Sample.minuteStart Sample.config [Sample.mined [Sample.relayedLog]]
         (Indexer.exec Sample.signatureItself Sample.lowerSpelling
            Sample.minuteStart Sample.config Sample.untilSent (Indexer.boot ∅)))
      !! Sample.hashA = Some row' /\
    Row.source_domain row' = Row.source_domain row /\
    Row.created_at row' = Row.created_at row /\
    (Row.poll_attempts row <= Row.poll_attempts row')%Z /\
    (Row.retry_count row <= Row.retry_count row')%Z.
Proof.
  assert (exists row,
            Indexer.table
              (Indexer.exec Sample.signatureItself Sample.lowerSpelling
                 Sample.minuteStart Sample.config Sample.untilSent
                 (Indexer.boot ∅)) !! Sample.hashA = Some row)
    as (row & Hrow) by (eexists; vm_compute; reflexivity).
  destruct (rows_stay_and_counters_grow Sample.signatureItself
              Sample.lowerSpelling Sample.minuteStart Sample.config
              ∅ Sample.untilSent [Sample.mined [Sample.relayedLog]]
              Sample.hashA row Hrow) as (row' & Hrow' & H).
  exists row, row'. exact (conj Hrow (conj Hrow' H)).
Defined.

(** X11 at a sample input: a confirmed job through a restart, a turn of
    each loop and a replayed intake request. *)
Lemma confirmed_and_failed_rows_are_final_witness :
  exists row,
    Indexer.table
      (Indexer.exec Sample.signatureItself Sample.lowerSpelling
         Sample.minuteStart Sample.config MoreSamples.untilConfirmed
         (Indexer.boot ∅)) !! Sample.hashA = Some row /\
    Row.status row = Confirmed /\
    Indexer.table
      (Indexer.exec Sample.signatureItself Sample.lowerSpelling
         Sample.minuteStart Sample.config Sample.afterCrash
         (Indexer.exec Sample.signatureItself Sample.lowerSpelling
            Sample.minuteStart Sample.config MoreSamples.untilConfirmed
            (Indexer.boot ∅))) !! Sample.hashA = Some row.
Proof.
  eexists. split; [vm_compute; reflexivity|]. split; [reflexivity|].
  apply (confirmed_and_failed_rows_are_final Sample.signatureItself
           Sample.lowerSpelling Sample.minuteStart Sample.config
           ∅ MoreSamples.untilConfirmed Sample.afterCrash Sample.hashA).
  - vm_compute. reflexivity.
  - apply (bool_decide_unpack _). vm_compute. exact I.
Defined.

(** X12 at a sample input: the hash posted in upper case is stored in
    lower case. *)
Lemma stored_rows_are_well_formed_witness :
  exists row,
    Indexer.table
      (Indexer.exec Sample.signatureItself Sample.lowerSpelling
         Sample.minuteStart Sample.config Sample.untilSent (Indexer.boot ∅))
      !! Sample.hashA = Some row /\
    Api.TX_HASH_REGEX Sample.hashA = true /\
    Js.toLowerCase Sample.hashA = Sample.hashA /\
    Row.source_domain row ∈ Api.VALID_SOURCE_DOMAINS /\
    (0 <= Row.poll_attempts row)%Z /\
    (0 <= Row.retry_count row)%Z.
Proof.
  eexists. split; [vm_compute; reflexivity|].
  apply (stored_rows_are_well_formed Sample.signatureItself
           Sample.lowerSpelling Sample.minuteStart Sample.config
           Sample.untilSent Sample.hashA).
  vm_compute. reflexivity.
Defined.


(** X14 at a sample input: the confirmed job has its transaction, its
    block and its timestamps. *)
Lemma columns_go_with_the_status_witness :
  exists row,
    Indexer.table
      (Indexer.exec Sample.signatureItself Sample.lowerSpelling
         Sample.minuteStart Sample.config MoreSamples.untilConfirmed
         (Indexer.boot ∅)) !! Sample.hashA = Some row /\
    Row.status row = Confirmed /\
    (is_Some (Row.eth_tx_hash row) /\ is_Some (Row.submitted_at row)) /\
    (is_Some (Row.eth_block_number row) /\ is_Some (Row.confirmed_at row)).
Proof.
  assert (exists row,
            Indexer.table
              (Indexer.exec Sample.signatureItself Sample.lowerSpelling
                 Sample.minuteStart Sample.config MoreSamples.untilConfirmed
                 (Indexer.boot ∅)) !! Sample.hashA = Some row /\
            Row.status row = Confirmed /\
            Row.status row ∈ [Submitted; Confirmed]) as (row & Hrow & Hst & Hin).
  { eexists. split; [vm_compute; reflexivity|]. split; [reflexivity|].
    apply (bool_decide_unpack _). vm_compute. exact I. }
  destruct (columns_go_with_the_status Sample.signatureItself
              Sample.lowerSpelling Sample.minuteStart Sample.config
              MoreSamples.untilConfirmed Sample.hashA row Hrow)
    as (_ & Hsent & Hconfirmed & _).
  exists row.
  exact (conj Hrow (conj Hst (conj (Hsent Hin) (Hconfirmed Hst)))).
Defined.

(** X15 at a sample input: the confirmed job was never retried. *)
Lemma retries_stay_within_the_budget_witness :
  exists row,
    Indexer.table
      (Indexer.exec Sample.signatureItself Sample.lowerSpelling
         Sample.minuteStart Sample.config MoreSamples.untilConfirmed
         (Indexer.boot ∅)) !! Sample.hashA = Some row /\
    (Row.retry_count row <= Z.max 1 (maxRetries Sample.config))%Z.
Proof.
  assert (exists row,
            Indexer.table
              (Indexer.exec Sample.signatureItself Sample.lowerSpelling
                 Sample.minuteStart Sample.config MoreSamples.untilConfirmed
                 (Indexer.boot ∅)) !! Sample.hashA = Some row)
    as (row & Hrow) by (eexists; vm_compute; reflexivity).
  exists row. split; [exact Hrow|].
  exact (proj1 (retries_stay_within_the_budget Sample.signatureItself
                  Sample.lowerSpelling Sample.minuteStart Sample.config
                  MoreSamples.untilConfirmed Sample.hashA row Hrow)).
Defined.



(** X19 at a sample input: the attested job, confirmed with a [Relayed]
    log. *)
Lemma successful_iteration_confirms_the_oldest_job_witness :
  Store.getOldestByStatus Attested MoreSamples.twoJobs
    = Some MoreSamples.attestedJob /\
  Receipt.status MoreSamples.receipt ≠ 0%Z /\
  status <$>
    Store.getJob Sample.hashA
      (foldl (fun st e => Submitter.step Sample.signatureItself Sample.config e st)
         (Submitter.Idle, MoreSamples.twoJobs)
         [Submitter.Wake;
          Submitter.GasEstimated "2025-01-15T10:30:10.000Z" (Resolved 250000%Z);
          Submitter.Sent "2025-01-15T10:30:14.000Z" (Resolved "0xbeef");
          Submitter.Mined "2025-01-15T10:30:26.000Z"
            (Resolved (Some MoreSamples.receipt))]).2
  = Some Confirmed.
Proof.
  assert (Store.getOldestByStatus Attested MoreSamples.twoJobs
          = Some MoreSamples.attestedJob) as H1 by (vm_compute; reflexivity).
  assert (Receipt.status MoreSamples.receipt ≠ 0%Z) as H2 by discriminate.
  split; [exact H1|]. split; [exact H2|].
  destruct (successful_iteration_confirms_the_oldest_job Sample.signatureItself
              Sample.config "2025-01-15T10:30:10.000Z"
              "2025-01-15T10:30:14.000Z" "2025-01-15T10:30:26.000Z" "0xbeef"
              250000 MoreSamples.receipt MoreSamples.twoJobs
              MoreSamples.attestedJob H1 H2) as (_ & _ & H & _).
  change (txHash MoreSamples.attestedJob) with Sample.hashA in H.
  by rewrite H.
Defined.

(** X20 at a sample input: gas estimation fails with a message that is
    not terminal, on the first attempt of three. *)
Lemma failure_before_broadcast_is_retried_witness :
  Store.getOldestByStatus Attested MoreSamples.twoJobs
    = Some MoreSamples.attestedJob /\
  let r :=
    Submitter.iteration Sample.signatureItself Sample.config
      "2025-01-15T10:30:11.000Z" (Rejected "execution reverted")
      (Rejected "") (Rejected "") MoreSamples.twoJobs in
  status <$> Store.getJob Sample.hashA r.2 = Some Attested /\
  retryCount <$> Store.getJob Sample.hashA r.2 = Some 1%Z /\
  exists next, Store.getOldestByStatus Attested r.2 = Some next.
Proof.
  assert (Store.getOldestByStatus Attested MoreSamples.twoJobs
          = Some MoreSamples.attestedJob) as H1 by (vm_compute; reflexivity).
  split; [exact H1|].
  destruct (failure_before_broadcast_is_retried Sample.signatureItself
              Sample.config "2025-01-15T10:30:11.000Z" "execution reverted"
              (Rejected "execution reverted") (Rejected "") (Rejected "")
              MoreSamples.twoJobs MoreSamples.attestedJob H1
              (or_introl eq_refl)) as (_ & H & _ & Hnext).
  change (txHash MoreSamples.attestedJob) with Sample.hashA in H.
  cbv zeta. rewrite H. split; [reflexivity|]. split; [reflexivity|].
  destruct (Hnext eq_refl) as (next & Hn & _). by exists next.
Defined.

(** X21 at a sample input: the limiter of the indexer, started full at
    time 0 and emptied by two tokens, refilled after 10 ms and after
    20 ms. *)
Lemma lazy_refill_composes_witness :
  let b := TokenBucket.take (TokenBucket.take (TokenBucket.irisRateLimiter 0)) in
  (TokenBucket.tokens (TokenBucket.refill 20 (TokenBucket.refill 10 b))
   == TokenBucket.tokens (TokenBucket.refill 20 b))%Q.
Proof.
  refine (proj1 (lazy_refill_composes
                   (TokenBucket.take (TokenBucket.take (TokenBucket.irisRateLimiter 0)))
                   10 20 _ _)).
  - vm_compute. discriminate.
  - lia.
Defined.

(** X22 at a sample input: the limiter of the indexer after a burst of
    31 calls and one more. *)
Lemma tokens_and_sleeps_are_bounded_witness :
  exists r : TokenBucket.Run,
    TokenBucket.steps Sample.burstThenWait (TokenBucket.start 30 30 0) = Some r /\
    TokenBucket.sequential Sample.burstThenWait (TokenBucket.start 30 30 0) = true /\
    (0 <= TokenBucket.tokens (TokenBucket.bucket r))%Q /\
    (TokenBucket.tokens (TokenBucket.bucket r) <= 30)%Q.
Proof.
  eexists. split; [vm_compute; reflexivity|].
  split; [vm_compute; reflexivity|].
  refine (let H := tokens_and_sleeps_are_bounded 30 30 0 Sample.burstThenWait _
                     _ _ _ _ in conj (proj1 H) (proj1 (proj2 H))).
  - vm_compute. discriminate.
  - reflexivity.
  - vm_compute. reflexivity.
  - vm_compute. reflexivity.
Defined.
